(** * GvGen: a shallow embedding of [gvgen.py] and its specification

    The Python class [GvGen] builds a forest of nodes and a list of links in
    memory and prints them in the dot language.  This file embeds the parts
    of the class that the specification talks about:

    - the Python values the class relies on (exceptions, insertion-ordered
      dictionaries, binary64 floats with [float()] and [str()], [%d]);
    - the object store of one [GvGen] instance (node and link dictionaries
      are mutable objects that are shared by reference);
    - node and link creation, the smart-link coalescer, the property and
      style operations and the dot serializer;

    and then states and proves the properties of the specification. *)

From Stdlib Require Import ZArith Lia List Sorted Ascii String.
From Stdlib Require Import Floats.SpecFloat.
From stdpp Require Import base option list strings pretty.

Open Scope string_scope.
Open Scope Z_scope.
Open Scope list_scope.

(** ** Python exceptions and fallible computations *)

Module Py.

Inductive exn : Type :=
  | KeyError      (* missing dictionary key *)
  | ValueError    (* [float()] of a string that is not a number *)
  | TypeError     (* subscripting something that is not a dictionary *)
  | RecursionError.

Inductive result (A : Type) : Type :=
  | Ok (a : A)
  | Raise (e : exn).
Arguments Ok {A} a.
Arguments Raise {A} e.

Definition bind {A B} (m : result A) (k : A -> result B) : result B :=
  match m with
  | Ok a => k a
  | Raise e => Raise e
  end.

Definition is_ok {A} (m : result A) : bool :=
  match m with Ok _ => true | Raise _ => false end.

(** [try: ... except: return d] *)
Definition try_except {A} (m : result A) (d : A) : A :=
  match m with Ok a => a | Raise _ => d end.

End Py.

Import Py.

Notation "x <- m ;; k" := (Py.bind m (fun x => k))
  (at level 100, m at next level, right associativity, only parsing).

(** ** Insertion-ordered dictionaries with string keys

    A Python [dict] iterates in insertion order; assigning to a key that is
    already present keeps its position.  The serializer prints the
    dictionary in iteration order, so the order is part of the model. *)

Module Dict.

Definition t (V : Type) := list (string * V).

Fixpoint get {V} (d : t V) (k : string) : option V :=
  match d with
  | [] => None
  | (k', v) :: d' => if String.eqb k' k then Some v else get d' k
  end.

(** [d[k] = v] *)
Fixpoint set {V} (d : t V) (k : string) (v : V) : t V :=
  match d with
  | [] => [(k, v)]
  | (k', v') :: d' =>
      if String.eqb k' k then (k', v) :: d' else (k', v') :: set d' k v
  end.

(** [del d[k]] without the check for a missing key *)
Fixpoint remove {V} (d : t V) (k : string) : t V :=
  match d with
  | [] => []
  | (k', v') :: d' =>
      if String.eqb k' k then d' else (k', v') :: remove d' k
  end.

(** [d[k]] *)
Definition getitem {V} (d : t V) (k : string) : result V :=
  match get d k with
  | Some v => Ok v
  | None => Raise KeyError
  end.

(** [del d[k]] *)
Definition delitem {V} (d : t V) (k : string) : result (t V) :=
  match get d k with
  | Some _ => Ok (remove d k)
  | None => Raise KeyError
  end.

(** [d.update(pairs)] for a dictionary or a list of pairs: entries are
    assigned from left to right. *)
Definition update {V} (d : t V) (pairs : list (string * V)) : t V :=
  fold_left (fun acc kv => set acc (fst kv) (snd kv)) pairs d.

End Dict.

(** ** Python floats

    A Python [float] is an IEEE 754 binary64 number.  [SpecFloat] of the
    standard library gives the arithmetic (round to nearest, ties to even);
    [of_decimal] is the correctly rounded conversion that both float
    literals in the source and [float(s)] perform, and [repr] is the
    shortest-digits printing of Python 3 ([str] of a float). *)

Module PyFloat.

Definition t := spec_float.

Definition prec : Z := 53.
Definition emax : Z := 1024.

Definition add (x y : t) : t := SFadd prec emax x y.
Definition ltb (x y : t) : bool := SFltb x y.

Definition same (x y : t) : bool :=
  match x, y with
  | S754_zero a, S754_zero b => Bool.eqb a b
  | S754_infinity a, S754_infinity b => Bool.eqb a b
  | S754_nan, S754_nan => true
  | S754_finite a m e, S754_finite b m' e' =>
      Bool.eqb a b && Pos.eqb m m' && Z.eqb e e'
  | _, _ => false
  end.

(** The binary64 number nearest to [(-1)^s * m * 10^e]. *)
Definition of_decimal (s : bool) (m : N) (e : Z) : t :=
  match m with
  | N0 => S754_zero s
  | Npos p =>
      match e with
      | Z0 => binary_normalize prec emax (cond_Zopp s (Zpos p)) 0 false
      | Zpos k =>
          binary_normalize prec emax
            (cond_Zopp s (Zpos p * 10 ^ Zpos k)) 0 false
      | Zneg k =>
          SFdiv prec emax (S754_finite s p 0)
            (S754_finite false (Z.to_pos (10 ^ Zpos k)) 0)
      end
  end.

End PyFloat.

(** *** Strings and [str.strip()]

    A string of the model stands for the Python string with the same
    code points: the character of code [n] is the code point [n], so the
    model has the strings whose code points are below 256.  Among these,
    [str.isspace] holds of the codes 9 to 13, 28 to 32, 133 and 160, and
    [str.strip()] removes them at both ends. *)

Module PyStr.

Definition is_space (c : ascii) : bool :=
  let n := N_of_ascii c in
  (((9 <=? n) && (n <=? 13)) || ((28 <=? n) && (n <=? 32))
   || (n =? 133) || (n =? 160))%N.

Fixpoint lstrip (l : list ascii) : list ascii :=
  match l with
  | c :: l' => if is_space c then lstrip l' else l
  | [] => []
  end.

Definition strip (l : list ascii) : list ascii :=
  rev (lstrip (rev (lstrip l))).

End PyStr.

(** *** [float(s)]

    The grammar is the one of the Python language reference:
    surrounding white space, an optional sign, then [inf], [infinity] or
    [nan] in any letter case, or a decimal number with an optional
    exponent; digits may be grouped with single underscores.

    The white space that [float()] accepts around the number is not the
    one of [str.strip()].  A string that is all ASCII is read as it is,
    and only the codes 9 to 13 and 32 are skipped at its ends.  In a
    string with a code above 127, every code from 127 on is first
    replaced: by a blank when [str.isspace] holds of it, and otherwise by
    a question mark, at which the string is cut (no code from 127 on is a
    decimal digit below 256).  The codes 28 to 31 are never skipped:
    [float] of a string that starts with one of them raises
    [ValueError]. *)

Module PyFloatParse.

Definition digit_of (c : ascii) : option N :=
  let n := N_of_ascii c in
  if ((48 <=? n) && (n <=? 57))%N then Some (n - 48)%N else None.

(** the white space of ASCII *)
Definition is_space (c : ascii) : bool :=
  let n := N_of_ascii c in
  (((9 <=? n) && (n <=? 13)) || (n =? 32))%N.

Definition is_ascii (l : list ascii) : bool :=
  forallb (fun c => (N_of_ascii c <? 128)%N) l.

(** what [float] does first to a string that is not all ASCII *)
Fixpoint transform_space (l : list ascii) : list ascii :=
  match l with
  | [] => []
  | c :: l' =>
      if (N_of_ascii c <? 127)%N then c :: transform_space l'
      else if PyStr.is_space c then " "%char :: transform_space l'
      else ["?"%char]
  end.

Definition to_ascii (l : list ascii) : list ascii :=
  if is_ascii l then l else transform_space l.

Fixpoint lstrip (l : list ascii) : list ascii :=
  match l with
  | c :: l' => if is_space c then lstrip l' else l
  | [] => []
  end.

Definition strip (l : list ascii) : list ascii :=
  rev (lstrip (rev (lstrip l))).

Definition lower (c : ascii) : ascii :=
  let n := N_of_ascii c in
  if ((65 <=? n) && (n <=? 90))%N then ascii_of_N (n + 32) else c.

(** [(["_"] digit)*]: the digits are accumulated into [acc], [cnt] counts
    them. *)
Fixpoint digits_more (acc : N) (cnt : Z) (l : list ascii)
  : N * Z * list ascii :=
  match l with
  | c :: l' =>
      match digit_of c with
      | Some d => digits_more (acc * 10 + d)%N (cnt + 1) l'
      | None =>
          if Ascii.eqb c "_" then
            match l' with
            | c2 :: l'' =>
                match digit_of c2 with
                | Some d => digits_more (acc * 10 + d)%N (cnt + 1) l''
                | None => (acc, cnt, l)
                end
            | [] => (acc, cnt, l)
            end
          else (acc, cnt, l)
      end
  | [] => (acc, cnt, [])
  end.

(** [digitpart ::= digit (["_"] digit)*] *)
Definition digitpart (acc : N) (l : list ascii)
  : option (N * Z * list ascii) :=
  match l with
  | c :: l' =>
      match digit_of c with
      | Some d => Some (digits_more (acc * 10 + d)%N 1 l')
      | None => None
      end
  | [] => None
  end.

(** [number ::= [digitpart] "." digitpart | digitpart ["."]]: the result is
    the integer made of all the digits and the number of digits after the
    point. *)
Definition number (l : list ascii) : option (N * Z * list ascii) :=
  match digitpart 0 l with
  | Some (m, _, rest) =>
      match rest with
      | "."%char :: rest' =>
          match digitpart m rest' with
          | Some r => Some r
          | None => Some (m, 0, rest')
          end
      | _ => Some (m, 0, rest)
      end
  | None =>
      match l with
      | "."%char :: rest' => digitpart 0 rest'
      | _ => None
      end
  end.

(** [exponent ::= ("e" | "E") [sign] digitpart] *)
Definition exponent (l : list ascii) : option (Z * list ascii) :=
  match l with
  | c :: l' =>
      if Ascii.eqb (lower c) "e" then
        let '(neg, l'') :=
          match l' with
          | "+"%char :: r => (false, r)
          | "-"%char :: r => (true, r)
          | _ => (false, l')
          end in
        match digitpart 0 l'' with
        | Some (v, _, rest) =>
            Some (if neg : bool then - Z.of_N v else Z.of_N v, rest)
        | None => None
        end
      else None
  | [] => None
  end.

Definition floatnumber (s : bool) (l : list ascii) : option PyFloat.t :=
  match number l with
  | Some (m, k, []) => Some (PyFloat.of_decimal s m (- k))
  | Some (m, k, rest) =>
      match exponent rest with
      | Some (e, []) => Some (PyFloat.of_decimal s m (e - k))
      | _ => None
      end
  | None => None
  end.

Definition absfloatvalue (s : bool) (l : list ascii) : option PyFloat.t :=
  let w := string_of_list_ascii (map lower l) in
  if String.eqb w "inf" || String.eqb w "infinity" then Some (S754_infinity s)
  else if String.eqb w "nan" then Some S754_nan
  else floatnumber s l.

Definition floatvalue (l : list ascii) : option PyFloat.t :=
  match l with
  | "+"%char :: r => absfloatvalue false r
  | "-"%char :: r => absfloatvalue true r
  | _ => absfloatvalue false l
  end.

(** [float(s)] for a string [s] *)
Definition float (s : string) : result PyFloat.t :=
  match floatvalue (strip (to_ascii (list_ascii_of_string s))) with
  | Some x => Ok x
  | None => Raise ValueError
  end.

End PyFloatParse.

(** *** [str(x)] for a float [x]

    Python 3 prints the shortest decimal digit string that reads back as
    the same float (the one nearest to [x] among the shortest), in
    positional notation when the decimal point position [decpt] satisfies
    [-4 < decpt <= 16] and in exponent notation otherwise. *)

Module PyFloatRepr.

(** least [j >= 1], searched from [j], with [num * 10^j >= den] *)
Fixpoint small_shift (fuel : nat) (num den : Z) (j : Z) : Z :=
  match fuel with
  | O => j
  | S fuel' =>
      if den <=? num * 10 ^ j then j else small_shift fuel' num den (j + 1)
  end.

(** position of the decimal point: [10^(decpt-1) <= num/den < 10^decpt] *)
Definition decpt_of (num den : Z) : Z :=
  if den <=? num then Z.of_nat (String.length (pretty (num / den)))
  else 1 - small_shift 400 num den 1.

(** [x = num / den] scaled so that its integer part has [n] digits *)
Definition scaled (num den decpt n : Z) : Z * Z :=
  if 0 <=? n - decpt then (num * 10 ^ (n - decpt), den)
  else (num, den * 10 ^ (decpt - n)).

(** the [n]-digit decimal to print for [x], if one reads back as [x] *)
Definition candidate (x : PyFloat.t) (num den decpt n : Z) : option Z :=
  let '(sn, sd) := scaled num den decpt n in
  let lo := sn / sd in
  let r := sn mod sd in
  let back c := PyFloat.same (PyFloat.of_decimal false (Z.to_N c) (decpt - n)) x in
  match back lo, back (lo + 1) with
  | true, true =>
      match 2 * r ?= sd with
      | Lt => Some lo
      | Gt => Some (lo + 1)
      | Eq => Some (if Z.even lo then lo else lo + 1)
      end
  | true, false => Some lo
  | false, true => Some (lo + 1)
  | false, false => None
  end.

(** try [n], [n+1], ... digits *)
Fixpoint shortest (fuel : nat) (x : PyFloat.t) (num den decpt n : Z)
  : Z * Z :=
  match fuel with
  | O => (fst (scaled num den decpt n) / snd (scaled num den decpt n), n)
  | S fuel' =>
      match candidate x num den decpt n with
      | Some c => (c, n)
      | None => shortest fuel' x num den decpt (n + 1)
      end
  end.

Fixpoint strip0 (l : list ascii) : list ascii :=
  match l with
  | "0"%char :: l' => strip0 l'
  | _ => l
  end.

Definition zeros (n : Z) : list ascii := repeat "0"%char (Z.to_nat n).

Definition exp_digits (e : Z) : string :=
  let s := pretty (Z.abs e) in
  (if e <? 0 then "-" else "+") +:+ (if Z.abs e <? 10 then "0" +:+ s else s).

(** digits and decimal point position to text *)
Definition format (ds : list ascii) (decpt : Z) : string :=
  let nd := Z.of_nat (length ds) in
  if (decpt <=? -4) || (16 <? decpt) then
    match ds with
    | [] => EmptyString
    | d :: rest =>
        string_of_list_ascii
          (d :: match rest with [] => [] | _ => "."%char :: rest end)
        +:+ "e" +:+ exp_digits (decpt - 1)
    end
  else if decpt <=? 0 then
    string_of_list_ascii ("0"%char :: "."%char :: zeros (- decpt) ++ ds)
  else if nd <=? decpt then
    string_of_list_ascii (ds ++ zeros (decpt - nd) ++ ["."%char; "0"%char])
  else
    string_of_list_ascii
      (take (Z.to_nat decpt) ds ++ "."%char :: drop (Z.to_nat decpt) ds).

Definition repr_pos (m : positive) (e : Z) : string :=
  let x := S754_finite false m e in
  let '(num, den) :=
    if 0 <=? e then (Zpos m * 2 ^ e, 1) else (Zpos m, 2 ^ (- e)) in
  let decpt := decpt_of num den in
  let '(c, n) := shortest 17 x num den decpt 1 in
  let all := list_ascii_of_string (pretty c) in
  let decpt' := decpt + (Z.of_nat (length all) - n) in
  format (rev (strip0 (rev all))) decpt'.

Definition repr (x : PyFloat.t) : string :=
  match x with
  | S754_nan => "nan"
  | S754_infinity s => if s then "-inf" else "inf"
  | S754_zero s => if s then "-0.0" else "0.0"
  | S754_finite s m e => (if s then "-" else EmptyString) +:+ repr_pos m e
  end.

End PyFloatRepr.

(** [float(s)], [str(x)] and float literals, as the class uses them *)
Definition float (s : string) : result PyFloat.t := PyFloatParse.float s.
Definition str (x : PyFloat.t) : string := PyFloatRepr.repr x.

Arguments float : simpl never.
Arguments str : simpl never.
Arguments PyFloat.add : simpl never.
Arguments PyFloat.ltb : simpl never.

(** ** Strings as the serializer builds them *)

Definition nl : string := String "010"%char EmptyString.
Definition dquote : string := String "034"%char EmptyString.

(** [n * s] *)
Fixpoint str_repeat (n : nat) (s : string) : string :=
  match n with
  | O => EmptyString
  | S n' => s +:+ str_repeat n' s
  end.

(** [sep.join(l)] *)
Definition join (sep : string) (l : list string) : string :=
  String.concat sep l.

(** ["%d" % z] *)
Definition fmt_d (z : Z) : string := pretty z.

(** ** The objects of a graph

    Nodes and links are Python dictionaries that the class hands out to its
    caller and keeps in its lists at the same time, so they are modelled as
    objects in a store and named by references.  Every node dictionary is
    appended to [__nodes] when it is made and never removed, so [__nodes]
    itself is the store of the nodes and a node reference is a position in
    it.  Link dictionaries are made by [__link_new] whether or not they end
    up in [__links]; [link_objs] holds all of them and [links] is the list
    [__links] of references.

    The class compares node dictionaries with [==].  Two node dictionaries
    of one graph differ in ['id'] unless they are the same object, so [==]
    on them is equality of references. *)

Abbreviation node_ref := nat (only parsing).
Abbreviation link_ref := nat (only parsing).

Record node := {
  node_id : Z;
  node_parent : option node_ref;
  node_style : option string;
  node_properties : Dict.t string
}.

Record link := {
  from_node : node_ref;
  to_node : node_ref;
  link_style : option string;
  link_properties : Dict.t string;
  cl_from_node : option node_ref;
  cl_to_node : option node_ref
}.

(** what [propertyAppend] and friends accept: a node or a link *)
Inductive entity : Type :=
  | ENode (r : node_ref)
  | ELink (r : link_ref).

(** what [newItem] returns: the node, or [-1] *)
Inductive item : Type :=
  | Node (r : node_ref)
  | DUPLICATE.

Record gvgen := {
  max_line_width : PyFloat.t;
  max_arrow_width : PyFloat.t;
  line_factor : PyFloat.t;
  arrow_factor : PyFloat.t;
  initial_line_width : PyFloat.t;
  initial_arrow_width : PyFloat.t;
  options : Dict.t string;
  id_counter : Z;                               (* [__id] *)
  nodes : list node;                            (* [__nodes] *)
  link_objs : list link;
  links : list link_ref;                        (* [__links] *)
  padding_str : string;
  styles : Dict.t (list (string * string));     (* [__styles] *)
  default_style : list (string * string);       (* [__default_style] *)
  smart_mode : bool;
  legend : option node_ref
}.

Definition set_nodes (g : gvgen) (id : Z) (ns : list node) : gvgen :=
  {| max_line_width := max_line_width g; max_arrow_width := max_arrow_width g;
     line_factor := line_factor g; arrow_factor := arrow_factor g;
     initial_line_width := initial_line_width g;
     initial_arrow_width := initial_arrow_width g;
     options := options g; id_counter := id; nodes := ns;
     link_objs := link_objs g; links := links g;
     padding_str := padding_str g; styles := styles g;
     default_style := default_style g; smart_mode := smart_mode g;
     legend := legend g |}.

Definition set_link_objs (g : gvgen) (ls : list link) : gvgen :=
  {| max_line_width := max_line_width g; max_arrow_width := max_arrow_width g;
     line_factor := line_factor g; arrow_factor := arrow_factor g;
     initial_line_width := initial_line_width g;
     initial_arrow_width := initial_arrow_width g;
     options := options g; id_counter := id_counter g; nodes := nodes g;
     link_objs := ls; links := links g;
     padding_str := padding_str g; styles := styles g;
     default_style := default_style g; smart_mode := smart_mode g;
     legend := legend g |}.

Definition set_links (g : gvgen) (rs : list link_ref) : gvgen :=
  {| max_line_width := max_line_width g; max_arrow_width := max_arrow_width g;
     line_factor := line_factor g; arrow_factor := arrow_factor g;
     initial_line_width := initial_line_width g;
     initial_arrow_width := initial_arrow_width g;
     options := options g; id_counter := id_counter g; nodes := nodes g;
     link_objs := link_objs g; links := rs;
     padding_str := padding_str g; styles := styles g;
     default_style := default_style g; smart_mode := smart_mode g;
     legend := legend g |}.

Definition set_styles (g : gvgen) (st : Dict.t (list (string * string)))
    (dst : list (string * string)) : gvgen :=
  {| max_line_width := max_line_width g; max_arrow_width := max_arrow_width g;
     line_factor := line_factor g; arrow_factor := arrow_factor g;
     initial_line_width := initial_line_width g;
     initial_arrow_width := initial_arrow_width g;
     options := options g; id_counter := id_counter g; nodes := nodes g;
     link_objs := link_objs g; links := links g;
     padding_str := padding_str g; styles := st;
     default_style := dst; smart_mode := smart_mode g;
     legend := legend g |}.

Definition set_smart_mode (g : gvgen) (b : bool) : gvgen :=
  {| max_line_width := max_line_width g; max_arrow_width := max_arrow_width g;
     line_factor := line_factor g; arrow_factor := arrow_factor g;
     initial_line_width := initial_line_width g;
     initial_arrow_width := initial_arrow_width g;
     options := options g; id_counter := id_counter g; nodes := nodes g;
     link_objs := link_objs g; links := links g;
     padding_str := padding_str g; styles := styles g;
     default_style := default_style g; smart_mode := b;
     legend := legend g |}.

Definition set_legend (g : gvgen) (r : option node_ref) : gvgen :=
  {| max_line_width := max_line_width g; max_arrow_width := max_arrow_width g;
     line_factor := line_factor g; arrow_factor := arrow_factor g;
     initial_line_width := initial_line_width g;
     initial_arrow_width := initial_arrow_width g;
     options := options g; id_counter := id_counter g; nodes := nodes g;
     link_objs := link_objs g; links := links g;
     padding_str := padding_str g; styles := styles g;
     default_style := default_style g; smart_mode := smart_mode g;
     legend := r |}.

Definition set_node_properties (n : node) (d : Dict.t string) : node :=
  {| node_id := node_id n; node_parent := node_parent n;
     node_style := node_style n; node_properties := d |}.

Definition set_node_style (n : node) (s : option string) : node :=
  {| node_id := node_id n; node_parent := node_parent n;
     node_style := s; node_properties := node_properties n |}.

Definition set_link_properties (l : link) (d : Dict.t string) : link :=
  {| from_node := from_node l; to_node := to_node l;
     link_style := link_style l; link_properties := d;
     cl_from_node := cl_from_node l; cl_to_node := cl_to_node l |}.

Definition set_link_style (l : link) (s : option string) : link :=
  {| from_node := from_node l; to_node := to_node l;
     link_style := s; link_properties := link_properties l;
     cl_from_node := cl_from_node l; cl_to_node := cl_to_node l |}.

(** dereferencing; a reference that names no object stands for a value
    that is not a dictionary, and subscripting it raises [TypeError] *)
Definition get_node (g : gvgen) (r : node_ref) : result node :=
  match nodes g !! r with
  | Some n => Ok n
  | None => Raise TypeError
  end.

Definition get_link (g : gvgen) (r : link_ref) : result link :=
  match link_objs g !! r with
  | Some l => Ok l
  | None => Raise TypeError
  end.

(** truth value of an optional string ([None] and the empty string are
    false) *)
Definition truthy (s : option string) : option string :=
  match s with
  | Some EmptyString => None
  | Some s' => Some s'
  | None => None
  end.

(** ** Construction *)

(** [s.split(sep)] for a one-character separator *)
Fixpoint split_on (sep : ascii) (cur : list ascii) (l : list ascii)
  : list string :=
  match l with
  | [] => [string_of_list_ascii (rev cur)]
  | c :: l' =>
      if Ascii.eqb c sep then
        string_of_list_ascii (rev cur) :: split_on sep [] l'
      else split_on sep (c :: cur) l'
  end.

(** [s.split(sep, 1)] when [sep] occurs in [s] *)
Fixpoint split_once (sep : ascii) (cur : list ascii) (l : list ascii)
  : option (string * string) :=
  match l with
  | [] => None
  | c :: l' =>
      if Ascii.eqb c sep then
        Some (string_of_list_ascii (rev cur), string_of_list_ascii l')
      else split_once sep (c :: cur) l'
  end.

(** the body of [setOptions] for one keyword argument *)
Definition setOptions (opts : Dict.t string) (key value : string)
  : Dict.t string :=
  Dict.set opts key value.

(** the call of [setOptions] in [__init__], which unpacks the dictionary
    [{key: value}] into keyword arguments: the key is bound as a keyword
    argument.  Every string is accepted as the name of
    a keyword argument except [self], the name of the first parameter,
    which the method call has bound already: the call then raises
    [TypeError] and the body does not run. *)
Definition call_setOptions (opts : Dict.t string) (key value : string)
  : result (Dict.t string) :=
  if String.eqb key "self" then Raise TypeError
  else Ok (setOptions opts key value).

(** the loop of [__init__] over [options.split(";")] *)
Fixpoint parse_options (opts : Dict.t string) (parts : list string)
  : result (Dict.t string) :=
  match parts with
  | [] => Ok opts
  | option :: parts' =>
      match PyStr.strip (list_ascii_of_string option) with
      | [] => parse_options opts parts'
      | o =>
          match split_once "="%char [] o with
          | Some (key, value) =>
              match call_setOptions opts key value with
              | Ok opts' => parse_options opts' parts'
              | Raise e => Raise e
              end
          | None => Raise ValueError
          end
      end
  end.

Definition f_lit (m : N) (e : Z) : PyFloat.t := PyFloat.of_decimal false m e.

Arguments f_lit : simpl never.
Arguments PyFloat.of_decimal : simpl never.

(** the graph of [__init__] before the legend is made *)
Definition empty_graph (opts : Dict.t string) : gvgen :=
  {| max_line_width := f_lit 10 0;
     max_arrow_width := f_lit 2 0;
     line_factor := f_lit 1 0;
     arrow_factor := f_lit 5 (-1);
     initial_line_width := f_lit 12 (-1);
     initial_arrow_width := f_lit 8 (-1);
     options := opts;
     id_counter := 0;
     nodes := [];
     link_objs := [];
     links := [];
     padding_str := "   ";
     styles := [];
     default_style := [];
     smart_mode := false;
     legend := None |}.

(** ** Nodes *)

(** the scan [for e in self.__nodes] of [__node_new] *)
Fixpoint label_taken (l : list node) (name : string) : result bool :=
  match l with
  | [] => Ok false
  | e :: l' =>
      lbl <- Dict.getitem (node_properties e) "label" ;;
      if String.eqb lbl name then Ok true else label_taken l' name
  end.

Definition node_new (g : gvgen) (name : string) (parent : option node_ref)
    (distinct : bool) : result (item * gvgen) :=
  dup <- (if distinct then label_taken (nodes g) name else Ok false) ;;
  if dup : bool then Ok (DUPLICATE, g)
  else
    let id := id_counter g + 1 in
    let n := {| node_id := id; node_parent := parent; node_style := None;
                node_properties := [("label", name)] |} in
    Ok (Node (length (nodes g)), set_nodes g id (nodes g ++ [n])).

Definition newItem (g : gvgen) (name : string) (parent : option node_ref)
    (distinct : bool) : result (item * gvgen) :=
  node_new g name parent distinct.

(** [__init__(legend_name, options)] *)
Definition init (legend_name : option string) (opts : string)
  : result gvgen :=
  o <- parse_options [] (split_on ";"%char [] (list_ascii_of_string opts)) ;;
  let g := empty_graph o in
  match truthy legend_name with
  | Some name =>
      r <- newItem g name None false ;;
      match fst r with
      | Node n => Ok (set_legend (snd r) (Some n))
      | DUPLICATE => Ok (snd r)
      end
  | None => Ok g
  end.

(** [__has_children]: the nodes whose parent is [parent], in the order of
    [__nodes]; [i] is the position of the head of [l] in [__nodes] *)
Fixpoint children_from (i : nat) (l : list node) (parent : node_ref)
  : list node_ref :=
  match l with
  | [] => []
  | e :: l' =>
      if decide (node_parent e = Some parent)
      then i :: children_from (S i) l' parent
      else children_from (S i) l' parent
  end.

Definition has_children (g : gvgen) (parent : node_ref) : list node_ref :=
  children_from 0 (nodes g) parent.

(** ** Properties and styles *)

Definition properties_of (g : gvgen) (e : entity) : result (Dict.t string) :=
  match e with
  | ENode r => n <- get_node g r ;; Ok (node_properties n)
  | ELink r => l <- get_link g r ;; Ok (link_properties l)
  end.

(** the assignment through the shared dictionary [props] *)
Definition store_properties (g : gvgen) (e : entity) (d : Dict.t string)
  : gvgen :=
  match e with
  | ENode r =>
      match nodes g !! r with
      | Some n =>
          set_nodes g (id_counter g) (<[r := set_node_properties n d]> (nodes g))
      | None => g
      end
  | ELink r =>
      match link_objs g !! r with
      | Some l => set_link_objs g (<[r := set_link_properties l d]> (link_objs g))
      | None => g
      end
  end.

Definition propertyAppend (g : gvgen) (node_or_link : entity)
    (key val : string) : result gvgen :=
  props <- properties_of g node_or_link ;;
  Ok (store_properties g node_or_link (Dict.set props key val)).

(** [node_or_link] may be [None] here: [__link_smart] passes what
    [__link_exists] returned *)
Definition propertyGet (g : gvgen) (node_or_link : option entity)
    (key : string) : option string :=
  try_except
    (e <- match node_or_link with
          | Some e => Ok e
          | None => Raise TypeError
          end ;;
     props <- properties_of g e ;;
     v <- Dict.getitem props key ;;
     Ok (Some v))
    None.

Definition propertyRemove (g : gvgen) (node_or_link : entity) (key : string)
  : result gvgen :=
  props <- properties_of g node_or_link ;;
  d <- Dict.delitem props key ;;
  Ok (store_properties g node_or_link d).

Definition styleAppend (g : gvgen) (stylename key val : string) : gvgen :=
  let old :=
    match Dict.get (styles g) stylename with
    | Some l => l
    | None => []
    end in
  set_styles g (Dict.set (styles g) stylename (old ++ [(key, val)]))
    (default_style g).

Definition styleApply (g : gvgen) (stylename : string) (node_or_link : entity)
  : result gvgen :=
  match node_or_link with
  | ENode r =>
      n <- get_node g r ;;
      Ok (set_nodes g (id_counter g)
            (<[r := set_node_style n (Some stylename)]> (nodes g)))
  | ELink r =>
      l <- get_link g r ;;
      Ok (set_link_objs g (<[r := set_link_style l (Some stylename)]> (link_objs g)))
  end.

Definition styleDefaultAppend (g : gvgen) (key val : string) : gvgen :=
  set_styles g (styles g) (default_style g ++ [(key, val)]).

(** ** Links *)

(** [__link_exists]: the first link of [__links] with these end points *)
Fixpoint find_link (objs : list link) (rs : list link_ref)
    (from_node0 to_node0 : node_ref) : option link_ref :=
  match rs with
  | [] => None
  | r :: rs' =>
      match objs !! r with
      | Some l =>
          if decide (from_node l = from_node0 ∧ to_node l = to_node0)
          then Some r
          else find_link objs rs' from_node0 to_node0
      | None => find_link objs rs' from_node0 to_node0
      end
  end.

Definition link_exists (g : gvgen) (from_node0 to_node0 : node_ref)
  : option link_ref :=
  find_link (link_objs g) (links g) from_node0 to_node0.

(** [list.remove(x)]: drop the first occurrence.  [__link_smart] removes
    what [__link_exists] has just found, which is the first link of the
    list that is equal to it. *)
Fixpoint list_remove (x : link_ref) (l : list link_ref) : list link_ref :=
  match l with
  | [] => []
  | y :: l' => if decide (y = x) then l' else y :: list_remove x l'
  end.

(** the two symmetric blocks of [__link_smart] for [penwidth] and
    [arrowsize] differ in where the bound is tested *)
Definition smart_penwidth (g : gvgen) (link : link_ref)
    (linkfrom : option link_ref) : result gvgen :=
  match truthy (propertyGet g (ELink <$> linkfrom) "penwidth") with
  | Some pw =>
      pw <- float pw ;;
      let pw := PyFloat.add pw (line_factor g) in
      if PyFloat.ltb pw (max_line_width g) then
        match linkfrom with
        | Some lf => propertyAppend g (ELink lf) "penwidth" (str pw)
        | None => Raise TypeError
        end
      else Ok g
  | None => propertyAppend g (ELink link) "penwidth" (str (initial_line_width g))
  end.

Definition smart_arrowsize (g : gvgen) (link : link_ref)
    (linkfrom : option link_ref) : result gvgen :=
  match truthy (propertyGet g (ELink <$> linkfrom) "arrowsize") with
  | Some aw =>
      aw <- float aw ;;
      if PyFloat.ltb aw (max_arrow_width g) then
        let aw := PyFloat.add aw (arrow_factor g) in
        match linkfrom with
        | Some lf => propertyAppend g (ELink lf) "arrowsize" (str aw)
        | None => Raise TypeError
        end
      else Ok g
  | None => propertyAppend g (ELink link) "arrowsize" (str (initial_arrow_width g))
  end.

Definition link_smart (g : gvgen) (link : link_ref) : result gvgen :=
  l <- get_link g link ;;
  let linkfrom := link_exists g (from_node l) (to_node l) in
  let linkto := link_exists g (to_node l) (from_node l) in
  g <- (if smart_mode g then
          g <- match linkto with
               | Some lt =>
                   propertyAppend (set_links g (list_remove lt (links g)))
                     (ELink link) "dir" "both"
               | None => Ok g
               end ;;
          g <- smart_penwidth g link linkfrom ;;
          smart_arrowsize g link linkfrom
        else Ok g) ;;
  match linkfrom with
  | None => Ok (set_links g (links g ++ [link]))
  | Some _ => Ok g
  end.

Definition link_new (g : gvgen) (from_node0 to_node0 : node_ref)
    (label : option string) (cl_from_node0 cl_to_node0 : option node_ref)
  : result (link_ref * gvgen) :=
  let l := {| from_node := from_node0; to_node := to_node0;
              link_style := None;
              link_properties :=
                match truthy label with
                | Some s => [("label", s)]
                | None => []
                end;
              cl_from_node := cl_from_node0;
              cl_to_node := cl_to_node0 |} in
  let link := length (link_objs g) in
  g <- link_smart (set_link_objs g (link_objs g ++ [l])) link ;;
  Ok (link, g).

Definition newLink (g : gvgen) (src dst : node_ref) (label : option string)
    (cl_src cl_dst : option node_ref) : result (link_ref * gvgen) :=
  link_new g src dst label cl_src cl_dst.

(** the loop of [propertyForeachLinksAppend] over [__links] *)
Fixpoint foreach_links_append (objs : list link) (rs : list link_ref)
    (node0 : node_ref) (key val : string) : result (list link) :=
  match rs with
  | [] => Ok objs
  | r :: rs' =>
      match objs !! r with
      | Some l =>
          if decide (from_node l = node0) then
            foreach_links_append
              (<[r := set_link_properties l (Dict.set (link_properties l) key val)]> objs)
              rs' node0 key val
          else foreach_links_append objs rs' node0 key val
      | None => Raise TypeError
      end
  end.

Definition propertyForeachLinksAppend (g : gvgen) (node0 : node_ref)
    (key val : string) : result gvgen :=
  objs <- foreach_links_append (link_objs g) (links g) node0 key val ;;
  Ok (set_link_objs g objs).

(** ** Serialization *)

Definition gvgen_version : string := "0.9.3".

(** ['%s="%s"' % (k, v)] *)
Definition fmt_attr (kv : string * string) : string :=
  fst kv +:+ "=" +:+ dquote +:+ snd kv +:+ dquote.

(** [self.__styles[stylename]] when the entity has a style (a style name
    that is [None] or empty counts as no style) *)
Definition style_pairs (g : gvgen) (style : option string)
  : result (list (string * string)) :=
  match truthy style with
  | Some stylename => Dict.getitem (styles g) stylename
  | None => Ok []
  end.

(** the dictionary [allProps] that [propertiesAsStringGet] builds *)
Definition node_allProps (g : gvgen) (n : node) (props : Dict.t string)
  : result (Dict.t string) :=
  let allProps := Dict.update [] (default_style g) in
  st <- style_pairs g (node_style n) ;;
  let allProps := Dict.update allProps st in
  Ok (Dict.update allProps props).

Definition propertiesAsStringGet (g : gvgen) (node0 : node_ref)
    (props : Dict.t string) (level : nat) : result string :=
  n <- get_node g node0 ;;
  allProps <- node_allProps g n props ;;
  match has_children g node0 with
  | _ :: _ =>
      Ok (join EmptyString
            (map (fun kv => str_repeat level (padding_str g) +:+ fmt_attr kv
                            +:+ ";" +:+ nl) allProps))
  | [] =>
      match props with
      | _ :: _ => Ok ("[" +:+ join "," (map fmt_attr allProps) +:+ "]")
      | [] => Ok EmptyString
      end
  end.

(** the dictionary [props] that [propertiesLinkAsStringGet] builds *)
Definition link_allProps (g : gvgen) (l : link) : result (Dict.t string) :=
  st <- style_pairs g (link_style l) ;;
  let props := Dict.update [] st in
  Ok (Dict.update props (link_properties l)).

Definition propertiesLinkAsStringGet (g : gvgen) (l : link) : result string :=
  props <- link_allProps g l ;;
  match props with
  | _ :: _ => Ok (join "," (map fmt_attr props))
  | [] => Ok EmptyString
  end.

(** [src] and [cluster_src] (or [dst] and [cluster_dst]) of [dotLinks]:
    [cluster] is [None] where the source has the empty string *)
Definition endpoint (g : gvgen) (end0 : node_ref) (cl : option node_ref)
  : result (Z * option Z) :=
  match has_children g end0 with
  | first :: _ =>
      src <- match cl with
             | Some c => n <- get_node g c ;; Ok (node_id n)
             | None => n <- get_node g first ;; Ok (node_id n)
             end ;;
      n <- get_node g end0 ;;
      Ok (src, Some (node_id n))
  | [] =>
      n <- get_node g end0 ;;
      Ok (node_id n, None)
  end.

(** [if props: props += ','] followed by [props += attr] *)
Definition add_attr (props attr : string) : string :=
  match props with
  | EmptyString => attr
  | _ => props +:+ "," +:+ attr
  end.

(** [if cluster: ...] for a cluster that is an integer or the empty
    string *)
Definition cluster_attr (props name : string) (cluster : option Z) : string :=
  match cluster with
  | Some c => if decide (c = 0) then props else add_attr props (name +:+ fmt_d c)
  | None => props
  end.

(** what the body of the loop of [dotLinks] writes for the link [l] *)
Definition dotLink (g : gvgen) (l : link) : result string :=
  s <- endpoint g (from_node l) (cl_from_node l) ;;
  d <- endpoint g (to_node l) (cl_to_node l) ;;
  let head :=
    padding_str g +:+ "node" +:+ fmt_d (fst s) +:+ "->node" +:+ fmt_d (fst d) in
  props <- propertiesLinkAsStringGet g l ;;
  let props := cluster_attr props "ltail=cluster" (snd s) in
  let props := cluster_attr props "lhead=cluster" (snd d) in
  let attrs :=
    match props with
    | EmptyString => EmptyString
    | _ => " [" +:+ props +:+ "]"
    end in
  Ok (head +:+ attrs +:+ ";" +:+ nl).

Fixpoint dotLinks_loop (g : gvgen) (rs : list link_ref) (node0 : node_ref)
  : result string :=
  match rs with
  | [] => Ok EmptyString
  | r :: rs' =>
      l <- get_link g r ;;
      out <- (if decide (from_node l = node0) then dotLink g l
              else Ok EmptyString) ;;
      rest <- dotLinks_loop g rs' node0 ;;
      Ok (out +:+ rest)
  end.

Definition dotLinks (g : gvgen) (node0 : node_ref) : result string :=
  dotLinks_loop g (links g) node0.

(** [trace]; [fuel] bounds the depth of the recursion *)
Fixpoint trace (fuel : nat) (g : gvgen) (node0 : node_ref) (level : nat)
  : result string :=
  match fuel with
  | O => Raise RecursionError
  | S fuel' =>
      n <- get_node g node0 ;;
      match has_children g node0 with
      | (_ :: _) as children =>
          props <- propertiesAsStringGet g node0 (node_properties n) (level + 1) ;;
          body <- fold_left
                    (fun acc child =>
                       out <- acc ;;
                       t <- trace fuel' g child (level + 1) ;;
                       Ok (out +:+ t))
                    children (Ok EmptyString) ;;
          Ok (nl +:+ str_repeat level (padding_str g) +:+ "subgraph cluster"
              +:+ fmt_d (node_id n) +:+ " {" +:+ nl
              +:+ props +:+ body
              +:+ str_repeat level (padding_str g) +:+ "}" +:+ nl +:+ nl)
      | [] =>
          props <- propertiesAsStringGet g node0 (node_properties n) level ;;
          Ok (str_repeat level (padding_str g) +:+ "node" +:+ fmt_d (node_id n)
              +:+ " " +:+ props +:+ ";" +:+ nl)
      end
  end.

(** the text that [dot] writes to [fd] *)
Definition dot (g : gvgen) : result string :=
  let header :=
    "/* Generated by GvGen v." +:+ gvgen_version
    +:+ " (http://www.picviz.com/sections/opensource/gvgen.html) */"
    +:+ nl +:+ nl +:+ "digraph G {" +:+ nl in
  let opts :=
    join EmptyString
      (map (fun kv => padding_str g +:+ fst kv +:+ "=" +:+ snd kv +:+ ";" +:+ nl)
           (options g)) in
  roots <- fold_left
             (fun acc r =>
                out <- acc ;;
                match nodes g !! r with
                | Some e =>
                    match node_parent e with
                    | None =>
                        t <- trace (S (length (nodes g))) g r 1 ;;
                        Ok (out +:+ t)
                    | Some _ => Ok out
                    end
                | None => Ok out
                end)
             (seq 0 (length (nodes g))) (Ok EmptyString) ;;
  edges <- fold_left
             (fun acc r =>
                out <- acc ;;
                t <- dotLinks g r ;;
                Ok (out +:+ t))
             (seq 0 (length (nodes g))) (Ok EmptyString) ;;
  Ok (header +:+ opts +:+ roots +:+ edges +:+ "}").

(** ** Sequences of calls

    A caller drives a graph through its public methods.  [call] lists them;
    [exec] performs one and [run] a sequence, stopping at the first
    exception.  The references a caller passes are objects it got from
    earlier calls; [call_ok] says so. *)

Inductive call : Type :=
  | NewItem (name : string) (parent : option node_ref) (distinct : bool)
  | NewLink (src dst : node_ref) (label : option string)
      (cl_src cl_dst : option node_ref)
  | StyleAppend (stylename key val : string)
  | StyleApply (stylename : string) (node_or_link : entity)
  | StyleDefaultAppend (key val : string)
  | PropertyAppend (node_or_link : entity) (key val : string)
  | PropertyRemove (node_or_link : entity) (key : string)
  | PropertyForeachLinksAppend (node0 : node_ref) (key val : string)
  | SmartMode (b : bool).

Definition exec (g : gvgen) (c : call) : result gvgen :=
  match c with
  | NewItem name parent distinct =>
      r <- newItem g name parent distinct ;; Ok (snd r)
  | NewLink src dst label cl_src cl_dst =>
      r <- newLink g src dst label cl_src cl_dst ;; Ok (snd r)
  | StyleAppend stylename key val => Ok (styleAppend g stylename key val)
  | StyleApply stylename e => styleApply g stylename e
  | StyleDefaultAppend key val => Ok (styleDefaultAppend g key val)
  | PropertyAppend e key val => propertyAppend g e key val
  | PropertyRemove e key => propertyRemove g e key
  | PropertyForeachLinksAppend n key val =>
      propertyForeachLinksAppend g n key val
  | SmartMode b => Ok (set_smart_mode g b)
  end.

Definition node_ok (g : gvgen) (r : node_ref) : bool :=
  bool_decide (r < length (nodes g))%nat.

Definition opt_node_ok (g : gvgen) (o : option node_ref) : bool :=
  match o with
  | Some r => node_ok g r
  | None => true
  end.

Definition entity_ok (g : gvgen) (e : entity) : bool :=
  match e with
  | ENode r => node_ok g r
  | ELink r => bool_decide (r < length (link_objs g))%nat
  end.

Definition call_ok (g : gvgen) (c : call) : bool :=
  match c with
  | NewItem _ parent _ => opt_node_ok g parent
  | NewLink src dst _ cl_src cl_dst =>
      node_ok g src && node_ok g dst && opt_node_ok g cl_src
      && opt_node_ok g cl_dst
  | StyleApply _ e | PropertyAppend e _ _ | PropertyRemove e _ => entity_ok g e
  | PropertyForeachLinksAppend n _ _ => node_ok g n
  | StyleAppend _ _ _ | StyleDefaultAppend _ _ | SmartMode _ => true
  end.

Fixpoint run (g : gvgen) (cs : list call) : result gvgen :=
  match cs with
  | [] => Ok g
  | c :: cs' =>
      if call_ok g c then g' <- exec g c ;; run g' cs'
      else Raise TypeError
  end.

(** a sequence of [createNode] calls whose caller catches exceptions (a
    call that raises has not changed the graph); the result lists the ids
    of the nodes that were made *)
Fixpoint createNodes (g : gvgen)
    (calls : list (string * option node_ref * bool)) : list Z * gvgen :=
  match calls with
  | [] => ([], g)
  | (name, parent, distinct) :: rest =>
      match newItem g name parent distinct with
      | Ok (Node r, g') =>
          let id := match nodes g' !! r with
                    | Some n => node_id n
                    | None => 0
                    end in
          (id :: fst (createNodes g' rest), snd (createNodes g' rest))
      | Ok (DUPLICATE, g') => createNodes g' rest
      | Raise _ => createNodes g rest
      end
  end.

(** ** Well-formed graphs

    What every graph built by [init] and calls of the interface satisfies:
    ids count the nodes, and the references held in [__links] and in the
    link dictionaries name objects of the graph.  At most one stored link
    joins an ordered pair of nodes. *)

(** the part of a link dictionary that no method changes *)
Definition ends (l : link) : node_ref * node_ref * option node_ref * option node_ref :=
  (from_node l, to_node l, cl_from_node l, cl_to_node l).

Record wf (g : gvgen) : Prop := {
  wf_counter : id_counter g = Z.of_nat (length (nodes g));
  wf_ids : forall i n, nodes g !! i = Some n -> node_id n = Z.of_nat i + 1;
  wf_links : forall r, r ∈ links g -> (r < length (link_objs g))%nat;
  wf_nodup : NoDup (links g);
  wf_ends : forall r l, link_objs g !! r = Some l ->
      (from_node l < length (nodes g))%nat /\
      (to_node l < length (nodes g))%nat /\
      opt_node_ok g (cl_from_node l) = true /\
      opt_node_ok g (cl_to_node l) = true;
  wf_unique : forall r1 r2 l1 l2,
      r1 ∈ links g -> r2 ∈ links g ->
      link_objs g !! r1 = Some l1 -> link_objs g !! r2 = Some l2 ->
      from_node l1 = from_node l2 -> to_node l1 = to_node l2 -> r1 = r2
}.

(** what [wf] depends on: no method other than [newItem] and [newLink]
    changes it, apart from the removal of a stored link in smart mode *)
Definition shape (g : gvgen) :=
  (id_counter g, map node_id (nodes g), map ends (link_objs g), links g).

(** a graph without its links: what is left is what the links methods
    never change *)
Definition frame (g : gvgen) : gvgen := set_links (set_link_objs g []) [].

(** [g'] is [g] with other properties or styles on some link
    dictionaries *)
Definition relinked (g g' : gvgen) : Prop :=
  frame g' = frame g /\ links g' = links g /\
  map ends (link_objs g') = map ends (link_objs g).

(** [__links] after [__link_smart] has handled the link [link], whose
    dictionary is [l] *)
Definition smart_links (g : gvgen) (l : link) (link : link_ref)
  : list link_ref :=
  (if smart_mode g then
     match link_exists g (to_node l) (from_node l) with
     | Some lt => list_remove lt (links g)
     | None => links g
     end
   else links g)
  ++ match link_exists g (from_node l) (to_node l) with
     | None => [link]
     | Some _ => []
     end.

(** ** What smart mode is meant to do to the properties

    [first_props] are the properties of a link that is stored in smart
    mode: [dir=both] when it absorbs the reverse link, and the initial pen
    width and arrow size.  [thicker] are the properties of a stored link
    after one more request for it, when its pen width reads [x] and its
    arrow size reads [y]. *)

Definition first_props (g : gvgen) (base : Dict.t string) (reversed : bool)
  : Dict.t string :=
  Dict.set
    (Dict.set (if reversed then Dict.set base "dir" "both" else base)
       "penwidth" (str (initial_line_width g)))
    "arrowsize" (str (initial_arrow_width g)).

Definition thicker (g : gvgen) (props : Dict.t string) (x y : PyFloat.t)
  : Dict.t string :=
  let p :=
    if PyFloat.ltb (PyFloat.add x (line_factor g)) (max_line_width g)
    then Dict.set props "penwidth" (str (PyFloat.add x (line_factor g)))
    else props in
  if PyFloat.ltb y (max_arrow_width g)
  then Dict.set p "arrowsize" (str (PyFloat.add y (arrow_factor g)))
  else p.

(** the dictionary that [__link_new] builds *)
Definition new_link (a b : node_ref) (label : option string)
    (cf ct : option node_ref) : link :=
  {| from_node := a; to_node := b; link_style := None;
     link_properties := match truthy label with
                        | Some s => [("label", s)]
                        | None => []
                        end;
     cl_from_node := cf; cl_to_node := ct |}.

(** the widths that [__init__] sets *)
Definition line_defaults (g : gvgen) : Prop :=
  line_factor g = f_lit 1 0 /\ initial_line_width g = f_lit 12 (-1) /\
  max_line_width g = f_lit 10 0.

Definition arrow_defaults (g : gvgen) : Prop :=
  arrow_factor g = f_lit 5 (-1) /\ initial_arrow_width g = f_lit 8 (-1) /\
  max_arrow_width g = f_lit 2 0.

(** the stored links from [a] to [b] *)
Definition joins (objs : list link) (a b : node_ref) (r : link_ref) : bool :=
  match objs !! r with
  | Some l => bool_decide (from_node l = a /\ to_node l = b)
  | None => false
  end.

Definition links_between (g : gvgen) (a b : node_ref) : list link_ref :=
  List.filter (joins (link_objs g) a b) (links g).

(** ** Layers of attributes

    A style is a list of pairs in which a later pair with the same key
    wins; [layer_get] reads such a list.  [layered] is the precedence rule
    for the effective attributes: explicit properties, then the pairs of
    the style, then the pairs below. *)

Fixpoint layer_get (pairs : list (string * string)) (k : string)
  : option string :=
  match pairs with
  | [] => None
  | (k', v) :: rest =>
      match layer_get rest k with
      | Some v' => Some v'
      | None => if String.eqb k' k then Some v else None
      end
  end.

Definition first_some (a b : option string) : option string :=
  match a with
  | Some v => Some v
  | None => b
  end.

Definition layered (below style explicit : list (string * string))
    (k : string) : option string :=
  first_some (Dict.get explicit k)
    (first_some (layer_get style k) (layer_get below k)).


(** ** The edge statement, as the specification describes it

    [anchor] is the node whose id an end of a rendered edge shows: the
    override if the end is a cluster and an override is set, else the first
    child of the cluster, else the end itself.  [cluster_attr_of] is the
    extra attribute of an end that is a cluster.  [edge_statement] lays
    out the statement from the two ids and the list of attributes. *)



(** ** Example graphs

    Small graphs built through the interface, used to run the methods on
    concrete inputs. *)

Definition graph_of (r : result gvgen) : gvgen :=
  match r with
  | Ok g => g
  | Raise _ => empty_graph []
  end.

(** default style [color=blue], style [s] with [color=red] and [shape=box]
    applied to node 0, which also carries the explicit [color=green];
    node 1 is plain, and one link goes from node 0 to node 1 *)
Definition styled_graph : gvgen :=
  graph_of
    (g <- init None "compound=true;" ;;
     run g [StyleDefaultAppend "color" "blue";
            StyleAppend "s" "color" "red";
            StyleAppend "s" "shape" "box";
            NewItem "n" None false;
            NewItem "m" None false;
            StyleApply "s" (ENode 0%nat);
            PropertyAppend (ENode 0%nat) "color" "green";
            NewLink 0%nat 1%nat None None None]).

Definition styled_node : node :=
  {| node_id := 1; node_parent := None; node_style := Some "s";
     node_properties := [("label", "n"); ("color", "green")] |}.

Definition plain_link : link :=
  {| from_node := 0%nat; to_node := 1%nat; link_style := None;
     link_properties := []; cl_from_node := None; cl_to_node := None |}.

(** two nodes [A] and [X]; the label of [A] has been removed *)
Definition unlabelled_graph : gvgen :=
  graph_of
    (g <- init None "compound=true;" ;;
     run g [NewItem "A" None false;
            NewItem "X" None false;
            PropertyRemove (ENode 0%nat) "label"]).

(** a cluster [C] with two children, and a node [X] under the first
    child *)
Definition nested_graph : gvgen :=
  graph_of
    (g <- init None "compound=true;" ;;
     run g [NewItem "C" None false;
            NewItem "n1" (Some 0%nat) false;
            NewItem "n2" (Some 0%nat) false;
            NewItem "X" (Some 1%nat) false]).

(** two nodes [A] and [B] in smart mode, no link yet *)
Definition smart_graph : gvgen :=
  graph_of
    (g <- init None "compound=true;" ;;
     run g [SmartMode true;
            NewItem "A" None false;
            NewItem "B" None false]).

(** [smart_graph] after four requests for a link from [A] to [B] *)
Definition four_requests : gvgen :=
  graph_of
    (run smart_graph [NewLink 0%nat 1%nat None None None;
                      NewLink 0%nat 1%nat None None None;
                      NewLink 0%nat 1%nat None None None;
                      NewLink 0%nat 1%nat None None None]).

(** [nested_graph] with a link from the cluster [C] to the leaf [X], a link
    from [n2] to [C] that names [n2] as the node to show for [C], and a
    link between the leaves [n2] and [X] *)
Definition cluster_links_graph : gvgen :=
  graph_of
    (run nested_graph
       [NewLink 0%nat 3%nat None None None;
        NewLink 2%nat 0%nat (Some "back") None (Some 2%nat);
        NewLink 2%nat 3%nat None None None]).

(** a lone node with a default style, after its label has been removed *)
Definition bare_graph : gvgen :=
  graph_of
    (g <- init None "compound=true;" ;;
     run g [StyleDefaultAppend "color" "blue";
            NewItem "n" None false;
            PropertyRemove (ENode 0%nat) "label"]).

(** ** Further invariants

    [forest]: the parent of a node was created before the node.
    [styles_ok]: every style applied to a node or to a stored link is
    registered. *)

Definition forest (g : gvgen) : Prop :=
  forall i n p, nodes g !! i = Some n -> node_parent n = Some p -> (p < i)%nat.

Definition styles_ok (g : gvgen) : Prop :=
  (forall r n, nodes g !! r = Some n ->
               is_ok (style_pairs g (node_style n)) = true) /\
  (forall r l, r ∈ links g -> link_objs g !! r = Some l ->
               is_ok (style_pairs g (link_style l)) = true).

(** ** Option strings

    [options_string] writes pairs the way the constructor reads them:
    [key=value;] for each pair.  A pair is [clean_option] when the text
    [key=value] can be read back: no [;] in it, no [=] in the key, a key
    other than [self], and no white space at either end.  A part of an
    option string that the constructor cannot read is either a
    [bad_part], not blank and without [=], or a [self_part], whose key is
    [self]; a [good_part] is neither. *)

Fixpoint options_string (kvs : list (string * string)) : string :=
  match kvs with
  | [] => EmptyString
  | (k, v) :: rest => k +:+ "=" +:+ v +:+ ";" +:+ options_string rest
  end.

Definition option_text (kv : string * string) : list ascii :=
  list_ascii_of_string (fst kv) ++ "="%char :: list_ascii_of_string (snd kv).

Definition clean_option (kv : string * string) : Prop :=
  ~ In ";"%char (option_text kv) /\
  ~ In "="%char (list_ascii_of_string (fst kv)) /\
  fst kv <> "self" /\
  PyStr.strip (option_text kv) = option_text kv.

Definition bad_part (part : string) : Prop :=
  PyStr.strip (list_ascii_of_string part) <> [] /\
  ~ In "="%char (PyStr.strip (list_ascii_of_string part)).

Definition self_part (part : string) : Prop :=
  exists value,
    PyStr.strip (list_ascii_of_string part)
    = list_ascii_of_string "self" ++ "="%char :: value.

Definition good_part (part : string) : Prop :=
  ~ bad_part part /\ ~ self_part part.

(** ** The legend

    [legendAppend] reads [self.legend], which [__init__] sets only when it
    is given a legend name; without it the method raises [AttributeError]
    before it changes anything.  [outcome] adds this exception to the
    results of a call. *)

Inductive outcome (A : Type) : Type :=
  | Returns (a : A)
  | Raises (e : exn)
  | RaisesAttributeError.
Arguments Returns {A} a.
Arguments Raises {A} e.
Arguments RaisesAttributeError {A}.

Definition of_result {A} (m : result A) : outcome A :=
  match m with
  | Ok a => Returns a
  | Raise e => Raises e
  end.

(** the flag [needLinks] of [legendAppend] *)
Definition needLinks (opts : Dict.t string) : bool :=
  match Dict.get opts "rankdir" with
  | None => false
  | Some rankdir =>
      if String.eqb rankdir "LR" then false
      else if String.eqb rankdir "RL" then false
      else if String.eqb rankdir "TB" then true
      else if String.eqb rankdir "BT" then true
      else true
  end.

(** the three statements that [legendAppend] repeats for each link it
    makes: [newLink], then [dir=none] and [style=invis] on what it
    returned *)
Definition invisible_link (g : gvgen) (a b : node_ref)
  : result (link_ref * gvgen) :=
  r <- newLink g a b None None None ;;
  let link := fst r in
  g <- propertyAppend (snd r) (ELink link) "dir" "none" ;;
  g <- propertyAppend g (ELink link) "style" "invis" ;;
  Ok (link, g).

(** the loop over the children of the legend when the label is in the
    shape *)
Fixpoint legend_chain (g : gvgen) (children : list node_ref)
    (previousNode : option node_ref) : result gvgen :=
  match children with
  | [] => Ok g
  | node0 :: rest =>
      g <- match previousNode with
           | Some p => r <- invisible_link g p node0 ;; Ok (snd r)
           | None => Ok g
           end ;;
      legend_chain g rest (Some node0)
  end.

(** the loop over the children of the legend when shapes and labels are
    separate nodes: shapes are the children with an empty label *)
Fixpoint legend_chains (g : gvgen) (children : list node_ref)
    (previousNode previousLabel : option node_ref) : result gvgen :=
  match children with
  | [] => Ok g
  | node0 :: rest =>
      n <- get_node g node0 ;;
      lbl <- Dict.getitem (node_properties n) "label" ;;
      if String.eqb lbl EmptyString then
        g <- match previousNode with
             | Some p => r <- invisible_link g p node0 ;; Ok (snd r)
             | None => Ok g
             end ;;
        legend_chains g rest (Some node0) previousLabel
      else
        g <- match previousLabel with
             | Some p => r <- invisible_link g p node0 ;; Ok (snd r)
             | None => Ok g
             end ;;
        legend_chains g rest previousNode (Some node0)
  end.

(** the body of [legendAppend], [lg] being [self.legend] *)
Definition legendAppend_in (g : gvgen) (lg : node_ref)
    (legendstyle legenddescr : string) (labelin : bool) : result gvgen :=
  let needLinks := needLinks (options g) in
  if labelin then
    r <- newItem g legenddescr (Some lg) false ;;
    match fst r with
    | Node item0 =>
        g <- styleApply (snd r) legendstyle (ENode item0) ;;
        if needLinks then
          match has_children g lg with
          | [] => Ok g
          | (_ :: _) as children => legend_chain g children None
          end
        else Ok g
    | DUPLICATE => Raise TypeError
    end
  else
    r <- newItem g EmptyString (Some lg) false ;;
    match fst r with
    | Node style =>
        r' <- newItem (snd r) legenddescr (Some lg) false ;;
        match fst r' with
        | Node descr =>
            g <- styleApply (snd r') legendstyle (ENode style) ;;
            r'' <- invisible_link g style descr ;;
            let link := fst r'' in
            g <- propertyAppend (snd r'') (ENode descr) "shape" "plaintext" ;;
            if needLinks then
              g <- propertyAppend g (ELink link) "constraint" "false" ;;
              match has_children g lg with
              | [] => Ok g
              | (_ :: _) as children => legend_chains g children None None
              end
            else Ok g
        | DUPLICATE => Raise TypeError
        end
    | DUPLICATE => Raise TypeError
    end.

Definition legendAppend (g : gvgen) (legendstyle legenddescr : string)
    (labelin : bool) : outcome gvgen :=
  match legend g with
  | Some lg => of_result (legendAppend_in g lg legendstyle legenddescr labelin)
  | None => RaisesAttributeError
  end.

(** [a] is followed by [b] in [l] *)
Definition adjacent {A} (l : list A) (a b : A) : Prop :=
  exists i, l !! i = Some a /\ l !! S i = Some b.

(** a link that [legendAppend] made: its end points, and that it is not
    drawn *)
Definition invisible (l : link) (a b : node_ref) : Prop :=
  ends l = (a, b, None, None) /\ link_style l = None /\
  Dict.get (link_properties l) "dir" = Some "none" /\
  Dict.get (link_properties l) "style" = Some "invis".

(** the children of the legend that stand for shapes are those with an
    empty label; the others are labels *)
Definition empty_label (ns : list node) (r : node_ref) : bool :=
  match ns !! r with
  | Some n =>
      match Dict.get (node_properties n) "label" with
      | Some lbl => String.eqb lbl EmptyString
      | None => false
      end
  | None => false
  end.

Definition legend_shapes (g : gvgen) (lg : node_ref) : list node_ref :=
  List.filter (empty_label (nodes g)) (has_children g lg).

Definition legend_labels (g : gvgen) (lg : node_ref) : list node_ref :=
  List.filter (fun r => negb (empty_label (nodes g) r)) (has_children g lg).

(** every child of [lg] has a label *)
Definition children_labelled (g : gvgen) (lg : node_ref) : Prop :=
  forall r, r ∈ has_children g lg ->
    exists n lbl, nodes g !! r = Some n /\
                  Dict.get (node_properties n) "label" = Some lbl.

(** a graph with a legend that has one entry, laid out top to bottom *)
Definition legend_graph : gvgen :=
  graph_of
    (g <- init (Some "Legend") "rankdir=TB;" ;;
     run g [NewItem "first" (Some 0%nat) false]).

(** a graph with a legend, laid out left to right *)
Definition sideways_legend_graph : gvgen :=
  graph_of (init (Some "Legend") "rankdir=LR;").

(** [smart_graph] with a link from [A] to [B] whose pen width has been
    set to a word *)
Definition thick_graph : gvgen :=
  graph_of
    (run smart_graph [NewLink 0%nat 1%nat None None None;
                      PropertyAppend (ELink 0%nat) "penwidth" "thick"]).

(** ** The order of the links in the output

    [dot] calls [dotLinks] on every node in the order of [__nodes], and
    [dotLinks] goes through [__links] for the links that start at the
    node. *)





(** * Properties *)

(** ** Dictionaries *)

Section DictFacts.
Context {V : Type}.
Implicit Types (d : Dict.t V) (k : string) (v : V).

Lemma dict_get_set_eq d k v : Dict.get (Dict.set d k v) k = Some v.
Proof.
  induction d as [|[k' v'] d IH]; simpl.
  - now rewrite String.eqb_refl.
  - destruct (String.eqb k' k) eqn:E; simpl; rewrite E; auto.
Qed.

Lemma dict_get_set_ne d k k' v :
  k <> k' -> Dict.get (Dict.set d k v) k' = Dict.get d k'.
Proof.
  intros Hne. induction d as [|[k0 v0] d IH]; simpl.
  - apply String.eqb_neq in Hne. now rewrite Hne.
  - destruct (String.eqb k0 k) eqn:E; simpl.
    + apply String.eqb_eq in E. subst k0.
      apply String.eqb_neq in Hne. now rewrite Hne.
    + now rewrite IH.
Qed.

Lemma dict_get_set d k k' v :
  Dict.get (Dict.set d k v) k' =
  if String.eqb k k' then Some v else Dict.get d k'.
Proof.
  destruct (String.eqb k k') eqn:E.
  - apply String.eqb_eq in E. subst. apply dict_get_set_eq.
  - apply String.eqb_neq in E. now apply dict_get_set_ne.
Qed.

Lemma dict_set_keys_in d k v k' :
  In k' (map fst (Dict.set d k v)) <-> k' = k \/ In k' (map fst d).
Proof.
  induction d as [|[k0 v0] d IH]; simpl.
  - intuition.
  - destruct (String.eqb k0 k) eqn:E; simpl.
    + apply String.eqb_eq in E. subst. intuition.
    + rewrite IH. intuition.
Qed.

Lemma dict_set_nodup d k v :
  List.NoDup (map fst d) -> List.NoDup (map fst (Dict.set d k v)).
Proof.
  induction d as [|[k0 v0] d IH]; simpl; intros Hnd.
  - constructor; [intros []|constructor].
  - inversion Hnd as [|? ? Hnotin Hnd']; subst.
    destruct (String.eqb k0 k) eqn:E; simpl.
    + now constructor.
    + constructor; [|now apply IH].
      rewrite dict_set_keys_in. intros [->|Hin]; [|contradiction].
      now rewrite String.eqb_refl in E.
Qed.

Lemma dict_get_none_notin d k :
  Dict.get d k = None <-> ~ In k (map fst d).
Proof.
  induction d as [|[k0 v0] d IH]; simpl; [tauto|].
  destruct (String.eqb k0 k) eqn:E.
  - apply String.eqb_eq in E. subst. split; [discriminate|tauto].
  - apply String.eqb_neq in E. rewrite IH. tauto.
Qed.
End DictFacts.

Lemma layer_get_app pairs k v x :
  layer_get (pairs ++ [(k, v)]) x =
  if String.eqb k x then Some v else layer_get pairs x.
Proof.
  induction pairs as [|[k0 v0] pairs IH]; simpl.
  - now destruct (String.eqb k x).
  - rewrite IH. destruct (String.eqb k x); [reflexivity|].
    now destruct (layer_get pairs x).
Qed.

(** [update] assigns from left to right: the last pair of a key wins, and
    keys that [pairs] does not mention keep their value *)
Lemma dict_get_update (d : Dict.t string) pairs k :
  Dict.get (Dict.update d pairs) k = first_some (layer_get pairs k) (Dict.get d k).
Proof.
  unfold Dict.update. revert d.
  induction pairs as [|[k0 v0] pairs IH]; intros d; simpl; [reflexivity|].
  rewrite IH, dict_get_set.
  destruct (layer_get pairs k); simpl; [reflexivity|].
  now destruct (String.eqb k0 k).
Qed.

(** on a dictionary, whose keys are distinct, reading the last pair of a
    key is reading the key *)
Lemma layer_get_dict (d : Dict.t string) k :
  List.NoDup (map fst d) -> layer_get d k = Dict.get d k.
Proof.
  induction d as [|[k0 v0] d IH]; simpl; intros Hnd; [reflexivity|].
  inversion Hnd as [|? ? Hnotin Hnd']; subst.
  rewrite IH by assumption.
  destruct (String.eqb k0 k) eqn:E.
  - apply String.eqb_eq in E. subst.
    apply dict_get_none_notin in Hnotin. now rewrite Hnotin.
  - now destruct (Dict.get d k).
Qed.

Lemma dict_update_nodup (d : Dict.t string) pairs :
  List.NoDup (map fst d) -> List.NoDup (map fst (Dict.update d pairs)).
Proof.
  unfold Dict.update. revert d.
  induction pairs as [|[k0 v0] pairs IH]; intros d Hnd; simpl; [assumption|].
  apply IH. now apply dict_set_nodup.
Qed.

(** ** Effective attributes *)

Lemma node_allProps_layers g n props all k :
  List.NoDup (map fst props) ->
  node_allProps g n props = Ok all ->
  exists st, style_pairs g (node_style n) = Ok st /\
             Dict.get all k = layered (default_style g) st props k.
Proof.
  intros Hnd H. unfold node_allProps in H.
  destruct (style_pairs g (node_style n)) as [st|e] eqn:Est; simpl in H;
    [|discriminate].
  injection H as <-. exists st. split; [reflexivity|].
  unfold layered. rewrite !dict_get_update. simpl.
  rewrite (layer_get_dict props) by assumption.
  destruct (Dict.get props k); simpl; [reflexivity|].
  destruct (layer_get st k); simpl; [reflexivity|].
  now destruct (layer_get (default_style g) k).
Qed.

Lemma link_allProps_layers g l all k :
  List.NoDup (map fst (link_properties l)) ->
  link_allProps g l = Ok all ->
  exists st, style_pairs g (link_style l) = Ok st /\
             Dict.get all k = layered [] st (link_properties l) k.
Proof.
  intros Hnd H. unfold link_allProps in H.
  destruct (style_pairs g (link_style l)) as [st|e] eqn:Est; simpl in H;
    [|discriminate].
  injection H as <-. exists st. split; [reflexivity|].
  unfold layered. rewrite !dict_get_update. simpl.
  rewrite (layer_get_dict (link_properties l)) by assumption.
  destruct (Dict.get (link_properties l) k); simpl; [reflexivity|].
  now destruct (layer_get st k).
Qed.

(** C3, as the specification states it for links, fails: the default style
    is not a layer of a link's attributes.  In [styled_graph] the default
    style has [color=blue] and the link has no [color]. *)
Lemma link_default_style_counterexample :
  ~ (forall g l all k,
        link_allProps g l = Ok all ->
        exists st, style_pairs g (link_style l) = Ok st /\
                   Dict.get all k =
                   layered (default_style g) st (link_properties l) k).
Proof.
  intros H.
  destruct (H styled_graph plain_link [] "color" eq_refl) as (st & Hst & Hget).
  vm_compute in Hst. injection Hst as <-. vm_compute in Hget. discriminate.
Qed.

(** C3 (amended): the attributes printed for a node are the default style
    pairs, overridden by the pairs of the node's style when it has one,
    overridden by the node's explicit properties; the attributes printed
    for a link are the pairs of the link's style when it has one,
    overridden by the link's explicit properties, and the default style
    takes no part in them.  A key that none of these layers holds is not
    in the result. *)
Theorem effective_properties_layers g n props l alln alll k :
  List.NoDup (map fst props) ->
  List.NoDup (map fst (link_properties l)) ->
  node_allProps g n props = Ok alln ->
  link_allProps g l = Ok alll ->
  (exists st, style_pairs g (node_style n) = Ok st /\
              Dict.get alln k = layered (default_style g) st props k) /\
  (exists st, style_pairs g (link_style l) = Ok st /\
              Dict.get alll k = layered [] st (link_properties l) k).
Proof.
  intros Hn Hl Han Hal. split.
  - now apply node_allProps_layers.
  - now apply link_allProps_layers.
Qed.

Lemma effective_properties_layers_witness :
  (exists st, style_pairs styled_graph (node_style styled_node) = Ok st /\
              Dict.get [("color", "green"); ("shape", "box"); ("label", "n")] "shape"
              = layered (default_style styled_graph) st
                  (node_properties styled_node) "shape") /\
  (exists st, style_pairs styled_graph (link_style plain_link) = Ok st /\
              Dict.get [] "shape" = layered [] st (link_properties plain_link) "shape").
Proof.
  apply (effective_properties_layers styled_graph styled_node
           (node_properties styled_node) plain_link).
  - simpl. repeat constructor; simpl; intuition discriminate.
  - simpl. constructor.
  - vm_compute. reflexivity.
  - vm_compute. reflexivity.
Defined.

(** the precedence example of the specification *)
Example precedence_example :
  node_allProps styled_graph styled_node (node_properties styled_node)
  = Ok [("color", "green"); ("shape", "box"); ("label", "n")].
Proof. vm_compute. reflexivity. Qed.

(** ** [propertyGet] and [propertyRemove] *)

(** C8: on a key that the explicit properties of a node or link do not
    hold, [propertyGet] returns [None] and [propertyRemove] raises
    [KeyError]; [propertyGet] is a lookup in the explicit properties and
    nothing else: registering styles, extending the default style or
    applying a style to the entity does not change what it returns. *)
Theorem propertyGet_tolerant_propertyRemove_strict g e props k :
  properties_of g e = Ok props ->
  propertyGet g (Some e) k = Dict.get props k /\
  (Dict.get props k = None ->
   propertyGet g (Some e) k = None /\ propertyRemove g e k = Raise KeyError) /\
  (forall st dst, propertyGet (set_styles g st dst) (Some e) k
                  = propertyGet g (Some e) k) /\
  (forall s g', styleApply g s e = Ok g' ->
                propertyGet g' (Some e) k = propertyGet g (Some e) k).
Proof.
  intros Hp.
  assert (Hget : propertyGet g (Some e) k = Dict.get props k).
  { unfold propertyGet. simpl. rewrite Hp. simpl. unfold Dict.getitem.
    now destruct (Dict.get props k). }
  split; [exact Hget|]. split; [|split].
  - intros Hnone. split; [now rewrite Hget|].
    unfold propertyRemove. rewrite Hp. simpl. unfold Dict.delitem.
    now rewrite Hnone.
  - intros st dst. unfold propertyGet. simpl. now destruct e.
  - intros s g' Hs. rewrite Hget. unfold propertyGet. simpl.
    destruct e as [r|r]; simpl in *.
    + unfold get_node in *. destruct (nodes g !! r) as [n|] eqn:En;
        simpl in *; [|discriminate].
      injection Hs as <-. injection Hp as <-. simpl.
      rewrite list_lookup_insert_eq by (now apply lookup_lt_Some in En).
      simpl. unfold Dict.getitem. now destruct (Dict.get (node_properties n) k).
    + unfold get_link in *. destruct (link_objs g !! r) as [l|] eqn:El;
        simpl in *; [|discriminate].
      injection Hs as <-. injection Hp as <-. simpl.
      rewrite list_lookup_insert_eq by (now apply lookup_lt_Some in El).
      simpl. unfold Dict.getitem. now destruct (Dict.get (link_properties l) k).
Qed.

Lemma propertyGet_tolerant_propertyRemove_strict_witness :
  propertyGet styled_graph (Some (ENode 1%nat)) "color" = None /\
  propertyRemove styled_graph (ENode 1%nat) "color" = Raise KeyError.
Proof.
  apply (propertyGet_tolerant_propertyRemove_strict styled_graph (ENode 1%nat)
           [("label", "m")] "color").
  - vm_compute. reflexivity.
  - vm_compute. reflexivity.
Defined.

(** ** Well-formed graphs *)

Lemma map_lookup_Some {A B} (f : A -> B) (l : list A) i y :
  map f l !! i = Some y -> exists x, l !! i = Some x /\ f x = y.
Proof.
  revert i. induction l as [|a l IH]; intros [|i]; simpl; try discriminate.
  - intros [= <-]. eauto.
  - apply IH.
Qed.

Lemma map_lookup_eq {A B} (f : A -> B) (l l' : list A) i x :
  map f l' = map f l -> l' !! i = Some x ->
  exists x0, l !! i = Some x0 /\ f x0 = f x.
Proof.
  intros Hm Hx. apply map_lookup_Some with (f := f) (y := f x).
  rewrite <- Hm. clear Hm. revert i Hx.
  induction l' as [|a l' IH]; intros [|i]; simpl; try discriminate.
  - now intros [= ->].
  - apply IH.
Qed.

Lemma map_eq_length {A B} (f : A -> B) (l l' : list A) :
  map f l' = map f l -> length l' = length l.
Proof. intros H. apply (f_equal (@length B)) in H. now rewrite !length_map in H. Qed.

(** [wf] only looks at the shape *)
Lemma wf_shape g g' : shape g' = shape g -> wf g -> wf g'.
Proof.
  unfold shape. intros [= Hc Hn He Hl] [W1 W2 W3 W4 W5 W6].
  pose proof (map_eq_length _ _ _ Hn) as Hln.
  pose proof (map_eq_length _ _ _ He) as Hle.
  split.
  - now rewrite Hc, Hln.
  - intros i n Hi. destruct (map_lookup_eq _ _ _ _ _ Hn Hi) as (n0 & H0 & E).
    rewrite <- E. eauto.
  - intros r Hr. rewrite Hl in Hr. rewrite Hle. auto.
  - now rewrite Hl.
  - intros r l Hr. destruct (map_lookup_eq _ _ _ _ _ He Hr) as (l0 & H0 & E).
    unfold ends in E. injection E as E1 E2 E3 E4.
    destruct (W5 _ _ H0) as (A & B & C & D).
    unfold opt_node_ok, node_ok in *. rewrite Hln, <- E1, <- E2, <- E3, <- E4.
    auto.
  - intros r1 r2 l1 l2 H1 H2 L1 L2 F T. rewrite Hl in H1, H2.
    destruct (map_lookup_eq _ _ _ _ _ He L1) as (a1 & A1 & E1).
    destruct (map_lookup_eq _ _ _ _ _ He L2) as (a2 & A2 & E2).
    unfold ends in E1, E2. injection E1 as ? ? ? ?. injection E2 as ? ? ? ?.
    eapply W6; eauto; congruence.
Qed.

Lemma map_insert_same {A B} (f : A -> B) (l : list A) i x y :
  l !! i = Some x -> f y = f x -> map f (<[i := y]> l) = map f l.
Proof.
  revert i. induction l as [|a l IH]; intros [|i]; simpl; try discriminate.
  - intros [= ->] E. now rewrite E.
  - intros Hi E. f_equal. now apply IH.
Qed.

Lemma shape_store_properties g e d : shape (store_properties g e d) = shape g.
Proof.
  unfold store_properties, shape. destruct e as [r|r].
  - destruct (nodes g !! r) as [n|] eqn:E; simpl; [|reflexivity].
    now rewrite (map_insert_same node_id _ _ n).
  - destruct (link_objs g !! r) as [l|] eqn:E; simpl; [|reflexivity].
    now rewrite (map_insert_same ends _ _ l).
Qed.

Lemma shape_propertyAppend g e k v g' :
  propertyAppend g e k v = Ok g' -> shape g' = shape g.
Proof.
  unfold propertyAppend. destruct (properties_of g e); simpl; [|discriminate].
  intros [= <-]. apply shape_store_properties.
Qed.

Lemma shape_propertyRemove g e k g' :
  propertyRemove g e k = Ok g' -> shape g' = shape g.
Proof.
  unfold propertyRemove. destruct (properties_of g e) as [p|]; simpl; [|discriminate].
  destruct (Dict.delitem p k); simpl; [|discriminate].
  intros [= <-]. apply shape_store_properties.
Qed.

Lemma shape_styleApply g s e g' :
  styleApply g s e = Ok g' -> shape g' = shape g.
Proof.
  unfold styleApply, get_node, get_link, shape. destruct e as [r|r].
  - destruct (nodes g !! r) as [n|] eqn:E; simpl; [|discriminate].
    intros [= <-]. simpl. now rewrite (map_insert_same node_id _ _ n).
  - destruct (link_objs g !! r) as [l|] eqn:E; simpl; [|discriminate].
    intros [= <-]. simpl. now rewrite (map_insert_same ends _ _ l).
Qed.

Lemma foreach_links_append_ends objs rs n k v objs' :
  foreach_links_append objs rs n k v = Ok objs' ->
  map ends objs' = map ends objs.
Proof.
  revert objs. induction rs as [|r rs IH]; intros objs; simpl.
  - now intros [= <-].
  - destruct (objs !! r) as [l|] eqn:E; [|discriminate].
    destruct (decide (from_node l = n)); [|apply IH].
    intros H. apply IH in H. rewrite H.
    now apply (map_insert_same ends _ _ l).
Qed.

Lemma shape_propertyForeachLinksAppend g n k v g' :
  propertyForeachLinksAppend g n k v = Ok g' -> shape g' = shape g.
Proof.
  unfold propertyForeachLinksAppend.
  destruct (foreach_links_append _ _ _ _ _) as [objs|] eqn:E; simpl; [|discriminate].
  intros [= <-]. unfold shape. simpl.
  now rewrite (foreach_links_append_ends _ _ _ _ _ _ E).
Qed.

(** ** Looking up stored links *)

Lemma find_link_ends objs objs' rs a b :
  map ends objs' = map ends objs ->
  find_link objs' rs a b = find_link objs rs a b.
Proof.
  intros He. induction rs as [|r rs IH]; simpl; [reflexivity|].
  destruct (objs' !! r) as [l'|] eqn:E'.
  - destruct (map_lookup_eq _ _ _ _ _ He E') as (l & E & Hends).
    rewrite E. unfold ends in Hends. injection Hends as H1 H2 _ _.
    rewrite IH, H1, H2. reflexivity.
  - assert (objs !! r = None) as ->; [|exact IH].
    apply lookup_ge_None. apply lookup_ge_None in E'.
    now rewrite <- (map_eq_length _ _ _ He).
Qed.

Lemma find_link_Some objs rs a b r :
  find_link objs rs a b = Some r ->
  r ∈ rs /\ exists l, objs !! r = Some l /\ from_node l = a /\ to_node l = b.
Proof.
  induction rs as [|r0 rs IH]; simpl; [discriminate|].
  destruct (objs !! r0) as [l|] eqn:E.
  - destruct (decide (from_node l = a /\ to_node l = b)) as [[H1 H2]|Hn].
    + intros [= <-]. split; [left|eauto].
    + intros H. destruct (IH H) as [Hin Hl]. split; [now right|exact Hl].
  - intros H. destruct (IH H) as [Hin Hl]. split; [now right|exact Hl].
Qed.

Lemma find_link_None objs rs a b :
  find_link objs rs a b = None <->
  forall r, r ∈ rs -> joins objs a b r = false.
Proof.
  unfold joins. induction rs as [|r0 rs IH]; simpl.
  - split; [intros _ r Hr; inversion Hr|reflexivity].
  - destruct (objs !! r0) as [l|] eqn:E.
    + destruct (decide (from_node l = a /\ to_node l = b)) as [Hy|Hn].
      * split; [discriminate|]. intros H. specialize (H r0 (list_elem_of_here _ _)).
        rewrite E in H. now rewrite bool_decide_eq_true_2 in H.
      * rewrite IH. split.
        -- intros H r Hr. apply elem_of_cons in Hr as [->|Hr]; [|auto].
           rewrite E. now apply bool_decide_eq_false_2.
        -- intros H r Hr. apply H. now right.
    + rewrite IH. split.
      * intros H r Hr. apply elem_of_cons in Hr as [->|Hr]; [|auto].
        now rewrite E.
      * intros H r Hr. apply H. now right.
Qed.

Lemma find_link_alloc objs l rs a b :
  (forall r, r ∈ rs -> (r < length objs)%nat) ->
  find_link (objs ++ [l]) rs a b = find_link objs rs a b.
Proof.
  induction rs as [|r rs IH]; intros Hv; simpl; [reflexivity|].
  rewrite lookup_app_l by (apply Hv; left).
  rewrite IH by (intros; apply Hv; now right). reflexivity.
Qed.

Lemma find_link_snoc objs rs r a b :
  find_link objs rs a b = None ->
  find_link objs (rs ++ [r]) a b = if joins objs a b r then Some r else None.
Proof.
  unfold joins. induction rs as [|r0 rs IH]; simpl.
  - intros _. destruct (objs !! r) as [l|]; [|reflexivity].
    destruct (decide (from_node l = a /\ to_node l = b)).
    + now rewrite bool_decide_eq_true_2.
    + now rewrite bool_decide_eq_false_2.
  - destruct (objs !! r0) as [l|]; [|exact IH].
    destruct (decide (from_node l = a /\ to_node l = b)); [discriminate|exact IH].
Qed.

Lemma list_remove_subset x l r : r ∈ list_remove x l -> r ∈ l.
Proof.
  induction l as [|y l IH]; simpl; [auto|].
  destruct (decide (y = x)); [now right|].
  intros H. apply elem_of_cons in H as [->|H]; [left|right; auto].
Qed.

Lemma list_remove_nodup x l : NoDup l -> NoDup (list_remove x l).
Proof.
  induction 1 as [|y l Hn Hd IH]; simpl; [constructor|].
  destruct (decide (y = x)); [assumption|].
  constructor; [|assumption]. intros H. apply Hn. eapply list_remove_subset, H.
Qed.

Lemma list_remove_gone x l : NoDup l -> x ∉ list_remove x l.
Proof.
  induction 1 as [|y l Hn Hd IH]; simpl; [inversion 1|].
  destruct (decide (y = x)) as [->|Hne]; [assumption|].
  intros H. apply elem_of_cons in H as [->|H]; [congruence|auto].
Qed.

Lemma list_remove_other x l r : r <> x -> r ∈ l -> r ∈ list_remove x l.
Proof.
  intros Hne. induction l as [|y l IH]; simpl; [auto|].
  intros H. apply elem_of_cons in H as [<-|H].
  - destruct (decide (r = x)); [congruence|left].
  - destruct (decide (y = x)); [assumption|right; auto].
Qed.

Lemma list_remove_absent x l : x ∉ l -> list_remove x l = l.
Proof.
  induction l as [|y l IH]; simpl; [reflexivity|].
  intros H. destruct (decide (y = x)) as [->|Hne].
  - exfalso. apply H. left.
  - f_equal. apply IH. intros Hx. apply H. now right.
Qed.

(** removing a stored link does not disturb the lookup of a pair of end
    points that the removed link does not join *)
Lemma find_link_remove objs rs x a b :
  joins objs a b x = false ->
  find_link objs (list_remove x rs) a b = find_link objs rs a b.
Proof.
  unfold joins. intros Hx. induction rs as [|r rs IH]; simpl; [reflexivity|].
  destruct (decide (r = x)) as [->|Hne].
  - destruct (objs !! x) as [l|]; [|reflexivity].
    destruct (decide (from_node l = a /\ to_node l = b)); [|reflexivity].
    now rewrite bool_decide_eq_true_2 in Hx.
  - simpl. now rewrite IH.
Qed.

Lemma joins_ends objs objs' a b r :
  map ends objs' = map ends objs -> joins objs' a b r = joins objs a b r.
Proof.
  intros He. unfold joins.
  destruct (objs' !! r) as [l'|] eqn:E'.
  - destruct (map_lookup_eq _ _ _ _ _ He E') as (l & E & Hends).
    rewrite E. unfold ends in Hends. injection Hends as H1 H2 _ _.
    now rewrite H1, H2.
  - assert (objs !! r = None) as ->; [|reflexivity].
    apply lookup_ge_None. apply lookup_ge_None in E'.
    now rewrite <- (map_eq_length _ _ _ He).
Qed.

(** ** What [__link_smart] changes *)

Lemma relinked_refl g : relinked g g.
Proof. now repeat split. Qed.

Lemma relinked_trans g1 g2 g3 : relinked g1 g2 -> relinked g2 g3 -> relinked g1 g3.
Proof. intros (A & B & C) (A' & B' & C'). repeat split; congruence. Qed.

Lemma relinked_store g r d :
  relinked g (store_properties g (ELink r) d).
Proof.
  unfold relinked, store_properties.
  destruct (link_objs g !! r) as [l|] eqn:E; simpl; [|now repeat split].
  repeat split. now apply (map_insert_same ends _ _ l).
Qed.

Lemma relinked_propertyAppend g r k v g' :
  propertyAppend g (ELink r) k v = Ok g' -> relinked g g'.
Proof.
  unfold propertyAppend. destruct (properties_of g (ELink r)); simpl; [|discriminate].
  intros [= <-]. apply relinked_store.
Qed.

Lemma relinked_smart_penwidth g link linkfrom g' :
  smart_penwidth g link linkfrom = Ok g' -> relinked g g'.
Proof.
  unfold smart_penwidth.
  destruct (truthy (propertyGet g (ELink <$> linkfrom) "penwidth")) as [pw|].
  - destruct (float pw) as [x|]; simpl; [|discriminate].
    destruct (PyFloat.ltb _ _).
    + destruct linkfrom as [lf|]; [|discriminate]. apply relinked_propertyAppend.
    + intros [= <-]. apply relinked_refl.
  - apply relinked_propertyAppend.
Qed.

Lemma relinked_smart_arrowsize g link linkfrom g' :
  smart_arrowsize g link linkfrom = Ok g' -> relinked g g'.
Proof.
  unfold smart_arrowsize.
  destruct (truthy (propertyGet g (ELink <$> linkfrom) "arrowsize")) as [aw|].
  - destruct (float aw) as [x|]; simpl; [|discriminate].
    destruct (PyFloat.ltb _ _).
    + destruct linkfrom as [lf|]; [|discriminate]. apply relinked_propertyAppend.
    + intros [= <-]. apply relinked_refl.
  - apply relinked_propertyAppend.
Qed.

Lemma link_smart_inv g link l g' :
  link_objs g !! link = Some l ->
  link_smart g link = Ok g' ->
  frame g' = frame g /\
  map ends (link_objs g') = map ends (link_objs g) /\
  links g' = smart_links g l link.
Proof.
  intros Hl. unfold link_smart, get_link, smart_links. rewrite Hl. simpl.
  set (linkfrom := link_exists g (from_node l) (to_node l)).
  set (linkto := link_exists g (to_node l) (from_node l)).
  destruct (smart_mode g).
  - destruct (match linkto with
              | Some lt => propertyAppend (set_links g (list_remove lt (links g)))
                             (ELink link) "dir" "both"
              | None => Ok g
              end) as [g1|] eqn:E1; simpl; [|discriminate].
    destruct (smart_penwidth g1 link linkfrom) as [g2|] eqn:E2; simpl; [|discriminate].
    destruct (smart_arrowsize g2 link linkfrom) as [g3|] eqn:E3; simpl; [|discriminate].
    apply relinked_smart_penwidth in E2. apply relinked_smart_arrowsize in E3.
    pose proof (relinked_trans _ _ _ E2 E3) as (F & L & N).
    assert (frame g1 = frame g /\
            map ends (link_objs g1) = map ends (link_objs g) /\
            links g1 = match linkto with
                       | Some lt => list_remove lt (links g)
                       | None => links g
                       end) as (F1 & N1 & L1).
    { destruct linkto as [lt|].
      - apply relinked_propertyAppend in E1 as (A & B & C). now repeat split.
      - injection E1 as <-. now repeat split. }
    destruct linkfrom; intros [= <-]; simpl.
    + rewrite app_nil_r. split; [|split].
      * now rewrite F.
      * now rewrite N.
      * now rewrite L.
    + split; [|split].
      * rewrite <- F1, <- F. reflexivity.
      * now rewrite N.
      * now rewrite L, L1.
  - destruct linkfrom; intros [= <-]; simpl.
    + now rewrite app_nil_r.
    + now repeat split.
Qed.

Lemma frame_nodes g g' : frame g' = frame g -> nodes g' = nodes g.
Proof. intros H. exact (f_equal nodes H). Qed.

Lemma frame_id_counter g g' : frame g' = frame g -> id_counter g' = id_counter g.
Proof. intros H. exact (f_equal id_counter H). Qed.

Lemma frame_smart_mode g g' : frame g' = frame g -> smart_mode g' = smart_mode g.
Proof. intros H. exact (f_equal smart_mode H). Qed.

Lemma frame_styles g g' : frame g' = frame g -> styles g' = styles g.
Proof. intros H. exact (f_equal styles H). Qed.

Lemma frame_default_style g g' :
  frame g' = frame g -> default_style g' = default_style g.
Proof. intros H. exact (f_equal default_style H). Qed.

Lemma frame_padding_str g g' : frame g' = frame g -> padding_str g' = padding_str g.
Proof. intros H. exact (f_equal padding_str H). Qed.

Lemma frame_options g g' : frame g' = frame g -> options g' = options g.
Proof. intros H. exact (f_equal options H). Qed.

(** ** The calls keep a graph well formed *)

Lemma wf_empty_graph opts : wf (empty_graph opts).
Proof.
  split; simpl; try discriminate; try (intros; exfalso; eapply not_elem_of_nil; eassumption).
  - reflexivity.
  - constructor.
Qed.

Lemma wf_remove g x : wf g -> wf (set_links g (list_remove x (links g))).
Proof.
  intros [W1 W2 W3 W4 W5 W6]. split; simpl; auto.
  - intros r Hr. apply W3. eapply list_remove_subset, Hr.
  - now apply list_remove_nodup.
  - intros r1 r2 l1 l2 H1 H2. apply W6; eapply list_remove_subset; eassumption.
Qed.

Lemma wf_alloc g l :
  wf g ->
  (from_node l < length (nodes g))%nat -> (to_node l < length (nodes g))%nat ->
  opt_node_ok g (cl_from_node l) = true -> opt_node_ok g (cl_to_node l) = true ->
  wf (set_link_objs g (link_objs g ++ [l])).
Proof.
  intros [W1 W2 W3 W4 W5 W6] Hf Ht Hcf Hct. split; simpl; auto.
  - intros r Hr. rewrite length_app. simpl. specialize (W3 r Hr). lia.
  - intros r l0 Hr. apply lookup_app_Some in Hr as [Hr|[_ Hr]].
    + exact (W5 _ _ Hr).
    + destruct (r - length (link_objs g))%nat; simpl in Hr; [|discriminate].
      injection Hr as <-. auto.
  - intros r1 r2 l1 l2 H1 H2.
    rewrite !lookup_app_l by auto. now apply W6.
Qed.

Lemma wf_append g r l :
  wf g -> link_objs g !! r = Some l -> r ∉ links g ->
  find_link (link_objs g) (links g) (from_node l) (to_node l) = None ->
  wf (set_links g (links g ++ [r])).
Proof.
  intros [W1 W2 W3 W4 W5 W6] Hl Hnew Hnone. split; simpl; auto.
  - intros r0 Hr. apply elem_of_app in Hr as [Hr|Hr]; [auto|].
    apply list_elem_of_singleton in Hr as ->. now apply lookup_lt_Some in Hl.
  - apply NoDup_app. split; [assumption|]. split; [|apply NoDup_singleton].
    intros x Hx Hx'. apply list_elem_of_singleton in Hx' as ->. contradiction.
  - rewrite find_link_None in Hnone. unfold joins in Hnone.
    intros r1 r2 l1 l2 H1 H2 L1 L2 F T.
    apply elem_of_app in H1 as [H1|H1]; apply elem_of_app in H2 as [H2|H2].
    + eapply W6; eauto.
    + apply list_elem_of_singleton in H2 as ->.
      specialize (Hnone r1 H1). rewrite L1 in Hnone.
      apply bool_decide_eq_false_1 in Hnone. exfalso. apply Hnone.
      rewrite Hl in L2. injection L2 as <-. now split.
    + apply list_elem_of_singleton in H1 as ->.
      specialize (Hnone r2 H2). rewrite L2 in Hnone.
      apply bool_decide_eq_false_1 in Hnone. exfalso. apply Hnone.
      rewrite Hl in L1. injection L1 as <-. now split.
    + apply list_elem_of_singleton in H1 as ->.
      now apply list_elem_of_singleton in H2 as ->.
Qed.

Lemma node_new_inv g name parent distinct it g' :
  node_new g name parent distinct = Ok (it, g') ->
  (it = DUPLICATE /\ g' = g) \/
  (it = Node (length (nodes g)) /\
   g' = set_nodes g (id_counter g + 1)
          (nodes g ++ [{| node_id := id_counter g + 1; node_parent := parent;
                          node_style := None;
                          node_properties := [("label", name)] |}])).
Proof.
  unfold node_new.
  destruct (if distinct then label_taken (nodes g) name else Ok false) as [[|]|];
    simpl; [| |discriminate]; intros [= <- <-]; auto.
Qed.

Lemma wf_node_new g name parent distinct it g' :
  wf g -> node_new g name parent distinct = Ok (it, g') -> wf g'.
Proof.
  intros W H. apply node_new_inv in H as [[_ ->]|[_ ->]]; [assumption|].
  destruct W as [W1 W2 W3 W4 W5 W6]. split; simpl; auto.
  - rewrite length_app. simpl. lia.
  - intros i n Hi. apply lookup_app_Some in Hi as [Hi|[Hge Hi]]; [auto|].
    destruct (i - length (nodes g))%nat eqn:E; simpl in Hi; [|discriminate].
    injection Hi as <-. simpl. lia.
  - intros r l Hr. destruct (W5 _ _ Hr) as (A & B & C & D).
    unfold opt_node_ok, node_ok in *. simpl. rewrite length_app. simpl.
    repeat split; try lia.
    + destruct (cl_from_node l); [|reflexivity].
      apply bool_decide_eq_true_1 in C. apply bool_decide_eq_true_2. lia.
    + destruct (cl_to_node l); [|reflexivity].
      apply bool_decide_eq_true_1 in D. apply bool_decide_eq_true_2. lia.
Qed.

Lemma link_new_inv g a b label cf ct h g' :
  link_new g a b label cf ct = Ok (h, g') ->
  exists l,
    h = length (link_objs g) /\
    ends l = (a, b, cf, ct) /\
    link_style l = None /\
    link_properties l = match truthy label with
                        | Some s => [("label", s)]
                        | None => []
                        end /\
    link_smart (set_link_objs g (link_objs g ++ [l])) h = Ok g'.
Proof.
  unfold link_new.
  match goal with |- context [link_smart ?g0 ?h0] =>
    destruct (link_smart g0 h0) as [g1|] eqn:E end; simpl; [|discriminate].
  intros [= <- <-].
  exists {| from_node := a; to_node := b; link_style := None;
            link_properties := match truthy label with
                               | Some s => [("label", s)]
                               | None => []
                               end;
            cl_from_node := cf; cl_to_node := ct |}.
  repeat split. exact E.
Qed.

Lemma wf_link_new g a b label cf ct h g' :
  wf g -> call_ok g (NewLink a b label cf ct) = true ->
  link_new g a b label cf ct = Ok (h, g') -> wf g'.
Proof.
  intros W Hok H. apply link_new_inv in H as (l & -> & He & _ & _ & H).
  unfold ends in He. injection He as Ha Hb Hcf Hct.
  simpl in Hok. apply andb_prop in Hok as [Hok Hok4].
  apply andb_prop in Hok as [Hok Hok3]. apply andb_prop in Hok as [Hok1 Hok2].
  unfold node_ok in Hok1, Hok2.
  apply bool_decide_eq_true_1 in Hok1. apply bool_decide_eq_true_1 in Hok2.
  set (g0 := set_link_objs g (link_objs g ++ [l])) in *.
  assert (W0 : wf g0).
  { apply wf_alloc; auto; try (subst; assumption). }
  assert (Hl : link_objs g0 !! length (link_objs g) = Some l).
  { simpl. rewrite lookup_app_r by lia. now rewrite Nat.sub_diag. }
  destruct (link_smart_inv _ _ _ _ Hl H) as (F & N & L).
  assert (Hfresh : length (link_objs g) ∉ links g).
  { intros Hin. apply (wf_links _ W) in Hin. lia. }
  apply wf_shape with (g := set_links g0 (smart_links g0 l (length (link_objs g)))).
  { unfold shape. simpl. rewrite (frame_id_counter _ _ F), (frame_nodes _ _ F).
    simpl. now rewrite N, L. }
  unfold smart_links.
  set (rs := if smart_mode g0 then
               match link_exists g0 (to_node l) (from_node l) with
               | Some lt => list_remove lt (links g0)
               | None => links g0
               end
             else links g0).
  assert (Wrs : wf (set_links g0 rs) /\ forall r, r ∈ rs -> r ∈ links g0).
  { subst rs. destruct (smart_mode g0).
    - destruct (link_exists g0 (to_node l) (from_node l)) as [lt|].
      + split; [now apply wf_remove|]. intros r. apply list_remove_subset.
      + split; [now destruct g0|auto].
    - split; [now destruct g0|auto]. }
  destruct Wrs as [Wrs Hsub].
  destruct (link_exists g0 (from_node l) (to_node l)) eqn:Efrom.
  - now rewrite app_nil_r.
  - apply (wf_append (set_links g0 rs) _ l Wrs Hl).
    + simpl. intros Hin. apply Hfresh. apply (Hsub _ Hin).
    + simpl. apply find_link_None. intros r Hr.
      unfold link_exists in Efrom. rewrite find_link_None in Efrom.
      apply Efrom. now apply Hsub.
Qed.

Theorem wf_exec g c g' :
  wf g -> call_ok g c = true -> exec g c = Ok g' -> wf g'.
Proof.
  intros W Hok H. destruct c; simpl in H.
  - unfold newItem in H.
    destruct (node_new g name parent distinct) as [[it g1]|] eqn:E;
      simpl in H; [|discriminate].
    injection H as <-. eapply wf_node_new; eauto.
  - unfold newLink in H.
    destruct (link_new g src dst label cl_src cl_dst) as [[h g1]|] eqn:E;
      simpl in H; [|discriminate].
    injection H as <-. eapply wf_link_new; eauto.
  - injection H as <-. now apply (wf_shape g).
  - eapply wf_shape; [|eassumption]. eapply shape_styleApply; eassumption.
  - injection H as <-. now apply (wf_shape g).
  - eapply wf_shape; [|eassumption]. eapply shape_propertyAppend; eassumption.
  - eapply wf_shape; [|eassumption]. eapply shape_propertyRemove; eassumption.
  - eapply wf_shape; [|eassumption].
    eapply shape_propertyForeachLinksAppend; eassumption.
  - injection H as <-. now apply (wf_shape g).
Qed.

Theorem wf_run cs : forall g g', wf g -> run g cs = Ok g' -> wf g'.
Proof.
  induction cs as [|c cs IH]; intros g g' W; simpl.
  - now intros [= <-].
  - destruct (call_ok g c) eqn:Hok; [|discriminate].
    destruct (exec g c) as [g1|] eqn:E; simpl; [|discriminate].
    apply IH. eapply wf_exec; eauto.
Qed.

Theorem wf_init legend_name opts g : init legend_name opts = Ok g -> wf g.
Proof.
  unfold init.
  destruct (parse_options _ _) as [o|]; simpl; [|discriminate].
  destruct (truthy legend_name) as [name|]; simpl; intros [= <-].
  - eapply wf_shape; [|eapply (wf_node_new (empty_graph o) name None false);
                        [apply wf_empty_graph|reflexivity]].
    reflexivity.
  - apply wf_empty_graph.
Qed.

(** ** Node creation *)

Lemma label_taken_found pre n post name :
  Forall (fun m => is_Some (Dict.get (node_properties m) "label")) pre ->
  Dict.get (node_properties n) "label" = Some name ->
  label_taken (pre ++ n :: post) name = Ok true.
Proof.
  intros Hpre Hn. induction Hpre as [|m pre [lbl Hm] _ IH]; simpl.
  - unfold Dict.getitem. rewrite Hn. simpl. now rewrite String.eqb_refl.
  - unfold Dict.getitem. rewrite Hm. simpl.
    destruct (String.eqb lbl name); [reflexivity|exact IH].
Qed.

Lemma label_taken_fresh l name :
  Forall (fun m => exists lbl, Dict.get (node_properties m) "label" = Some lbl
                               /\ lbl <> name) l ->
  label_taken l name = Ok false.
Proof.
  induction 1 as [|m l (lbl & Hm & Hne) _ IH]; simpl; [reflexivity|].
  unfold Dict.getitem. rewrite Hm. simpl.
  apply String.eqb_neq in Hne. now rewrite Hne.
Qed.

(** C7, as the specification states it, fails: in [unlabelled_graph] a node
    labelled [X] exists, yet the distinct creation of another [X] raises
    [KeyError], because the scan meets a node without a label first. *)
Lemma distinct_counterexample :
  ~ (forall g name parent,
        (exists n, n ∈ nodes g /\
                   Dict.get (node_properties n) "label" = Some name) ->
        node_new g name parent true = Ok (DUPLICATE, g)).
Proof.
  intros H.
  assert (E : node_new unlabelled_graph "X" None true = Raise KeyError)
    by (vm_compute; reflexivity).
  rewrite H in E; [discriminate|].
  exists {| node_id := 2; node_parent := None; node_style := None;
            node_properties := [("label", "X")] |}.
  split; [|reflexivity].
  vm_compute. right. left.
Qed.

(** C7 (amended): with [distinct] set, [createNode] returns the DUPLICATE
    sentinel and leaves the graph as it is when some node, whatever its
    parent, has the label, provided the nodes made before that node still
    have a label property; when every node has a label property and none
    has this label, a new node is made. *)
Theorem distinct_node_new g name parent :
  (forall pre n post,
      nodes g = pre ++ n :: post ->
      Forall (fun m => is_Some (Dict.get (node_properties m) "label")) pre ->
      Dict.get (node_properties n) "label" = Some name ->
      node_new g name parent true = Ok (DUPLICATE, g)) /\
  (Forall (fun m => exists lbl, Dict.get (node_properties m) "label" = Some lbl
                                /\ lbl <> name) (nodes g) ->
   exists g',
     node_new g name parent true = Ok (Node (length (nodes g)), g') /\
     nodes g' = nodes g ++ [{| node_id := id_counter g + 1;
                               node_parent := parent; node_style := None;
                               node_properties := [("label", name)] |}]).
Proof.
  split.
  - intros pre n post Hg Hpre Hn. unfold node_new. rewrite Hg.
    now rewrite (label_taken_found pre n post name Hpre Hn).
  - intros Hfresh. unfold node_new.
    rewrite (label_taken_fresh _ _ Hfresh). simpl. eexists. split; reflexivity.
Qed.

Lemma distinct_node_new_witness :
  node_new nested_graph "X" None true = Ok (DUPLICATE, nested_graph) /\
  exists g', node_new nested_graph "Y" (Some 2%nat) true = Ok (Node 4%nat, g').
Proof.
  split.
  - apply (proj1 (distinct_node_new nested_graph "X" None)
             (firstn 3 (nodes nested_graph))
             {| node_id := 4; node_parent := Some 1%nat; node_style := None;
                node_properties := [("label", "X")] |} []).
    + vm_compute. reflexivity.
    + vm_compute. repeat constructor; eexists; reflexivity.
    + vm_compute. reflexivity.
  - destruct (proj2 (distinct_node_new nested_graph "Y" (Some 2%nat)))
      as (g' & Hg' & _).
    + vm_compute. repeat constructor; eexists; (split; [reflexivity|discriminate]).
    + exists g'. exact Hg'.
Defined.

Lemma ids_sorted_from (l : list node) k :
  (forall i n, l !! i = Some n -> node_id n = Z.of_nat i + k) ->
  StronglySorted Z.lt (map node_id l) /\ Forall (fun z => k <= z) (map node_id l).
Proof.
  revert k. induction l as [|n l IH]; intros k H; simpl.
  - split; constructor.
  - destruct (IH (k + 1)) as [S1 F1].
    { intros i m Hi. rewrite (H (S i) m Hi). lia. }
    pose proof (H 0%nat n eq_refl) as Hn. simpl in Hn.
    split.
    + constructor; [assumption|].
      eapply Forall_impl; [exact F1|]. simpl. intros z Hz. lia.
    + constructor; [lia|].
      eapply Forall_impl; [exact F1|]. simpl. intros z Hz. lia.
Qed.

Lemma strictly_sorted_nodup (l : list Z) : StronglySorted Z.lt l -> NoDup l.
Proof.
  induction 1 as [|z l Hs IH Hall]; constructor; [|assumption].
  intros Hin. rewrite Forall_forall in Hall. specialize (Hall z Hin). lia.
Qed.

Lemma wf_ids_sorted g : wf g -> StronglySorted Z.lt (map node_id (nodes g)).
Proof.
  intros W. apply (ids_sorted_from (nodes g) 1). apply (wf_ids _ W).
Qed.

Lemma createNodes_spec calls : forall g,
  let ids := fst (createNodes g calls) in
  let g' := snd (createNodes g calls) in
  StronglySorted Z.lt ids /\
  Forall (fun z => id_counter g < z) ids /\
  map node_id (nodes g') = map node_id (nodes g) ++ ids /\
  (wf g -> wf g').
Proof.
  induction calls as [|[[name parent] distinct] calls IH]; intros g; simpl.
  - split; [constructor|]. split; [constructor|].
    split; [now rewrite app_nil_r|auto].
  - unfold newItem.
    destruct (node_new g name parent distinct) as [[it g1]|] eqn:E.
    + pose proof (fun W => wf_node_new _ _ _ _ _ _ W E) as W1.
      destruct (IH g1) as (S1 & F1 & M1 & W2).
      apply node_new_inv in E as [[-> ->]|[-> ->]]; simpl in *.
      * auto.
      * rewrite lookup_app_r by lia. rewrite Nat.sub_diag. simpl.
        split; [|split; [|split]].
        -- constructor; assumption.
        -- constructor; [lia|]. eapply Forall_impl; [exact F1|]. simpl. lia.
        -- rewrite M1, map_app. simpl. now rewrite <- app_assoc.
        -- auto.
    + apply IH.
Qed.

(** C9: the ids given to the nodes made by any sequence of [createNode]
    calls on a graph are strictly increasing in creation order, hence
    distinct; they extend the ids of the nodes the graph already had, and
    the ids of all the nodes of the graph stay strictly increasing and
    distinct. *)
Theorem node_ids_increasing g calls :
  wf g ->
  let ids := fst (createNodes g calls) in
  let g' := snd (createNodes g calls) in
  StronglySorted Z.lt ids /\ NoDup ids /\
  map node_id (nodes g') = map node_id (nodes g) ++ ids /\
  StronglySorted Z.lt (map node_id (nodes g')) /\
  NoDup (map node_id (nodes g')).
Proof.
  intros W. destruct (createNodes_spec calls g) as (S1 & _ & M1 & W1).
  simpl. split; [|split; [|split; [|split]]]; auto.
  - now apply strictly_sorted_nodup.
  - now apply wf_ids_sorted, W1.
  - now apply strictly_sorted_nodup, wf_ids_sorted, W1.
Qed.

Lemma nested_graph_wf : wf nested_graph.
Proof.
  apply (wf_run [NewItem "C" None false;
                 NewItem "n1" (Some 0%nat) false;
                 NewItem "n2" (Some 0%nat) false;
                 NewItem "X" (Some 1%nat) false]
           (empty_graph [("compound", "true")])).
  - apply wf_empty_graph.
  - vm_compute. reflexivity.
Qed.

Lemma node_ids_increasing_witness :
  fst (createNodes nested_graph
         [("a", None, false); ("X", None, true); ("b", Some 0%nat, true)])
  = [5; 6] /\
  StronglySorted Z.lt
    (fst (createNodes nested_graph
            [("a", None, false); ("X", None, true); ("b", Some 0%nat, true)])).
Proof.
  split; [vm_compute; reflexivity|].
  apply (node_ids_increasing nested_graph
           [("a", None, false); ("X", None, true); ("b", Some 0%nat, true)]).
  exact nested_graph_wf.
Defined.

(** ** Link creation *)

Lemma link_exists_alloc g l a b :
  wf g ->
  link_exists (set_link_objs g (link_objs g ++ [l])) a b = link_exists g a b.
Proof.
  intros W. unfold link_exists. simpl. apply find_link_alloc, (wf_links _ W).
Qed.

(** the stored links, the rest of the graph and the end points of the link
    dictionaries after [__link_new] *)
Lemma link_new_links g a b label cf ct h g' :
  wf g ->
  link_new g a b label cf ct = Ok (h, g') ->
  h = length (link_objs g) /\
  frame g' = frame g /\
  map ends (link_objs g') = map ends (link_objs g) ++ [(a, b, cf, ct)] /\
  links g' =
    (if smart_mode g then
       match link_exists g b a with
       | Some lt => list_remove lt (links g)
       | None => links g
       end
     else links g)
    ++ match link_exists g a b with
       | None => [h]
       | Some _ => []
       end.
Proof.
  intros W H. apply link_new_inv in H as (l & -> & He & _ & _ & H).
  assert (Hl : link_objs (set_link_objs g (link_objs g ++ [l]))
               !! length (link_objs g) = Some l).
  { simpl. rewrite lookup_app_r by lia. now rewrite Nat.sub_diag. }
  destruct (link_smart_inv _ _ _ _ Hl H) as (F & N & L).
  unfold ends in He. injection He as Ha Hb Hcf Hct.
  split; [reflexivity|]. split; [exact F|]. split.
  - rewrite N. simpl. rewrite map_app. simpl. unfold ends. now subst.
  - rewrite L. unfold smart_links. rewrite !link_exists_alloc by assumption.
    simpl. now subst.
Qed.

Lemma joins_alloc objs l a b r :
  (r < length objs)%nat -> joins (objs ++ [l]) a b r = joins objs a b r.
Proof. intros Hr. unfold joins. now rewrite lookup_app_l. Qed.

(** after [newLink(a, b)] a stored link joins [a] to [b]: the one that was
    there, or else the new one.  In smart mode this needs [a] and [b] to
    differ, since a second loop on a node removes the first and is not
    stored itself. *)
Lemma link_exists_after_link_new g a b label cf ct h g' :
  wf g -> smart_mode g = false \/ a <> b ->
  link_new g a b label cf ct = Ok (h, g') ->
  link_exists g' a b =
  Some (match link_exists g a b with Some r => r | None => h end).
Proof.
  intros W Hmode H.
  destruct (link_new_links _ _ _ _ _ _ _ _ W H) as (Hh & F & N & L).
  unfold link_exists at 1. rewrite L.
  rewrite (find_link_ends (link_objs g ++
             [{| from_node := a; to_node := b; link_style := None;
                 link_properties := []; cl_from_node := cf;
                 cl_to_node := ct |}]))
    by (rewrite N, map_app; reflexivity).
  set (objs := link_objs g ++ _).
  set (rs := if smart_mode g then
               match link_exists g b a with
               | Some lt => list_remove lt (links g)
               | None => links g
               end
             else links g).
  assert (Hsub : forall r, r ∈ rs -> r ∈ links g).
  { subst rs. destruct (smart_mode g); [|auto].
    destruct (link_exists g b a); [|auto]. intros r. apply list_remove_subset. }
  assert (Hrs : find_link objs rs a b = find_link objs (links g) a b).
  { subst rs. destruct (smart_mode g) eqn:Esm; [|reflexivity].
    destruct (link_exists g b a) as [lt|] eqn:Eto; [|reflexivity].
    apply find_link_remove.
    apply find_link_Some in Eto as (Hin & l & Hl & Hf & Ht).
    unfold joins, objs. rewrite lookup_app_l by (now apply (wf_links _ W)).
    rewrite Hl. apply bool_decide_eq_false_2. intros [A B].
    destruct Hmode as [?|Hne]; [discriminate|]. apply Hne. congruence. }
  assert (Hold : find_link objs (links g) a b = link_exists g a b).
  { apply find_link_alloc, (wf_links _ W). }
  destruct (link_exists g a b) as [r|] eqn:Efrom.
  - rewrite app_nil_r, Hrs, Hold. reflexivity.
  - rewrite find_link_snoc by (now rewrite Hrs, Hold).
    unfold joins, objs. rewrite Hh, lookup_app_r by lia.
    rewrite Nat.sub_diag. simpl. now rewrite bool_decide_eq_true_2.
Qed.

(** a well-formed graph stores at most one link per ordered pair *)
Lemma links_between_unique g a b r :
  wf g -> link_exists g a b = Some r -> links_between g a b = [r].
Proof.
  intros W H. unfold links_between.
  apply find_link_Some in H as (Hin & l & Hl & Hf & Ht).
  pose proof (wf_nodup _ W) as Hnd. pose proof (wf_unique _ W) as Hu.
  assert (Hall : forall x, In x (List.filter (joins (link_objs g) a b) (links g))
                           -> x = r).
  { intros x Hx. apply filter_In in Hx as [Hx Hj]. unfold joins in Hj.
    destruct (link_objs g !! x) as [lx|] eqn:Ex; [|discriminate].
    apply bool_decide_eq_true_1 in Hj as [A B].
    apply (Hu x r lx l); auto; try congruence. now apply list_elem_of_In. }
  assert (Hr : In r (List.filter (joins (link_objs g) a b) (links g))).
  { apply filter_In. split; [now apply list_elem_of_In|].
    unfold joins. rewrite Hl. now apply bool_decide_eq_true_2. }
  assert (Hnd' : List.NoDup (List.filter (joins (link_objs g) a b) (links g))).
  { apply List.NoDup_filter. now apply NoDup_ListNoDup. }
  destruct (List.filter (joins (link_objs g) a b) (links g)) as [|x [|y t]].
  - destruct Hr.
  - f_equal. apply Hall. now left.
  - exfalso. inversion Hnd' as [|? ? Hnot _]; subst. apply Hnot.
    rewrite (Hall x) by (now left). rewrite (Hall y) by (right; now left).
    now left.
Qed.

Lemma links_between_none g a b :
  link_exists g a b = None -> links_between g a b = [].
Proof.
  unfold link_exists, links_between. rewrite find_link_None.
  induction (links g) as [|r rs IH]; intros H; simpl; [reflexivity|].
  rewrite (H r) by left. apply IH. intros x Hx. apply H. now right.
Qed.

Lemma propertyAppend_link g r l k v :
  link_objs g !! r = Some l ->
  propertyAppend g (ELink r) k v =
  Ok (set_link_objs g
        (<[r := set_link_properties l (Dict.set (link_properties l) k v)]>
           (link_objs g))).
Proof.
  intros Hl. unfold propertyAppend, properties_of, get_link, store_properties.
  now rewrite Hl.
Qed.

Lemma propertyGet_link g r l k :
  link_objs g !! r = Some l ->
  propertyGet g (Some (ELink r)) k = Dict.get (link_properties l) k.
Proof.
  intros Hl. unfold propertyGet, properties_of, get_link. simpl.
  rewrite Hl. simpl. unfold Dict.getitem.
  now destruct (Dict.get (link_properties l) k).
Qed.

Lemma call_ok_frame g g' c :
  frame g' = frame g -> length (link_objs g') = length (link_objs g) ->
  call_ok g' c = call_ok g c.
Proof.
  intros F Hlen. apply frame_nodes in F.
  destruct c; simpl; unfold opt_node_ok, entity_ok, node_ok;
    rewrite ?F, ?Hlen; reflexivity.
Qed.

Lemma call_ok_NewLink_frame g g' a b label cf ct :
  frame g' = frame g ->
  call_ok g' (NewLink a b label cf ct) = call_ok g (NewLink a b label cf ct).
Proof.
  intros F. apply frame_nodes in F.
  simpl. unfold opt_node_ok, node_ok. now rewrite F.
Qed.

(** without smart mode [__link_new] never raises *)
Lemma link_new_plain_total g a b label cf ct :
  smart_mode g = false ->
  exists g', link_new g a b label cf ct = Ok (length (link_objs g), g').
Proof.
  intros Hs. unfold link_new, link_smart, get_link. simpl.
  rewrite lookup_app_r by lia. rewrite Nat.sub_diag. simpl. rewrite Hs. simpl.
  match goal with |- context [match ?x with None => _ | Some _ => _ end] =>
    destruct x end; simpl; eexists; reflexivity.
Qed.

(** ** Links without smart mode *)

(** C1, as the specification states it, fails: without smart mode the
    second [createLink] between the same two nodes is not stored.  In
    [nested_graph], which has no link, two calls leave one stored link. *)
Lemma plain_mode_counterexample :
  ~ (forall g a b h1 g1 h2 g2,
        smart_mode g = false ->
        newLink g a b None None None = Ok (h1, g1) ->
        newLink g1 a b None None None = Ok (h2, g2) ->
        links g2 = links g ++ [h1; h2]).
Proof.
  intros H.
  destruct (newLink nested_graph 1%nat 2%nat None None None)
    as [[h1 g1]|] eqn:E1; [|vm_compute in E1; discriminate].
  destruct (newLink g1 1%nat 2%nat None None None)
    as [[h2 g2]|] eqn:E2.
  - specialize (H nested_graph 1%nat 2%nat h1 g1 h2 g2 eq_refl E1 E2).
    vm_compute in E1. injection E1 as <- <-.
    vm_compute in E2. injection E2 as <- <-.
    vm_compute in H. discriminate.
  - vm_compute in E1. injection E1 as <- <-. vm_compute in E2. discriminate.
Qed.

(** C1 (amended): with smart mode disabled, [createLink] stores the new
    link only when no stored link already joins the same two nodes in the
    same direction.  Two successive [createLink(A, B)] calls both return,
    the second does not change [__links] and its link is not stored:
    exactly one stored link joins [A] to [B], the one that was there
    before or else the first of the two. *)
Theorem plain_mode_keeps_one_link g a b label cf ct label' cf' ct' :
  wf g -> smart_mode g = false ->
  call_ok g (NewLink a b label cf ct) = true ->
  call_ok g (NewLink a b label' cf' ct') = true ->
  exists h1 g1 h2 g2,
    newLink g a b label cf ct = Ok (h1, g1) /\
    newLink g1 a b label' cf' ct' = Ok (h2, g2) /\
    links g1 = links g ++ (match link_exists g a b with
                           | None => [h1]
                           | Some _ => []
                           end) /\
    links g2 = links g1 /\
    (h2 ∉ links g2) /\
    links_between g2 a b =
      [match link_exists g a b with Some r => r | None => h1 end].
Proof.
  intros W Hs Hok Hok'. unfold newLink.
  destruct (link_new_plain_total g a b label cf ct Hs) as (g1 & E1).
  pose proof (wf_link_new _ _ _ _ _ _ _ _ W Hok E1) as W1.
  destruct (link_new_links _ _ _ _ _ _ _ _ W E1) as (_ & F1 & N1 & L1).
  rewrite Hs in L1.
  pose proof (link_exists_after_link_new _ _ _ _ _ _ _ _ W (or_introl Hs) E1) as X1.
  assert (Hs1 : smart_mode g1 = false)
    by (now rewrite (frame_smart_mode _ _ F1)).
  destruct (link_new_plain_total g1 a b label' cf' ct' Hs1) as (g2 & E2).
  assert (Hok1 : call_ok g1 (NewLink a b label' cf' ct') = true)
    by (now rewrite (call_ok_NewLink_frame _ _ _ _ _ _ _ F1)).
  pose proof (wf_link_new _ _ _ _ _ _ _ _ W1 Hok1 E2) as W2.
  destruct (link_new_links _ _ _ _ _ _ _ _ W1 E2) as (_ & F2 & N2 & L2).
  rewrite Hs1, X1, app_nil_r in L2.
  pose proof (link_exists_after_link_new _ _ _ _ _ _ _ _ W1 (or_introl Hs1) E2) as X2.
  rewrite X1 in X2.
  exists (length (link_objs g)), g1, (length (link_objs g1)), g2.
  split; [exact E1|]. split; [exact E2|]. split; [exact L1|].
  split; [exact L2|]. split.
  - rewrite L2. intros Hin. apply (wf_links _ W1) in Hin. lia.
  - now apply links_between_unique.
Qed.

Lemma plain_mode_keeps_one_link_witness :
  exists h1 g1 h2 g2,
    newLink nested_graph 1%nat 2%nat None None None = Ok (h1, g1) /\
    newLink g1 1%nat 2%nat (Some "again") None None = Ok (h2, g2) /\
    links g1 = links nested_graph ++
               (match link_exists nested_graph 1%nat 2%nat with
                | None => [h1]
                | Some _ => []
                end) /\
    links g2 = links g1 /\
    (h2 ∉ links g2) /\
    links_between g2 1%nat 2%nat =
      [match link_exists nested_graph 1%nat 2%nat with
       | Some r => r
       | None => h1
       end].
Proof.
  apply (plain_mode_keeps_one_link nested_graph 1%nat 2%nat None None None
           (Some "again") None None).
  - exact nested_graph_wf.
  - reflexivity.
  - reflexivity.
  - reflexivity.
Defined.

(** ** Links in smart mode *)

Lemma truthy_nonempty s : s <> EmptyString -> truthy (Some s) = Some s.
Proof. destruct s; [congruence|reflexivity]. Qed.

(** the first request for a link: the new link gets the initial widths,
    and [dir=both] when a reverse link was stored; no other link
    dictionary changes *)
Lemma link_new_first g a b label cf ct :
  wf g -> smart_mode g = true -> link_exists g a b = None ->
  exists g',
    link_new g a b label cf ct = Ok (length (link_objs g), g') /\
    link_objs g' =
      link_objs g ++
      [set_link_properties (new_link a b label cf ct)
         (first_props g (link_properties (new_link a b label cf ct))
            (bool_decide (is_Some (link_exists g b a))))].
Proof.
  intros W Hs Hnone.
  unfold link_new. fold (new_link a b label cf ct).
  set (l := new_link a b label cf ct).
  set (h := length (link_objs g)).
  set (g0 := set_link_objs g (link_objs g ++ [l])).
  assert (Hl : link_objs g0 !! h = Some l).
  { simpl. rewrite lookup_app_r by (unfold h; lia).
    unfold h. now rewrite Nat.sub_diag. }
  assert (Ea : link_exists g0 a b = None).
  { unfold g0. now rewrite link_exists_alloc. }
  assert (Eb : link_exists g0 b a = link_exists g b a).
  { unfold g0. now rewrite link_exists_alloc. }
  unfold link_smart, get_link. rewrite Hl. simpl.
  rewrite Ea, Eb, Hs. unfold first_props.
  assert (Hins : forall x y : link,
             <[h := x]> (link_objs g ++ [y]) = link_objs g ++ [x]).
  { intros x y. unfold h. rewrite insert_app_r_alt by lia.
    now rewrite Nat.sub_diag. }
  assert (Hat : forall x : link, (link_objs g ++ [x]) !! h = Some x).
  { intros x. rewrite lookup_app_r by (unfold h; lia).
    unfold h. now rewrite Nat.sub_diag. }
  destruct (link_exists g b a) as [lt|] eqn:Eto.
  - rewrite (propertyAppend_link _ h l) by exact Hl. simpl.
    rewrite Hins. unfold smart_penwidth. simpl.
    erewrite propertyAppend_link by (simpl; apply Hat). simpl. rewrite Hins.
    unfold smart_arrowsize. simpl.
    erewrite propertyAppend_link by (simpl; apply Hat). simpl. rewrite Hins.
    eexists. split; reflexivity.
  - simpl. unfold smart_penwidth. simpl.
    rewrite (propertyAppend_link _ h l) by exact Hl. simpl. rewrite Hins.
    unfold smart_arrowsize. simpl.
    erewrite propertyAppend_link by (simpl; apply Hat). simpl. rewrite Hins.
    eexists. split; reflexivity.
Qed.

Lemma smart_penwidth_again g link r lr s x :
  link_objs g !! r = Some lr ->
  Dict.get (link_properties lr) "penwidth" = Some s -> s <> EmptyString ->
  float s = Ok x ->
  smart_penwidth g link (Some r) =
  Ok (if PyFloat.ltb (PyFloat.add x (line_factor g)) (max_line_width g)
      then set_link_objs g
             (<[r := set_link_properties lr
                       (Dict.set (link_properties lr) "penwidth"
                          (str (PyFloat.add x (line_factor g))))]>
                (link_objs g))
      else g).
Proof.
  intros Hr Hs Hne Hx. unfold smart_penwidth. simpl.
  rewrite (propertyGet_link _ _ _ _ Hr), Hs, (truthy_nonempty _ Hne), Hx. simpl.
  destruct (PyFloat.ltb _ _); [|reflexivity].
  now rewrite (propertyAppend_link _ _ _ _ _ Hr).
Qed.

Lemma smart_arrowsize_again g link r lr s y :
  link_objs g !! r = Some lr ->
  Dict.get (link_properties lr) "arrowsize" = Some s -> s <> EmptyString ->
  float s = Ok y ->
  smart_arrowsize g link (Some r) =
  Ok (if PyFloat.ltb y (max_arrow_width g)
      then set_link_objs g
             (<[r := set_link_properties lr
                       (Dict.set (link_properties lr) "arrowsize"
                          (str (PyFloat.add y (arrow_factor g))))]>
                (link_objs g))
      else g).
Proof.
  intros Hr Hs Hne Hy. unfold smart_arrowsize. simpl.
  rewrite (propertyGet_link _ _ _ _ Hr), Hs, (truthy_nonempty _ Hne), Hy. simpl.
  destruct (PyFloat.ltb _ _); [|reflexivity].
  now rewrite (propertyAppend_link _ _ _ _ _ Hr).
Qed.

(** one more request for a stored link: the stored link gets [thicker]
    properties *)
Lemma link_new_again g a b label cf ct r lr s s' x y :
  wf g -> smart_mode g = true ->
  link_exists g a b = Some r -> link_objs g !! r = Some lr ->
  Dict.get (link_properties lr) "penwidth" = Some s -> s <> EmptyString ->
  float s = Ok x ->
  Dict.get (link_properties lr) "arrowsize" = Some s' -> s' <> EmptyString ->
  float s' = Ok y ->
  exists g',
    link_new g a b label cf ct = Ok (length (link_objs g), g') /\
    link_objs g' !! r =
      Some (set_link_properties lr (thicker g (link_properties lr) x y)).
Proof.
  intros W Hs Hsome Hr Hpw Hpwne Hx Haw Hawne Hy.
  unfold link_new. fold (new_link a b label cf ct).
  set (l := new_link a b label cf ct).
  set (h := length (link_objs g)).
  set (g0 := set_link_objs g (link_objs g ++ [l])).
  assert (Hlt : (r < h)%nat).
  { apply find_link_Some in Hsome as [Hin _]. now apply (wf_links _ W). }
  assert (Hl : link_objs g0 !! h = Some l).
  { simpl. rewrite lookup_app_r by (unfold h; lia).
    unfold h. now rewrite Nat.sub_diag. }
  assert (Ea : link_exists g0 a b = Some r).
  { unfold g0. now rewrite link_exists_alloc. }
  assert (Eb : link_exists g0 b a = link_exists g b a).
  { unfold g0. now rewrite link_exists_alloc. }
  unfold link_smart, get_link. rewrite Hl. simpl. rewrite Ea, Eb, Hs.
  assert (Hdir : exists g1,
             match link_exists g b a with
             | Some lt =>
                 propertyAppend (set_links g0 (list_remove lt (links g)))
                   (ELink h) "dir" "both"
             | None => Ok g0
             end = Ok g1 /\
             link_objs g1 !! r = Some lr /\
             line_factor g1 = line_factor g /\
             max_line_width g1 = max_line_width g /\
             arrow_factor g1 = arrow_factor g /\
             max_arrow_width g1 = max_arrow_width g).
  { destruct (link_exists g b a) as [lt|].
    - rewrite (propertyAppend_link _ h l) by exact Hl.
      eexists. split; [reflexivity|]. simpl.
      rewrite list_lookup_insert_ne by lia.
      rewrite lookup_app_l by (fold h; lia). auto.
    - exists g0. split; [reflexivity|]. simpl.
      rewrite lookup_app_l by (fold h; lia). auto. }
  destruct Hdir as (g1 & -> & Hr1 & C1 & C2 & C3 & C4). simpl.
  rewrite (smart_penwidth_again g1 h r lr s x Hr1 Hpw Hpwne Hx). simpl.
  rewrite C1, C2.
  set (p := if PyFloat.ltb (PyFloat.add x (line_factor g)) (max_line_width g)
            then Dict.set (link_properties lr) "penwidth"
                   (str (PyFloat.add x (line_factor g)))
            else link_properties lr).
  assert (Hpen : exists g2,
             (if PyFloat.ltb (PyFloat.add x (line_factor g)) (max_line_width g)
              then set_link_objs g1
                     (<[r := set_link_properties lr
                               (Dict.set (link_properties lr) "penwidth"
                                  (str (PyFloat.add x (line_factor g))))]>
                        (link_objs g1))
              else g1) = g2 /\
             link_objs g2 !! r = Some (set_link_properties lr p) /\
             arrow_factor g2 = arrow_factor g /\
             max_arrow_width g2 = max_arrow_width g).
  { subst p. destruct (PyFloat.ltb _ _).
    - eexists. split; [reflexivity|]. simpl.
      rewrite list_lookup_insert_eq by (now apply lookup_lt_Some in Hr1). auto.
    - exists g1. split; [reflexivity|]. split; [|auto].
      rewrite Hr1. now destruct lr. }
  destruct Hpen as (g2 & -> & Hr2 & C5 & C6).
  assert (Haw2 : Dict.get (link_properties (set_link_properties lr p)) "arrowsize"
                 = Some s').
  { simpl. subst p. destruct (PyFloat.ltb _ _); [|exact Haw].
    rewrite dict_get_set_ne by discriminate. exact Haw. }
  rewrite (smart_arrowsize_again g2 h r _ s' y Hr2 Haw2 Hawne Hy). simpl.
  rewrite C5, C6. eexists. split; [reflexivity|].
  unfold thicker. fold p.
  destruct (PyFloat.ltb y (max_arrow_width g)); simpl.
  - rewrite list_lookup_insert_eq by (now apply lookup_lt_Some in Hr2).
    reflexivity.
  - exact Hr2.
Qed.

Lemma frame_widths g g' :
  frame g' = frame g ->
  line_factor g' = line_factor g /\ max_line_width g' = max_line_width g /\
  initial_line_width g' = initial_line_width g /\
  arrow_factor g' = arrow_factor g /\ max_arrow_width g' = max_arrow_width g /\
  initial_arrow_width g' = initial_arrow_width g.
Proof.
  intros H. repeat split.
  - exact (f_equal line_factor H).
  - exact (f_equal max_line_width H).
  - exact (f_equal initial_line_width H).
  - exact (f_equal arrow_factor H).
  - exact (f_equal max_arrow_width H).
  - exact (f_equal initial_arrow_width H).
Qed.

Lemma first_props_penwidth g base rev :
  Dict.get (first_props g base rev) "penwidth" = Some (str (initial_line_width g)).
Proof.
  unfold first_props. rewrite dict_get_set_ne by discriminate.
  apply dict_get_set_eq.
Qed.

Lemma first_props_arrowsize g base rev :
  Dict.get (first_props g base rev) "arrowsize" = Some (str (initial_arrow_width g)).
Proof. unfold first_props. apply dict_get_set_eq. Qed.

Lemma first_props_dir g base :
  Dict.get (first_props g base true) "dir" = Some "both".
Proof.
  unfold first_props. rewrite !dict_get_set_ne by discriminate.
  apply dict_get_set_eq.
Qed.

Lemma thicker_penwidth g props x y :
  Dict.get (thicker g props x y) "penwidth" =
  if PyFloat.ltb (PyFloat.add x (line_factor g)) (max_line_width g)
  then Some (str (PyFloat.add x (line_factor g)))
  else Dict.get props "penwidth".
Proof.
  unfold thicker.
  destruct (PyFloat.ltb y (max_arrow_width g));
    rewrite ?dict_get_set_ne by discriminate;
    destruct (PyFloat.ltb _ _); auto using dict_get_set_eq.
Qed.

Lemma thicker_arrowsize g props x y :
  Dict.get (thicker g props x y) "arrowsize" =
  if PyFloat.ltb y (max_arrow_width g)
  then Some (str (PyFloat.add y (arrow_factor g)))
  else Dict.get props "arrowsize".
Proof.
  unfold thicker.
  destruct (PyFloat.ltb y (max_arrow_width g)).
  - apply dict_get_set_eq.
  - destruct (PyFloat.ltb _ _); [|reflexivity].
    now rewrite dict_get_set_ne by discriminate.
Qed.

Lemma length_after_link_new (objs objs' : list link) e :
  map ends objs' = map ends objs ++ [e] -> length objs' = S (length objs).
Proof.
  intros H. apply (f_equal (@length _)) in H.
  rewrite length_app, !length_map in H. simpl in H. lia.
Qed.

(** the first request for a link between two different nodes, with its
    bookkeeping *)
Lemma smart_first_step g a b label cf ct :
  wf g -> smart_mode g = true -> a <> b ->
  call_ok g (NewLink a b label cf ct) = true ->
  link_exists g a b = None ->
  exists g',
    link_new g a b label cf ct = Ok (length (link_objs g), g') /\
    wf g' /\ frame g' = frame g /\
    length (link_objs g') = S (length (link_objs g)) /\
    link_exists g' a b = Some (length (link_objs g)) /\
    links g' = match link_exists g b a with
               | Some lt => list_remove lt (links g)
               | None => links g
               end ++ [length (link_objs g)] /\
    link_objs g' !! length (link_objs g) =
      Some (set_link_properties (new_link a b label cf ct)
              (first_props g (link_properties (new_link a b label cf ct))
                 (bool_decide (is_Some (link_exists g b a))))).
Proof.
  intros W Hs Hne Hok Hnone.
  destruct (link_new_first g a b label cf ct W Hs Hnone) as (g' & E & Hobjs).
  exists g'. split; [exact E|].
  destruct (link_new_links _ _ _ _ _ _ _ _ W E) as (_ & F & N & L).
  pose proof (link_exists_after_link_new _ _ _ _ _ _ _ _ W (or_intror Hne) E) as X.
  rewrite Hnone in X, L. rewrite Hs in L.
  split; [eapply wf_link_new; eauto|]. split; [exact F|].
  split; [now apply length_after_link_new in N|]. split; [exact X|].
  split; [exact L|].
  rewrite Hobjs, lookup_app_r by lia. now rewrite Nat.sub_diag.
Qed.

(** one more request for a link between two different nodes, with its
    bookkeeping *)
Lemma smart_again_step g a b label cf ct r lr s s' x y :
  wf g -> smart_mode g = true -> a <> b ->
  call_ok g (NewLink a b label cf ct) = true ->
  link_exists g a b = Some r -> link_objs g !! r = Some lr ->
  Dict.get (link_properties lr) "penwidth" = Some s -> s <> EmptyString ->
  float s = Ok x ->
  Dict.get (link_properties lr) "arrowsize" = Some s' -> s' <> EmptyString ->
  float s' = Ok y ->
  exists g',
    link_new g a b label cf ct = Ok (length (link_objs g), g') /\
    wf g' /\ frame g' = frame g /\
    length (link_objs g') = S (length (link_objs g)) /\
    link_exists g' a b = Some r /\
    (forall h, h ∈ links g' -> h ∈ links g) /\
    link_objs g' !! r =
      Some (set_link_properties lr (thicker g (link_properties lr) x y)).
Proof.
  intros W Hs Hne Hok Hsome Hr Hpw Hpwne Hx Haw Hawne Hy.
  destruct (link_new_again g a b label cf ct r lr s s' x y)
    as (g' & E & Hobj); auto.
  exists g'. split; [exact E|].
  destruct (link_new_links _ _ _ _ _ _ _ _ W E) as (_ & F & N & L).
  pose proof (link_exists_after_link_new _ _ _ _ _ _ _ _ W (or_intror Hne) E) as X.
  rewrite Hsome in X, L. rewrite Hs, app_nil_r in L.
  split; [eapply wf_link_new; eauto|]. split; [exact F|].
  split; [now apply length_after_link_new in N|]. split; [exact X|].
  split; [|exact Hobj].
  intros h Hin. rewrite L in Hin.
  destruct (link_exists g b a); [eapply list_remove_subset|]; eassumption.
Qed.

(** ** The default widths, step by step *)

Lemma str_initial_line_width : str (f_lit 12 (-1)) = "1.2".
Proof. vm_compute. reflexivity. Qed.

Lemma str_initial_arrow_width : str (f_lit 8 (-1)) = "0.8".
Proof. vm_compute. reflexivity. Qed.

Lemma penwidth_second :
  float "1.2" = Ok (f_lit 12 (-1)) /\
  PyFloat.ltb (PyFloat.add (f_lit 12 (-1)) (f_lit 1 0)) (f_lit 10 0) = true /\
  str (PyFloat.add (f_lit 12 (-1)) (f_lit 1 0)) = "2.2".
Proof. vm_compute. repeat split. Qed.

Lemma penwidth_third :
  float "2.2" = Ok (f_lit 22 (-1)) /\
  PyFloat.ltb (PyFloat.add (f_lit 22 (-1)) (f_lit 1 0)) (f_lit 10 0) = true /\
  str (PyFloat.add (f_lit 22 (-1)) (f_lit 1 0)) = "3.2".
Proof. vm_compute. repeat split. Qed.

Lemma arrowsize_second :
  float "0.8" = Ok (f_lit 8 (-1)) /\
  PyFloat.ltb (f_lit 8 (-1)) (f_lit 2 0) = true /\
  str (PyFloat.add (f_lit 8 (-1)) (f_lit 5 (-1))) = "1.3".
Proof. vm_compute. repeat split. Qed.

Lemma arrowsize_third :
  float "1.3" = Ok (f_lit 13 (-1)) /\
  PyFloat.ltb (f_lit 13 (-1)) (f_lit 2 0) = true /\
  str (PyFloat.add (f_lit 13 (-1)) (f_lit 5 (-1))) = "1.8".
Proof. vm_compute. repeat split. Qed.

Lemma arrowsize_fourth :
  float "1.8" = Ok (f_lit 18 (-1)) /\
  PyFloat.ltb (f_lit 18 (-1)) (f_lit 2 0) = true /\
  str (PyFloat.add (f_lit 18 (-1)) (f_lit 5 (-1))) = "2.3".
Proof. vm_compute. repeat split. Qed.

(** ** Repeated requests for one link *)

(** C5: in smart mode with step 1, initial pen width 1.2 and cap 10 (and
    the arrow widths that the constructor sets), three calls
    [createLink(A, B)] for two different nodes that no stored link joins
    from [A] to [B] all return, and leave exactly one stored link from [A]
    to [B], the one made by the first call, whose [penwidth] property is
    ["3.2"]; the links made by the second and third call are not stored. *)
Theorem three_requests_one_link g a b :
  wf g -> smart_mode g = true -> line_defaults g -> arrow_defaults g ->
  a <> b -> node_ok g a = true -> node_ok g b = true ->
  link_exists g a b = None ->
  exists h1 g1 h2 g2 h3 g3 l,
    newLink g a b None None None = Ok (h1, g1) /\
    newLink g1 a b None None None = Ok (h2, g2) /\
    newLink g2 a b None None None = Ok (h3, g3) /\
    links_between g3 a b = [h1] /\
    link_objs g3 !! h1 = Some l /\
    from_node l = a /\ to_node l = b /\
    Dict.get (link_properties l) "penwidth" = Some "3.2" /\
    (h2 ∉ links g3) /\ (h3 ∉ links g3).
Proof.
  intros W Hs (HL1 & HL2 & HL3) (HA1 & HA2 & HA3) Hne Ha Hb Hnone.
  assert (Hok : call_ok g (NewLink a b None None None) = true).
  { simpl. now rewrite Ha, Hb. }
  unfold newLink.
  (* first call *)
  destruct (smart_first_step g a b None None None W Hs Hne Hok Hnone)
    as (g1 & E1 & W1 & F1 & Len1 & X1 & _ & O1).
  set (h1 := length (link_objs g)) in *.
  set (l1 := set_link_properties (new_link a b None None None)
               (first_props g (link_properties (new_link a b None None None))
                  (bool_decide (is_Some (link_exists g b a))))) in *.
  destruct (frame_widths _ _ F1) as (A1 & A2 & A3 & A4 & A5 & A6).
  assert (Hs1 : smart_mode g1 = true) by (now rewrite (frame_smart_mode _ _ F1)).
  assert (Hok1 : call_ok g1 (NewLink a b None None None) = true)
    by (now rewrite (call_ok_NewLink_frame _ _ _ _ _ _ _ F1)).
  destruct penwidth_second as (P1 & P2 & P3).
  destruct arrowsize_second as (Q1 & Q2 & Q3).
  (* second call *)
  assert (Hpw1 : Dict.get (link_properties l1) "penwidth" = Some "1.2").
  { unfold l1. simpl. now rewrite first_props_penwidth, HL2, str_initial_line_width. }
  assert (Haw1 : Dict.get (link_properties l1) "arrowsize" = Some "0.8").
  { unfold l1. simpl. now rewrite first_props_arrowsize, HA2, str_initial_arrow_width. }
  assert (N12 : "1.2" <> EmptyString) by discriminate.
  assert (N08 : "0.8" <> EmptyString) by discriminate.
  destruct (smart_again_step g1 a b None None None h1 l1 "1.2" "0.8"
              (f_lit 12 (-1)) (f_lit 8 (-1)) W1 Hs1 Hne Hok1 X1 O1
              Hpw1 N12 P1 Haw1 N08 Q1)
    as (g2 & E2 & W2 & F2 & Len2 & X2 & Hfresh2 & O2).
  set (l2 := set_link_properties l1
               (thicker g1 (link_properties l1) (f_lit 12 (-1)) (f_lit 8 (-1)))) in *.
  destruct (frame_widths _ _ F2) as (B1 & B2 & B3 & B4 & B5 & B6).
  assert (Hs2 : smart_mode g2 = true) by (now rewrite (frame_smart_mode _ _ F2)).
  assert (Hok2 : call_ok g2 (NewLink a b None None None) = true)
    by (now rewrite (call_ok_NewLink_frame _ _ _ _ _ _ _ F2)).
  destruct penwidth_third as (P4 & P5 & P6).
  destruct arrowsize_third as (Q4 & Q5 & Q6).
  (* third call *)
  assert (Hpw2 : Dict.get (link_properties l2) "penwidth" = Some "2.2").
  { unfold l2. simpl. rewrite thicker_penwidth, A1, A2, HL1, HL3, P2, P3.
    reflexivity. }
  assert (Haw2 : Dict.get (link_properties l2) "arrowsize" = Some "1.3").
  { unfold l2. simpl. rewrite thicker_arrowsize, A4, A5, HA1, HA3, Q2, Q3.
    reflexivity. }
  assert (N22 : "2.2" <> EmptyString) by discriminate.
  assert (N13 : "1.3" <> EmptyString) by discriminate.
  destruct (smart_again_step g2 a b None None None h1 l2 "2.2" "1.3"
              (f_lit 22 (-1)) (f_lit 13 (-1)) W2 Hs2 Hne Hok2 X2 O2
              Hpw2 N22 P4 Haw2 N13 Q4)
    as (g3 & E3 & W3 & F3 & Len3 & X3 & Hfresh3 & O3).
  exists h1, g1, (length (link_objs g1)), g2, (length (link_objs g2)), g3.
  eexists. split; [exact E1|]. split; [exact E2|]. split; [exact E3|].
  split; [now apply links_between_unique|]. split; [exact O3|].
  split; [reflexivity|]. split; [reflexivity|]. split.
  - simpl. rewrite thicker_penwidth, B1, B2, A1, A2, HL1, HL3, P5, P6.
    reflexivity.
  - split; intros Hin; apply Hfresh3 in Hin.
    + apply Hfresh2 in Hin. apply (wf_links _ W1) in Hin. lia.
    + apply (wf_links _ W2) in Hin. lia.
Qed.

Lemma smart_graph_wf : wf smart_graph.
Proof.
  apply (wf_run [SmartMode true; NewItem "A" None false; NewItem "B" None false]
           (empty_graph [("compound", "true")])).
  - apply wf_empty_graph.
  - vm_compute. reflexivity.
Qed.

Lemma three_requests_one_link_witness :
  exists h1 g1 h2 g2 h3 g3 l,
    newLink smart_graph 0%nat 1%nat None None None = Ok (h1, g1) /\
    newLink g1 0%nat 1%nat None None None = Ok (h2, g2) /\
    newLink g2 0%nat 1%nat None None None = Ok (h3, g3) /\
    links_between g3 0%nat 1%nat = [h1] /\
    link_objs g3 !! h1 = Some l /\
    from_node l = 0%nat /\ to_node l = 1%nat /\
    Dict.get (link_properties l) "penwidth" = Some "3.2" /\
    (h2 ∉ links g3) /\ (h3 ∉ links g3).
Proof.
  apply (three_requests_one_link smart_graph 0%nat 1%nat).
  - exact smart_graph_wf.
  - reflexivity.
  - repeat split.
  - repeat split.
  - lia.
  - reflexivity.
  - reflexivity.
  - reflexivity.
Defined.

(** ** A request for the reverse of a stored link *)

Lemma list_remove_snoc x l : x ∉ l -> list_remove x (l ++ [x]) = l.
Proof.
  induction l as [|y l IH]; simpl; intros H.
  - now destruct (decide (x = x)).
  - destruct (decide (y = x)) as [->|Hne].
    + exfalso. apply H. left.
    + f_equal. apply IH. intros Hx. apply H. now right.
Qed.

(** a pair of end points that no stored link joins stays so when a link
    between other end points is requested *)
Lemma link_exists_none_after g a b label cf ct h g' c d :
  wf g -> link_new g a b label cf ct = Ok (h, g') ->
  link_exists g c d = None -> ~ (a = c /\ b = d) ->
  link_exists g' c d = None.
Proof.
  intros W E Hnone Hne.
  destruct (link_new_links _ _ _ _ _ _ _ _ W E) as (Hh & F & N & L).
  unfold link_exists in *. rewrite find_link_None in *.
  intros r Hr. rewrite L in Hr.
  rewrite (joins_ends (link_objs g ++ [new_link a b None cf ct]))
    by (rewrite N, map_app; reflexivity).
  apply elem_of_app in Hr as [Hr|Hr].
  - assert (Hin : r ∈ links g).
    { destruct (smart_mode g); [|exact Hr].
      destruct (find_link (link_objs g) (links g) b a); [|exact Hr].
      eapply list_remove_subset, Hr. }
    rewrite joins_alloc by (now apply (wf_links _ W)). now apply Hnone.
  - destruct (find_link (link_objs g) (links g) a b); [inversion Hr|].
    apply list_elem_of_singleton in Hr as ->.
    unfold joins. rewrite Hh, lookup_app_r by lia. rewrite Nat.sub_diag. simpl.
    now apply bool_decide_eq_false_2.
Qed.

(** in smart mode a request for a link from [b] to [a] leaves no stored
    link from [a] to [b] *)
Lemma reverse_absent_after_link_new g a b label cf ct h g' :
  wf g -> smart_mode g = true -> a <> b ->
  link_new g b a label cf ct = Ok (h, g') ->
  link_exists g' a b = None.
Proof.
  intros W Hs Hne E.
  destruct (link_new_links _ _ _ _ _ _ _ _ W E) as (Hh & F & N & L).
  rewrite Hs in L.
  unfold link_exists. rewrite find_link_None.
  intros r Hr. rewrite L in Hr.
  rewrite (joins_ends (link_objs g ++ [new_link b a None cf ct]))
    by (rewrite N, map_app; reflexivity).
  apply elem_of_app in Hr as [Hr|Hr].
  - destruct (link_exists g a b) as [lt|] eqn:Eab.
    + assert (Hin : r ∈ links g) by (eapply list_remove_subset, Hr).
      rewrite joins_alloc by (now apply (wf_links _ W)).
      destruct (joins (link_objs g) a b r) eqn:Ej; [|reflexivity].
      exfalso. unfold joins in Ej.
      destruct (link_objs g !! r) as [lr|] eqn:Er; [|discriminate].
      apply bool_decide_eq_true_1 in Ej as [A B].
      apply find_link_Some in Eab as (Hlt & l & Hl & A' & B').
      assert (r = lt) as ->.
      { apply (wf_unique _ W r lt lr l); auto; congruence. }
      revert Hr. apply list_remove_gone, (wf_nodup _ W).
    + rewrite joins_alloc by (now apply (wf_links _ W)).
      unfold link_exists in Eab. rewrite find_link_None in Eab. now apply Eab.
  - destruct (link_exists g b a); [inversion Hr|].
    apply list_elem_of_singleton in Hr as ->.
    unfold joins. rewrite Hh, lookup_app_r by lia. rewrite Nat.sub_diag. simpl.
    apply bool_decide_eq_false_2. intros [A B]. now apply Hne.
Qed.

(** C2, as the specification states it, fails: after [createLink(A, B)]
    and [createLink(B, A)] in smart mode the stored link is the second
    one, from [B] to [A]; no link from [A] to [B] is stored. *)
Lemma reverse_request_counterexample :
  ~ (forall g a b h1 g1 h2 g2,
        smart_mode g = true -> a <> b ->
        newLink g a b None None None = Ok (h1, g1) ->
        newLink g1 b a None None None = Ok (h2, g2) ->
        links_between g2 a b = [h1] /\ links_between g2 b a = []).
Proof.
  intros H.
  destruct (newLink smart_graph 0%nat 1%nat None None None)
    as [[h1 g1]|] eqn:E1; [|vm_compute in E1; discriminate].
  destruct (newLink g1 1%nat 0%nat None None None) as [[h2 g2]|] eqn:E2.
  - assert (Hne : 0%nat <> 1%nat) by lia.
    destruct (H smart_graph 0%nat 1%nat h1 g1 h2 g2 eq_refl Hne E1 E2) as [H1 _].
    vm_compute in E1. injection E1 as <- <-.
    vm_compute in E2. injection E2 as <- <-.
    vm_compute in H1. discriminate.
  - vm_compute in E1. injection E1 as <- <-. vm_compute in E2. discriminate.
Qed.

(** C2 (amended): in smart mode, for two different nodes that no stored
    link joins, creating a link [A] to [B] and then a link [B] to [A]
    leaves exactly one stored link between them, the second one: it goes
    from [B] to [A] and carries [dir="both"]; the link from [A] to [B] has
    been removed from storage. *)
Theorem reverse_request_absorbs g a b :
  wf g -> smart_mode g = true -> a <> b ->
  node_ok g a = true -> node_ok g b = true ->
  link_exists g a b = None -> link_exists g b a = None ->
  exists h1 g1 h2 g2 l,
    newLink g a b None None None = Ok (h1, g1) /\
    newLink g1 b a None None None = Ok (h2, g2) /\
    links g2 = links g ++ [h2] /\
    link_objs g2 !! h2 = Some l /\
    from_node l = b /\ to_node l = a /\
    Dict.get (link_properties l) "dir" = Some "both" /\
    links_between g2 b a = [h2] /\
    links_between g2 a b = [] /\
    (h1 ∉ links g2).
Proof.
  intros W Hs Hne Ha Hb Hab Hba.
  assert (Hok : call_ok g (NewLink a b None None None) = true).
  { simpl. now rewrite Ha, Hb. }
  assert (Hok' : call_ok g (NewLink b a None None None) = true).
  { simpl. now rewrite Ha, Hb. }
  unfold newLink.
  destruct (smart_first_step g a b None None None W Hs Hne Hok Hab)
    as (g1 & E1 & W1 & F1 & Len1 & X1 & L1 & O1).
  rewrite Hba in L1.
  assert (Hs1 : smart_mode g1 = true) by (now rewrite (frame_smart_mode _ _ F1)).
  assert (Hok1 : call_ok g1 (NewLink b a None None None) = true)
    by (now rewrite (call_ok_NewLink_frame _ _ _ _ _ _ _ F1)).
  assert (Hba1 : link_exists g1 b a = None).
  { apply (link_exists_none_after g a b None None None _ g1 b a W E1 Hba).
    intros [A B]. now apply Hne. }
  assert (Hne' : b <> a) by (intros ->; now apply Hne).
  destruct (smart_first_step g1 b a None None None W1 Hs1 Hne' Hok1 Hba1)
    as (g2 & E2 & W2 & F2 & Len2 & X2 & L2 & O2).
  rewrite X1 in L2, O2.
  assert (Hfresh : length (link_objs g) ∉ links g).
  { intros Hin. apply (wf_links _ W) in Hin. lia. }
  rewrite L1, list_remove_snoc in L2 by exact Hfresh.
  exists (length (link_objs g)), g1, (length (link_objs g1)), g2.
  eexists. split; [exact E1|]. split; [exact E2|]. split; [exact L2|].
  split; [exact O2|]. split; [reflexivity|]. split; [reflexivity|]. split.
  - simpl. reflexivity.
  - split; [now apply links_between_unique|]. split.
    + apply links_between_none.
      exact (reverse_absent_after_link_new g1 a b None None None _ g2
               W1 Hs1 Hne E2).
    + rewrite L2. intros Hin. apply elem_of_app in Hin as [Hin|Hin].
      * contradiction.
      * apply list_elem_of_singleton in Hin. lia.
Qed.

Lemma reverse_request_absorbs_witness :
  exists h1 g1 h2 g2 l,
    newLink smart_graph 0%nat 1%nat None None None = Ok (h1, g1) /\
    newLink g1 1%nat 0%nat None None None = Ok (h2, g2) /\
    links g2 = links smart_graph ++ [h2] /\
    link_objs g2 !! h2 = Some l /\
    from_node l = 1%nat /\ to_node l = 0%nat /\
    Dict.get (link_properties l) "dir" = Some "both" /\
    links_between g2 1%nat 0%nat = [h2] /\
    links_between g2 0%nat 1%nat = [] /\
    (h1 ∉ links g2).
Proof.
  apply (reverse_request_absorbs smart_graph 0%nat 1%nat).
  - exact smart_graph_wf.
  - reflexivity.
  - lia.
  - reflexivity.
  - reflexivity.
  - reflexivity.
  - reflexivity.
Defined.

(** ** The arrow size and its bound *)

(** C4 (the code at the failing input): with the default widths, the
    fourth [createLink(A, B)] in smart mode leaves the stored link with
    [arrowsize="2.3"], above [max_arrow_width = 2].  [__link_smart] tests
    the arrow size against the bound before it adds the step, whereas it
    tests the pen width after adding the step. *)
Theorem arrowsize_exceeds_max_arrow_width :
  exists l,
    run smart_graph [NewLink 0%nat 1%nat None None None;
                     NewLink 0%nat 1%nat None None None;
                     NewLink 0%nat 1%nat None None None;
                     NewLink 0%nat 1%nat None None None] = Ok four_requests /\
    links four_requests = [0%nat] /\
    link_objs four_requests !! 0%nat = Some l /\
    Dict.get (link_properties l) "arrowsize" = Some "2.3" /\
    float "2.3" = Ok (f_lit 23 (-1)) /\
    PyFloat.ltb (max_arrow_width four_requests) (f_lit 23 (-1)) = true.
Proof.
  exists {| from_node := 0%nat; to_node := 1%nat; link_style := None;
            link_properties := [("penwidth", "4.2"); ("arrowsize", "2.3")];
            cl_from_node := None; cl_to_node := None |}.
  vm_compute. repeat split.
Qed.

(** ** What the serializer reads *)

Lemma fold_left_ext {A B} (f f' : A -> B -> A) (l : list B) (a : A) :
  (forall acc x, f acc x = f' acc x) -> fold_left f l a = fold_left f' l a.
Proof.
  intros H. revert a. induction l as [|x l IH]; intros a; simpl; [reflexivity|].
  now rewrite H, IH.
Qed.

(** [trace] does not look at the links *)
Lemma trace_set_link_objs fuel g objs : forall r level,
  trace fuel (set_link_objs g objs) r level = trace fuel g r level.
Proof.
  induction fuel as [|fuel IH]; intros r level; [reflexivity|].
  cbn [trace].
  change (get_node (set_link_objs g objs) r) with (get_node g r).
  destruct (get_node g r) as [n|]; [|reflexivity]. cbn [bind].
  change (has_children (set_link_objs g objs) r) with (has_children g r).
  destruct (has_children g r) as [|c cs].
  - reflexivity.
  - change (propertiesAsStringGet (set_link_objs g objs) r (node_properties n) (level + 1))
      with (propertiesAsStringGet g r (node_properties n) (level + 1)).
    destruct (propertiesAsStringGet g r (node_properties n) (level + 1));
      [|reflexivity].
    cbn [bind].
    rewrite (fold_left_ext _
               (fun acc child =>
                  out <- acc ;;
                  t <- trace fuel g child (level + 1) ;;
                  Ok (out +:+ t))).
    + reflexivity.
    + intros acc x. now rewrite IH.
Qed.

(** [dotLinks] reads the link dictionaries of the stored links only *)
Lemma dotLinks_loop_set_link_objs g objs rs n :
  (forall r, r ∈ rs -> objs !! r = link_objs g !! r) ->
  dotLinks_loop (set_link_objs g objs) rs n = dotLinks_loop g rs n.
Proof.
  induction rs as [|r rs IH]; intros H; [reflexivity|].
  cbn [dotLinks_loop]. unfold get_link. cbn [link_objs set_link_objs].
  rewrite (H r) by left.
  destruct (link_objs g !! r) as [l|]; [|reflexivity]. cbn [bind].
  change (dotLink (set_link_objs g objs) l) with (dotLink g l).
  rewrite IH by (intros; apply H; now right). reflexivity.
Qed.

(** the text of [dot] depends on the link dictionaries of the stored
    links only *)
Lemma dot_set_link_objs g objs :
  (forall r, r ∈ links g -> objs !! r = link_objs g !! r) ->
  dot (set_link_objs g objs) = dot g.
Proof.
  intros H. unfold dot. cbn [options padding_str nodes set_link_objs].
  rewrite (fold_left_ext _
             (fun acc r =>
                out <- acc ;;
                match nodes g !! r with
                | Some e =>
                    match node_parent e with
                    | None =>
                        t <- trace (S (length (nodes g))) g r 1 ;;
                        Ok (out +:+ t)
                    | Some _ => Ok out
                    end
                | None => Ok out
                end)).
  - rewrite (fold_left_ext
               (fun acc r =>
                  out <- acc ;;
                  t <- dotLinks (set_link_objs g objs) r ;;
                  Ok (out +:+ t))
               (fun acc r =>
                  out <- acc ;;
                  t <- dotLinks g r ;;
                  Ok (out +:+ t))).
    + reflexivity.
    + intros acc x. unfold dotLinks. cbn [links set_link_objs].
      now rewrite dotLinks_loop_set_link_objs.
  - intros acc x. destruct acc; [|reflexivity]. cbn [bind].
    destruct (nodes g !! x) as [e|]; [|reflexivity].
    destruct (node_parent e); [reflexivity|].
    now rewrite trace_set_link_objs.
Qed.

Lemma dot_store_properties g h d :
  h ∉ links g -> dot (store_properties g (ELink h) d) = dot g.
Proof.
  intros Hh. unfold store_properties.
  destruct (link_objs g !! h) as [l|]; [|reflexivity].
  apply dot_set_link_objs. intros r Hr.
  apply list_lookup_insert_ne. intros ->. contradiction.
Qed.

(** ** The link that [createLink] returns *)

Lemma styled_graph_wf : wf styled_graph.
Proof.
  apply (wf_run [StyleDefaultAppend "color" "blue";
                 StyleAppend "s" "color" "red";
                 StyleAppend "s" "shape" "box";
                 NewItem "n" None false;
                 NewItem "m" None false;
                 StyleApply "s" (ENode 0%nat);
                 PropertyAppend (ENode 0%nat) "color" "green";
                 NewLink 0%nat 1%nat None None None]
           (empty_graph [("compound", "true")])).
  - apply wf_empty_graph.
  - vm_compute. reflexivity.
Qed.

(** C10: whenever [createLink] returns, what it returns is the link
    dictionary it has just made, a new object with the requested end
    points; without smart mode it always returns.  When a stored link
    already joined the two nodes, the returned link is another object than
    that stored link and is not in [__links], so setting or removing
    properties through it leaves the text of [dot] as it was. *)
Theorem createLink_returns_new_record g a b label cf ct :
  wf g ->
  (smart_mode g = false ->
   exists h g', newLink g a b label cf ct = Ok (h, g')) /\
  (forall h g',
     newLink g a b label cf ct = Ok (h, g') ->
     link_objs g !! h = None /\
     (exists l, link_objs g' !! h = Some l /\ ends l = (a, b, cf, ct)) /\
     (forall r, link_exists g a b = Some r ->
        r <> h /\ (h ∉ links g') /\
        (forall k v g'', propertyAppend g' (ELink h) k v = Ok g'' ->
                         dot g'' = dot g') /\
        (forall k g'', propertyRemove g' (ELink h) k = Ok g'' ->
                       dot g'' = dot g'))).
Proof.
  intros W. split.
  - intros Hs. destruct (link_new_plain_total g a b label cf ct Hs) as (g' & E).
    eauto.
  - unfold newLink. intros h g' E.
    destruct (link_new_links _ _ _ _ _ _ _ _ W E) as (-> & F & N & L).
    split; [apply lookup_ge_None; lia|]. split.
    + assert (Hm : map ends (link_objs g') !! length (link_objs g)
                   = Some (a, b, cf, ct)).
      { rewrite N, lookup_app_r by (rewrite length_map; lia).
        rewrite length_map, Nat.sub_diag. reflexivity. }
      apply map_lookup_Some in Hm as (l & Hl & He). eauto.
    + intros r Hr. rewrite Hr, app_nil_r in L.
      apply find_link_Some in Hr as (Hin & _).
      pose proof (wf_links _ W _ Hin) as Hlt.
      assert (Hout : length (link_objs g) ∉ links g').
      { rewrite L. intros Hh.
        assert (Hh' : length (link_objs g) ∈ links g).
        { destruct (smart_mode g); [|exact Hh].
          destruct (link_exists g b a); [|exact Hh].
          eapply list_remove_subset, Hh. }
        apply (wf_links _ W) in Hh'. lia. }
      split; [lia|]. split; [exact Hout|]. split.
      * intros k v g''. unfold propertyAppend.
        destruct (properties_of g' (ELink (length (link_objs g)))); simpl;
          [|discriminate].
        intros [= <-]. now apply dot_store_properties.
      * intros k g''. unfold propertyRemove.
        destruct (properties_of g' (ELink (length (link_objs g)))) as [p|];
          simpl; [|discriminate].
        destruct (Dict.delitem p k); simpl; [|discriminate].
        intros [= <-]. now apply dot_store_properties.
Qed.

Lemma createLink_returns_new_record_witness :
  exists h g' g'',
    newLink styled_graph 0%nat 1%nat (Some "again") None None = Ok (h, g') /\
    propertyAppend g' (ELink h) "color" "red" = Ok g'' /\
    (h ∉ links g') /\
    dot g'' = dot g'.
Proof.
  destruct (createLink_returns_new_record styled_graph 0%nat 1%nat
              (Some "again") None None styled_graph_wf) as [Htot Hret].
  destruct (Htot eq_refl) as (h & g' & E).
  destruct (Hret h g' E) as (_ & (l & Hl & _) & Hstored).
  destruct (Hstored 0%nat eq_refl) as (_ & Hout & Happ & _).
  exists h, g'.
  exists (store_properties g' (ELink h)
            (Dict.set (link_properties l) "color" "red")).
  assert (Ep : propertyAppend g' (ELink h) "color" "red" =
               Ok (store_properties g' (ELink h)
                     (Dict.set (link_properties l) "color" "red"))).
  { unfold propertyAppend, properties_of, get_link. now rewrite Hl. }
  split; [exact E|]. split; [exact Ep|]. split; [exact Hout|].
  exact (Happ _ _ _ Ep).
Defined.

(** ** Edges that touch a cluster *)












Lemma cluster_links_graph_wf : wf cluster_links_graph.
Proof.
  apply (wf_run [NewLink 0%nat 3%nat None None None;
                 NewLink 2%nat 0%nat (Some "back") None (Some 2%nat);
                 NewLink 2%nat 3%nat None None None] nested_graph).
  - exact nested_graph_wf.
  - vm_compute. reflexivity.
Qed.


(** * Further properties of the code *)

(** ** [__has_children] *)

Lemma children_from_elem i l p r :
  r ∈ children_from i l p <->
  (i <= r)%nat /\ exists n, l !! (r - i)%nat = Some n /\ node_parent n = Some p.
Proof.
  revert i. induction l as [|e l IH]; intros i; simpl.
  - split; [inversion 1|]. intros (_ & n & Hn & _). discriminate.
  - assert (Hrest : r ∈ children_from (S i) l p <->
                    (i < r)%nat /\ exists n, (e :: l) !! (r - i)%nat = Some n
                                             /\ node_parent n = Some p).
    { rewrite IH. split.
      - intros (Hle & n & Hn & Hp). split; [lia|]. exists n. split; [|exact Hp].
        replace (r - i)%nat with (S (r - S i)) by lia. exact Hn.
      - intros (Hlt & n & Hn & Hp). split; [lia|]. exists n. split; [|exact Hp].
        replace (r - i)%nat with (S (r - S i)) in Hn by lia. exact Hn. }
    destruct (decide (node_parent e = Some p)) as [Hp|Hp].
    + rewrite elem_of_cons, Hrest. split.
      * intros [->|(Hlt & Hn)].
        -- split; [lia|]. exists e. now rewrite Nat.sub_diag.
        -- split; [lia|exact Hn].
      * intros (Hle & n & Hn & Hpn).
        destruct (decide (r = i)) as [->|Hne]; [now left|].
        right. split; [lia|]. eauto.
    + rewrite Hrest. split.
      * intros (Hlt & Hn). split; [lia|exact Hn].
      * intros (Hle & n & Hn & Hpn).
        destruct (decide (r = i)) as [->|Hne].
        -- rewrite Nat.sub_diag in Hn. injection Hn as <-. contradiction.
        -- split; [lia|]. eauto.
Qed.

Lemma children_from_sorted i l p :
  StronglySorted lt (children_from i l p) /\
  Forall (fun r => (i <= r)%nat) (children_from i l p).
Proof.
  revert i. induction l as [|e l IH]; intros i; simpl.
  - split; constructor.
  - destruct (IH (S i)) as [S1 F1].
    assert (F2 : Forall (fun r => (i < r)%nat) (children_from (S i) l p)).
    { eapply Forall_impl; [exact F1|]. simpl. intros; lia. }
    destruct (decide (node_parent e = Some p)).
    + split; constructor; auto.
      eapply Forall_impl; [exact F2|]. simpl. intros; lia.
    + split; [assumption|]. eapply Forall_impl; [exact F2|]. simpl. intros; lia.
Qed.

Lemma has_children_elem g p r :
  r ∈ has_children g p <->
  exists n, nodes g !! r = Some n /\ node_parent n = Some p.
Proof.
  unfold has_children. rewrite children_from_elem.
  rewrite Nat.sub_0_r. split.
  - intros (_ & H). exact H.
  - intros H. split; [lia|exact H].
Qed.

(** X1: [__has_children(parent)] returns exactly the nodes whose parent is
    [parent], each once, in the order in which they were created. *)
Theorem has_children_spec g p :
  (forall r, r ∈ has_children g p <->
             exists n, nodes g !! r = Some n /\ node_parent n = Some p) /\
  StronglySorted lt (has_children g p).
Proof.
  split.
  - intros r. apply has_children_elem.
  - apply children_from_sorted.
Qed.

Lemma children_from_snoc i l n p :
  children_from i (l ++ [n]) p =
  children_from i l p ++
  (if decide (node_parent n = Some p) then [(i + length l)%nat] else []).
Proof.
  revert i. induction l as [|e l IH]; intros i; simpl.
  - rewrite Nat.add_0_r. now destruct (decide (node_parent n = Some p)).
  - rewrite IH. replace (S i + length l)%nat with (i + S (length l))%nat by lia.
    now destruct (decide (node_parent e = Some p)).
Qed.

(** X2: [newItem] without [distinct] never raises; the new node becomes the
    last child of its parent and of no other node, it carries the label,
    the nodes that existed are unchanged, and so are the links. *)
Theorem newItem_appends_child g name parent :
  exists g',
    newItem g name parent false = Ok (Node (length (nodes g)), g') /\
    (forall q, has_children g' q =
               has_children g q ++
               (if decide (parent = Some q) then [length (nodes g)] else [])) /\
    (forall r n, nodes g !! r = Some n -> nodes g' !! r = Some n) /\
    propertyGet g' (Some (ENode (length (nodes g)))) "label" = Some name /\
    links g' = links g /\ link_objs g' = link_objs g.
Proof.
  eexists. split; [reflexivity|]. simpl. split; [|split; [|split]].
  - intros q. unfold has_children. simpl. now rewrite children_from_snoc.
  - intros r n Hr. now apply lookup_app_l_Some.
  - unfold propertyGet, properties_of, get_node. simpl.
    rewrite lookup_app_r by lia. now rewrite Nat.sub_diag.
  - split; reflexivity.
Qed.

(** ** [__link_exists] *)

Lemma find_link_first objs rs a b :
  match find_link objs rs a b with
  | Some r =>
      exists pre post l,
        rs = pre ++ r :: post /\
        objs !! r = Some l /\ from_node l = a /\ to_node l = b /\
        forall x, x ∈ pre -> joins objs a b x = false
  | None => forall r, r ∈ rs -> joins objs a b r = false
  end.
Proof.
  induction rs as [|r0 rs IH]; simpl.
  - intros r Hr. inversion Hr.
  - destruct (objs !! r0) as [l0|] eqn:E0.
    + destruct (decide (from_node l0 = a /\ to_node l0 = b)) as [[A B]|Hn].
      * exists [], rs, l0. repeat split; auto. intros x Hx. inversion Hx.
      * destruct (find_link objs rs a b) as [r|].
        -- destruct IH as (pre & post & l & -> & Hl & A & B & Hpre).
           exists (r0 :: pre), post, l. repeat split; auto.
           intros x Hx. apply elem_of_cons in Hx as [->|Hx]; [|auto].
           unfold joins. rewrite E0. now apply bool_decide_eq_false_2.
        -- intros r Hr. apply elem_of_cons in Hr as [->|Hr]; [|auto].
           unfold joins. rewrite E0. now apply bool_decide_eq_false_2.
    + destruct (find_link objs rs a b) as [r|].
      * destruct IH as (pre & post & l & -> & Hl & A & B & Hpre).
        exists (r0 :: pre), post, l. repeat split; auto.
        intros x Hx. apply elem_of_cons in Hx as [->|Hx]; [|auto].
        unfold joins. now rewrite E0.
      * intros r Hr. apply elem_of_cons in Hr as [->|Hr]; [|auto].
        unfold joins. now rewrite E0.
Qed.

(** X3: [__link_exists(from, to)] returns the first link of [__links]
    whose end points are [from] and [to], and [None] exactly when no
    stored link has these end points. *)
Theorem link_exists_first g a b :
  match link_exists g a b with
  | Some r =>
      exists pre post l,
        links g = pre ++ r :: post /\
        link_objs g !! r = Some l /\ from_node l = a /\ to_node l = b /\
        forall x, x ∈ pre -> joins (link_objs g) a b x = false
  | None => forall r, r ∈ links g -> joins (link_objs g) a b r = false
  end.
Proof. apply find_link_first. Qed.

(** ** [propertyAppend], [propertyGet] and [propertyRemove] *)

Lemma propertyGet_properties_of g e k :
  propertyGet g (Some e) k =
  match properties_of g e with
  | Ok props => Dict.get props k
  | Raise _ => None
  end.
Proof.
  unfold propertyGet. simpl.
  destruct (properties_of g e) as [props|]; simpl; [|reflexivity].
  unfold Dict.getitem. now destruct (Dict.get props k).
Qed.

Lemma entity_ok_properties_of g e :
  entity_ok g e = true -> exists props, properties_of g e = Ok props.
Proof.
  unfold entity_ok, node_ok, properties_of, get_node, get_link.
  destruct e as [r|r]; intros H; apply bool_decide_eq_true_1 in H;
    apply lookup_lt_is_Some in H as [x Hx]; rewrite Hx; simpl; eauto.
Qed.

Lemma properties_of_store_same g e props d :
  properties_of g e = Ok props ->
  properties_of (store_properties g e d) e = Ok d.
Proof.
  unfold properties_of, store_properties, get_node, get_link.
  destruct e as [r|r].
  - destruct (nodes g !! r) as [n|] eqn:E; simpl; [|discriminate].
    intros _. rewrite list_lookup_insert_eq by (now apply lookup_lt_Some in E).
    reflexivity.
  - destruct (link_objs g !! r) as [l|] eqn:E; simpl; [|discriminate].
    intros _. rewrite list_lookup_insert_eq by (now apply lookup_lt_Some in E).
    reflexivity.
Qed.

Lemma properties_of_store_other g e e' d :
  e' <> e -> properties_of (store_properties g e d) e' = properties_of g e'.
Proof.
  intros Hne. unfold properties_of, store_properties, get_node, get_link.
  destruct e as [r|r], e' as [r'|r'];
    try (destruct (nodes g !! r); reflexivity);
    try (destruct (link_objs g !! r); reflexivity).
  - destruct (nodes g !! r) as [n|] eqn:E; [|reflexivity]. simpl.
    rewrite list_lookup_insert_ne by congruence. reflexivity.
  - destruct (link_objs g !! r) as [l|] eqn:E; [|reflexivity]. simpl.
    rewrite list_lookup_insert_ne by congruence. reflexivity.
Qed.

(** X4: [propertyAppend] on a node or link of the graph never raises;
    afterwards [propertyGet] returns the value for that key, every other
    key of the entity and every key of every other entity reads as before,
    and neither the stored links nor any id or end point has changed. *)
Theorem propertyAppend_then_propertyGet g e k v :
  entity_ok g e = true ->
  exists g',
    propertyAppend g e k v = Ok g' /\
    propertyGet g' (Some e) k = Some v /\
    (forall k', k' <> k ->
                propertyGet g' (Some e) k' = propertyGet g (Some e) k') /\
    (forall e' k', e' <> e ->
                   propertyGet g' (Some e') k' = propertyGet g (Some e') k') /\
    shape g' = shape g.
Proof.
  intros Hok. destruct (entity_ok_properties_of g e Hok) as (props & Hp).
  unfold propertyAppend. rewrite Hp. simpl. eexists. split; [reflexivity|].
  split; [|split; [|split]].
  - rewrite propertyGet_properties_of, (properties_of_store_same _ _ _ _ Hp).
    apply dict_get_set_eq.
  - intros k' Hne.
    rewrite !propertyGet_properties_of, (properties_of_store_same _ _ _ _ Hp), Hp.
    now apply dict_get_set_ne.
  - intros e' k' Hne.
    now rewrite !propertyGet_properties_of, properties_of_store_other.
  - apply shape_store_properties.
Qed.

Lemma propertyAppend_then_propertyGet_witness :
  exists g',
    propertyAppend styled_graph (ELink 0%nat) "color" "red" = Ok g' /\
    propertyGet g' (Some (ELink 0%nat)) "color" = Some "red".
Proof.
  destruct (propertyAppend_then_propertyGet styled_graph (ELink 0%nat)
              "color" "red" eq_refl) as (g' & E & Hget & _).
  exists g'. split; assumption.
Defined.

Lemma dict_get_remove_ne {V} (d : Dict.t V) k k' :
  k' <> k -> Dict.get (Dict.remove d k) k' = Dict.get d k'.
Proof.
  intros Hne. induction d as [|[k0 v0] d IH]; simpl; [reflexivity|].
  destruct (String.eqb k0 k) eqn:E.
  - apply String.eqb_eq in E. subst k0.
    assert (String.eqb k k' = false) as -> by (apply String.eqb_neq; congruence).
    reflexivity.
  - simpl. now rewrite IH.
Qed.

Lemma dict_get_remove_eq {V} (d : Dict.t V) k :
  List.NoDup (map fst d) -> Dict.get (Dict.remove d k) k = None.
Proof.
  induction d as [|[k0 v0] d IH]; simpl; intros Hnd; [reflexivity|].
  inversion Hnd as [|? ? Hnotin Hnd']; subst.
  destruct (String.eqb k0 k) eqn:E.
  - apply String.eqb_eq in E. subst k0. now apply dict_get_none_notin.
  - simpl. rewrite E. now apply IH.
Qed.

Lemma dict_remove_set_fresh {V} (d : Dict.t V) k v :
  Dict.get d k = None -> Dict.remove (Dict.set d k v) k = d.
Proof.
  induction d as [|[k0 v0] d IH]; simpl.
  - now rewrite String.eqb_refl.
  - destruct (String.eqb k0 k) eqn:E; [discriminate|].
    intros H. simpl. rewrite E. now rewrite IH.
Qed.

(** X5: when [propertyRemove] returns, [propertyGet] of the removed key
    returns [None], and every other key of the entity and every key of
    every other entity reads as before; it returns exactly when the key
    was set, and raises [KeyError] otherwise. *)
Theorem propertyRemove_then_propertyGet g e props k :
  properties_of g e = Ok props -> List.NoDup (map fst props) ->
  match Dict.get props k with
  | Some _ =>
      exists g',
        propertyRemove g e k = Ok g' /\
        propertyGet g' (Some e) k = None /\
        (forall k', k' <> k ->
                    propertyGet g' (Some e) k' = propertyGet g (Some e) k') /\
        (forall e' k', e' <> e ->
                       propertyGet g' (Some e') k' = propertyGet g (Some e') k')
  | None => propertyRemove g e k = Raise KeyError
  end.
Proof.
  intros Hp Hnd. unfold propertyRemove. rewrite Hp. simpl. unfold Dict.delitem.
  destruct (Dict.get props k) as [v|] eqn:Ek; simpl; [|reflexivity].
  eexists. split; [reflexivity|]. split; [|split].
  - rewrite propertyGet_properties_of, (properties_of_store_same _ _ _ _ Hp).
    now apply dict_get_remove_eq.
  - intros k' Hne.
    rewrite !propertyGet_properties_of, (properties_of_store_same _ _ _ _ Hp), Hp.
    now apply dict_get_remove_ne.
  - intros e' k' Hne.
    now rewrite !propertyGet_properties_of, properties_of_store_other.
Qed.

Lemma propertyRemove_then_propertyGet_witness :
  exists g',
    propertyRemove styled_graph (ENode 0%nat) "color" = Ok g' /\
    propertyGet g' (Some (ENode 0%nat)) "color" = None.
Proof.
  pose proof (propertyRemove_then_propertyGet styled_graph (ENode 0%nat)
                [("label", "n"); ("color", "green")] "color" eq_refl) as H.
  simpl in H. destruct H as (g' & E & Hget & _).
  - repeat constructor; simpl; intuition discriminate.
  - exists g'. split; assumption.
Defined.

Lemma store_properties_id g e props :
  properties_of g e = Ok props -> store_properties g e props = g.
Proof.
  unfold properties_of, store_properties, get_node, get_link.
  destruct e as [r|r].
  - destruct (nodes g !! r) as [n|] eqn:E; simpl; [|discriminate].
    intros [= <-].
    replace (set_node_properties n (node_properties n)) with n by (now destruct n).
    rewrite list_insert_id by exact E. now destruct g.
  - destruct (link_objs g !! r) as [l|] eqn:E; simpl; [|discriminate].
    intros [= <-].
    replace (set_link_properties l (link_properties l)) with l by (now destruct l).
    rewrite list_insert_id by exact E. now destruct g.
Qed.

Lemma store_properties_twice g e d1 d2 :
  store_properties (store_properties g e d1) e d2 = store_properties g e d2.
Proof.
  unfold store_properties. destruct e as [r|r].
  - destruct (nodes g !! r) as [n|] eqn:E; simpl; [|now rewrite E].
    rewrite list_lookup_insert_eq by (now apply lookup_lt_Some in E).
    simpl. now rewrite list_insert_insert_eq.
  - destruct (link_objs g !! r) as [l|] eqn:E; simpl; [|now rewrite E].
    rewrite list_lookup_insert_eq by (now apply lookup_lt_Some in E).
    simpl. now rewrite list_insert_insert_eq.
Qed.

(** X6: setting a key that an entity does not have and removing it again
    gives back the graph as it was, insertion order of the other
    properties included. *)
Theorem propertyAppend_propertyRemove_roundtrip g e props k v :
  properties_of g e = Ok props -> Dict.get props k = None ->
  exists g1, propertyAppend g e k v = Ok g1 /\ propertyRemove g1 e k = Ok g.
Proof.
  intros Hp Hk. unfold propertyAppend. rewrite Hp. simpl.
  eexists. split; [reflexivity|].
  unfold propertyRemove. rewrite (properties_of_store_same _ _ _ _ Hp). simpl.
  unfold Dict.delitem. rewrite dict_get_set_eq. simpl.
  rewrite store_properties_twice, dict_remove_set_fresh by exact Hk.
  now rewrite store_properties_id.
Qed.

Lemma propertyAppend_propertyRemove_roundtrip_witness :
  exists g1,
    propertyAppend styled_graph (ENode 1%nat) "shape" "box" = Ok g1 /\
    propertyRemove g1 (ENode 1%nat) "shape" = Ok styled_graph.
Proof.
  apply (propertyAppend_propertyRemove_roundtrip styled_graph (ENode 1%nat)
           [("label", "m")]).
  - reflexivity.
  - reflexivity.
Defined.

(** ** [propertyForeachLinksAppend] *)

Lemma foreach_links_append_spec n k v rs : forall objs,
  NoDup rs -> (forall r, r ∈ rs -> (r < length objs)%nat) ->
  exists objs',
    foreach_links_append objs rs n k v = Ok objs' /\
    length objs' = length objs /\
    forall r l, objs !! r = Some l ->
      objs' !! r =
      Some (if decide (r ∈ rs /\ from_node l = n)
            then set_link_properties l (Dict.set (link_properties l) k v)
            else l).
Proof.
  induction rs as [|r0 rs IH]; intros objs Hnd Hv; simpl.
  - exists objs. split; [reflexivity|]. split; [reflexivity|].
    intros r l Hl. rewrite Hl.
    destruct (decide (r ∈ [] /\ from_node l = n)) as [[H _]|]; [inversion H|reflexivity].
  - apply NoDup_cons in Hnd as [Hnotin Hnd].
    destruct (lookup_lt_is_Some_2 objs r0 (Hv r0 (list_elem_of_here _ _)))
      as [l0 Hl0].
    rewrite Hl0.
    destruct (decide (from_node l0 = n)) as [Hf|Hf].
    + set (objs1 := <[r0 := set_link_properties l0
                             (Dict.set (link_properties l0) k v)]> objs).
      destruct (IH objs1 Hnd) as (objs' & E & Hlen & Hall).
      { intros r Hr. unfold objs1. rewrite length_insert. apply Hv. now right. }
      exists objs'. split; [exact E|]. split.
      { rewrite Hlen. apply length_insert. }
      intros r l Hl. destruct (decide (r = r0)) as [->|Hne].
      * rewrite Hl0 in Hl. injection Hl as <-.
        rewrite (Hall r0 (set_link_properties l0 (Dict.set (link_properties l0) k v))).
        -- f_equal.
           destruct (decide (r0 ∈ rs /\ _)) as [[H _]|_]; [contradiction|].
           destruct (decide (r0 ∈ r0 :: rs /\ from_node l0 = n)) as [_|H];
             [reflexivity|].
           exfalso. apply H. split; [left|assumption].
        -- unfold objs1. apply list_lookup_insert_eq.
           now apply lookup_lt_Some in Hl0.
      * rewrite (Hall r l) by (unfold objs1; now rewrite list_lookup_insert_ne).
        f_equal.
        destruct (decide (r ∈ rs /\ from_node l = n)) as [[H1 H2]|H];
          destruct (decide (r ∈ r0 :: rs /\ from_node l = n)) as [[H3 H4]|H'];
          try reflexivity.
        -- exfalso. apply H'. split; [now right|assumption].
        -- exfalso. apply H. split; [|assumption].
           apply elem_of_cons in H3 as [->|H3]; [congruence|assumption].
    + destruct (IH objs Hnd) as (objs' & E & Hlen & Hall).
      { intros r Hr. apply Hv. now right. }
      exists objs'. split; [exact E|]. split; [exact Hlen|].
      intros r l Hl. rewrite (Hall r l Hl). f_equal.
      destruct (decide (r ∈ rs /\ from_node l = n)) as [[H1 H2]|H];
        destruct (decide (r ∈ r0 :: rs /\ from_node l = n)) as [[H3 H4]|H'];
        try reflexivity.
      * exfalso. apply H'. split; [now right|assumption].
      * exfalso. apply H. split; [|assumption].
        apply elem_of_cons in H3 as [->|H3]; [|assumption].
        rewrite Hl0 in Hl. injection Hl as <-. contradiction.
Qed.

(** X7: in a well-formed graph [propertyForeachLinksAppend(node, key,
    val)] never raises; it sets [key] to [val] on every stored link whose
    source is [node] and changes nothing else: the other stored links,
    and the links that were returned by [createLink] but not stored, keep
    their properties, and [__links] is the same list. *)
Theorem propertyForeachLinksAppend_spec g n k v :
  wf g ->
  exists g',
    propertyForeachLinksAppend g n k v = Ok g' /\
    links g' = links g /\ frame g' = frame g /\
    forall r l, link_objs g !! r = Some l ->
      link_objs g' !! r =
      Some (if decide (r ∈ links g /\ from_node l = n)
            then set_link_properties l (Dict.set (link_properties l) k v)
            else l).
Proof.
  intros W.
  destruct (foreach_links_append_spec n k v (links g) (link_objs g)
              (wf_nodup _ W) (wf_links _ W)) as (objs' & E & _ & Hall).
  unfold propertyForeachLinksAppend. rewrite E. simpl.
  eexists. split; [reflexivity|]. split; [reflexivity|].
  split; [reflexivity|exact Hall].
Qed.

Lemma propertyForeachLinksAppend_spec_witness :
  exists g',
    propertyForeachLinksAppend cluster_links_graph 2%nat "color" "red" = Ok g' /\
    links g' = links cluster_links_graph.
Proof.
  destruct (propertyForeachLinksAppend_spec cluster_links_graph 2%nat
              "color" "red" cluster_links_graph_wf) as (g' & E & L & _).
  exists g'. split; assumption.
Defined.

(** ** Graphs built through the interface *)

(** X8: in every graph obtained from the constructor by calls of the
    interface, in either mode, at most one stored link joins an ordered
    pair of nodes, no link is stored twice and every stored link is a link
    dictionary whose end points are nodes of the graph. *)
Theorem built_graph_links legend_name opts cs g0 g :
  init legend_name opts = Ok g0 -> run g0 cs = Ok g ->
  (forall a b, (length (links_between g a b) <= 1)%nat) /\
  NoDup (links g) /\
  (forall r, r ∈ links g ->
     exists l, link_objs g !! r = Some l /\
               (from_node l < length (nodes g))%nat /\
               (to_node l < length (nodes g))%nat).
Proof.
  intros Hi Hr.
  assert (W : wf g) by (eapply wf_run; [eapply wf_init|]; eassumption).
  split; [|split].
  - intros a b. destruct (link_exists g a b) as [r|] eqn:E.
    + now rewrite (links_between_unique _ _ _ _ W E).
    + rewrite (links_between_none _ _ _ E). simpl. lia.
  - exact (wf_nodup _ W).
  - intros r Hin.
    destruct (lookup_lt_is_Some_2 _ _ (wf_links _ W _ Hin)) as [l Hl].
    exists l. split; [exact Hl|].
    destruct (wf_ends _ W _ _ Hl) as (A & B & _). auto.
Qed.

Lemma built_graph_links_witness :
  (length (links_between cluster_links_graph 0%nat 3%nat) <= 1)%nat /\
  NoDup (links cluster_links_graph).
Proof.
  destruct (built_graph_links None "compound=true;"
              [NewItem "C" None false;
               NewItem "n1" (Some 0%nat) false;
               NewItem "n2" (Some 0%nat) false;
               NewItem "X" (Some 1%nat) false;
               NewLink 0%nat 3%nat None None None;
               NewLink 2%nat 0%nat (Some "back") None (Some 2%nat);
               NewLink 2%nat 3%nat None None None]
              (empty_graph [("compound", "true")]) cluster_links_graph)
    as (H1 & H2 & _).
  - vm_compute. reflexivity.
  - vm_compute. reflexivity.
  - split; [apply H1|exact H2].
Defined.

Lemma forest_parents g g' :
  map node_parent (nodes g') = map node_parent (nodes g) ->
  forest g -> forest g'.
Proof.
  intros Hm F i n p Hi Hp.
  destruct (map_lookup_eq _ _ _ _ _ Hm Hi) as (n0 & H0 & E).
  apply (F i n0 p H0). congruence.
Qed.

Lemma parents_store_properties g e d :
  map node_parent (nodes (store_properties g e d)) = map node_parent (nodes g).
Proof.
  unfold store_properties. destruct e as [r|r].
  - destruct (nodes g !! r) as [n|] eqn:E; simpl; [|reflexivity].
    now apply (map_insert_same node_parent _ _ n).
  - now destruct (link_objs g !! r).
Qed.

Lemma forest_exec g c g' :
  forest g -> call_ok g c = true -> exec g c = Ok g' -> forest g'.
Proof.
  intros F Hok H. destruct c; simpl in H.
  - unfold newItem in H.
    destruct (node_new g name parent distinct) as [[it g1]|] eqn:E;
      simpl in H; [|discriminate].
    injection H as <-.
    apply node_new_inv in E as [[_ ->]|[_ ->]]; [assumption|].
    intros i n p Hi Hp. simpl in Hi.
    apply lookup_app_Some in Hi as [Hi|[Hge Hi]]; [eauto|].
    destruct (i - length (nodes g))%nat eqn:Ei; simpl in Hi; [|discriminate].
    injection Hi as <-. simpl in Hp. subst parent.
    simpl in Hok. unfold node_ok in Hok. apply bool_decide_eq_true_1 in Hok. lia.
  - unfold newLink in H.
    destruct (link_new g src dst label cl_src cl_dst) as [[h g1]|] eqn:E;
      simpl in H; [|discriminate].
    injection H as <-.
    apply link_new_inv in E as (l & -> & _ & _ & _ & E).
    assert (Hl : link_objs (set_link_objs g (link_objs g ++ [l]))
                 !! length (link_objs g) = Some l).
    { simpl. rewrite lookup_app_r by lia. now rewrite Nat.sub_diag. }
    destruct (link_smart_inv _ _ _ _ Hl E) as (Fr & _ & _).
    apply (forest_parents g); [|assumption].
    now rewrite (frame_nodes _ _ Fr).
  - injection H as <-. exact F.
  - apply (forest_parents g); [|assumption].
    unfold styleApply, get_node, get_link in H. destruct node_or_link as [r|r].
    + destruct (nodes g !! r) as [n|] eqn:E; simpl in H; [|discriminate].
      injection H as <-. simpl. now apply (map_insert_same node_parent _ _ n).
    + destruct (link_objs g !! r) as [l|] eqn:E; simpl in H; [|discriminate].
      now injection H as <-.
  - injection H as <-. exact F.
  - apply (forest_parents g); [|assumption].
    unfold propertyAppend in H.
    destruct (properties_of g node_or_link); simpl in H; [|discriminate].
    injection H as <-. apply parents_store_properties.
  - apply (forest_parents g); [|assumption].
    unfold propertyRemove in H.
    destruct (properties_of g node_or_link) as [p|]; simpl in H; [|discriminate].
    destruct (Dict.delitem p key); simpl in H; [|discriminate].
    injection H as <-. apply parents_store_properties.
  - apply (forest_parents g); [|assumption].
    unfold propertyForeachLinksAppend in H.
    destruct (foreach_links_append _ _ _ _ _); simpl in H; [|discriminate].
    now injection H as <-.
  - injection H as <-. exact F.
Qed.

Lemma forest_run cs : forall g g', forest g -> run g cs = Ok g' -> forest g'.
Proof.
  induction cs as [|c cs IH]; intros g g' F; simpl.
  - now intros [= <-].
  - destruct (call_ok g c) eqn:Hok; [|discriminate].
    destruct (exec g c) as [g1|] eqn:E; simpl; [|discriminate].
    apply IH. eapply forest_exec; eauto.
Qed.

Lemma forest_init legend_name opts g : init legend_name opts = Ok g -> forest g.
Proof.
  unfold init.
  destruct (parse_options _ _) as [o|]; simpl; [|discriminate].
  destruct (truthy legend_name) as [name|]; simpl; intros [= <-].
  - intros [|i] n p Hi Hp; simpl in Hi; [|discriminate].
    injection Hi as <-. discriminate.
  - intros i n p Hi. discriminate.
Qed.

(** X9: in every graph obtained from the constructor by calls of the
    interface, the parent of a node is a node that was created before it,
    with a smaller id: following parents never comes back to a node, so
    the nodes form a forest. *)
Theorem built_graph_is_forest legend_name opts cs g0 g r n p :
  init legend_name opts = Ok g0 -> run g0 cs = Ok g ->
  nodes g !! r = Some n -> node_parent n = Some p ->
  (p < r)%nat /\
  exists np, nodes g !! p = Some np /\ node_id np < node_id n.
Proof.
  intros Hi Hr Hn Hp.
  assert (W : wf g) by (eapply wf_run; [eapply wf_init|]; eassumption).
  assert (F : forest g) by (eapply forest_run; [eapply forest_init|]; eassumption).
  pose proof (F r n p Hn Hp) as Hlt. split; [exact Hlt|].
  destruct (lookup_lt_is_Some_2 (nodes g) p) as [np Hnp].
  { apply lookup_lt_Some in Hn. lia. }
  exists np. split; [exact Hnp|].
  rewrite (wf_ids _ W _ _ Hnp), (wf_ids _ W _ _ Hn). lia.
Qed.

Lemma built_graph_is_forest_witness :
  (1 < 3)%nat /\
  exists np, nodes nested_graph !! 1%nat = Some np /\ node_id np < 4.
Proof.
  apply (built_graph_is_forest None "compound=true;"
           [NewItem "C" None false;
            NewItem "n1" (Some 0%nat) false;
            NewItem "n2" (Some 0%nat) false;
            NewItem "X" (Some 1%nat) false]
           (empty_graph [("compound", "true")]) nested_graph 3%nat
           {| node_id := 4; node_parent := Some 1%nat; node_style := None;
              node_properties := [("label", "X")] |} 1%nat).
  - vm_compute. reflexivity.
  - vm_compute. reflexivity.
  - vm_compute. reflexivity.
  - reflexivity.
Defined.

(** ** [dot] returns *)

Lemma string_app_empty_r (s : string) : s +:+ EmptyString = s.
Proof.
  induction s as [|c s IH]; [reflexivity|].
  change (String c (s +:+ EmptyString) = String c s). now rewrite IH.
Qed.

Lemma node_allProps_ok g n props :
  is_ok (style_pairs g (node_style n)) = true ->
  exists all, node_allProps g n props = Ok all.
Proof.
  unfold node_allProps. destruct (style_pairs g (node_style n)); simpl;
    [eauto|discriminate].
Qed.

Lemma propertiesAsStringGet_ok g r n props level :
  nodes g !! r = Some n ->
  is_ok (style_pairs g (node_style n)) = true ->
  exists s, propertiesAsStringGet g r props level = Ok s.
Proof.
  intros Hn Hs. unfold propertiesAsStringGet, get_node. rewrite Hn. simpl.
  destruct (node_allProps_ok g n props Hs) as (all & ->). simpl.
  destruct (has_children g r); [destruct props|]; eauto.
Qed.

Lemma fold_left_bind_ok {B} (f : B -> result string) (l : list B) :
  (forall x, x ∈ l -> exists t, f x = Ok t) ->
  forall a, exists out,
    fold_left (fun acc x => out <- acc ;; t <- f x ;; Ok (out +:+ t)) l (Ok a)
    = Ok out.
Proof.
  induction l as [|x l IH]; intros H a; simpl; [eauto|].
  destruct (H x (list_elem_of_here _ _)) as (t & ->). simpl.
  apply IH. intros y Hy. apply H. now right.
Qed.

(** enough fuel: one unit per node below *)
Lemma trace_ok g :
  forest g -> (forall r n, nodes g !! r = Some n ->
                           is_ok (style_pairs g (node_style n)) = true) ->
  forall fuel r level,
    (r < length (nodes g))%nat -> (length (nodes g) - r <= fuel)%nat ->
    exists s, trace fuel g r level = Ok s.
Proof.
  intros F Hst. induction fuel as [|fuel IH]; intros r level Hr Hfuel; [lia|].
  cbn [trace]. unfold get_node.
  destruct (lookup_lt_is_Some_2 _ _ Hr) as [n Hn]. rewrite Hn. cbn [bind].
  destruct (has_children g r) as [|c cs] eqn:Ec.
  - destruct (propertiesAsStringGet_ok g r n (node_properties n) level Hn
                (Hst _ _ Hn)) as (s & ->).
    cbn [bind]. eauto.
  - destruct (propertiesAsStringGet_ok g r n (node_properties n) (level + 1) Hn
                (Hst _ _ Hn)) as (s & ->).
    cbn [bind].
    destruct (fold_left_bind_ok (fun child => trace fuel g child (level + 1))
                (c :: cs)) with (a := EmptyString) as (body & Hbody).
    { intros x Hx. rewrite <- Ec in Hx.
      apply (proj1 (has_children_elem g r _)) in Hx as (nx & Hnx & Hpx).
      pose proof (F _ _ _ Hnx Hpx) as Hlt.
      apply IH; [now apply lookup_lt_Some in Hnx|lia]. }
    rewrite Hbody. cbn [bind]. eauto.
Qed.

Lemma endpoint_ok g end0 cl :
  (end0 < length (nodes g))%nat -> opt_node_ok g cl = true ->
  exists r, endpoint g end0 cl = Ok r.
Proof.
  intros He Hcl. unfold endpoint, get_node.
  destruct (lookup_lt_is_Some_2 _ _ He) as [n Hn].
  destruct (has_children g end0) as [|first rest] eqn:Ec.
  - rewrite Hn. simpl. eauto.
  - destruct cl as [c|].
    + unfold opt_node_ok, node_ok in Hcl. apply bool_decide_eq_true_1 in Hcl.
      destruct (lookup_lt_is_Some_2 _ _ Hcl) as [nc Hnc].
      rewrite Hnc. simpl. rewrite Hn. simpl. eauto.
    + assert (Hf : first ∈ has_children g end0) by (rewrite Ec; left).
      apply (proj1 (has_children_elem g end0 _)) in Hf as (nf & Hnf & _).
      rewrite Hnf. simpl. rewrite Hn. simpl. eauto.
Qed.

Lemma dotLink_ok g r l :
  wf g -> link_objs g !! r = Some l ->
  is_ok (style_pairs g (link_style l)) = true ->
  exists s, dotLink g l = Ok s.
Proof.
  intros W Hl Hs. destruct (wf_ends _ W _ _ Hl) as (A & B & C & D).
  unfold dotLink.
  destruct (endpoint_ok g (from_node l) (cl_from_node l) A C) as (s & ->).
  destruct (endpoint_ok g (to_node l) (cl_to_node l) B D) as (d & ->).
  cbn [bind]. unfold propertiesLinkAsStringGet, link_allProps.
  destruct (style_pairs g (link_style l)) as [st|]; [|discriminate].
  cbn [bind].
  destruct (Dict.update (Dict.update [] st) (link_properties l));
    cbn [bind]; eauto.
Qed.

Lemma dotLinks_loop_ok g n rs :
  wf g ->
  (forall r, r ∈ rs -> r ∈ links g) ->
  (forall r l, r ∈ links g -> link_objs g !! r = Some l ->
               is_ok (style_pairs g (link_style l)) = true) ->
  exists s, dotLinks_loop g rs n = Ok s.
Proof.
  intros W Hsub Hst. induction rs as [|r rs IH]; simpl; [eauto|].
  assert (Hin : r ∈ links g) by (apply Hsub; left).
  unfold get_link.
  destruct (lookup_lt_is_Some_2 _ _ (wf_links _ W _ Hin)) as [l Hl].
  rewrite Hl. simpl.
  destruct IH as (rest & ->); [intros; apply Hsub; now right|].
  destruct (decide (from_node l = n)).
  - destruct (dotLink_ok g r l W Hl (Hst _ _ Hin Hl)) as (s & ->). simpl. eauto.
  - simpl. eauto.
Qed.

(** X10: [dot] returns a text, without exception and within the recursion
    of [trace] bounded by the number of nodes, for every well-formed
    graph whose nodes form a forest and whose applied styles are all
    registered. *)
Theorem dot_returns g :
  wf g -> forest g -> styles_ok g -> exists text, dot g = Ok text.
Proof.
  intros W F [Hsn Hsl]. unfold dot.
  destruct (fold_left_bind_ok
              (fun r => match nodes g !! r with
                        | Some e =>
                            match node_parent e with
                            | None => trace (S (length (nodes g))) g r 1
                            | Some _ => Ok EmptyString
                            end
                        | None => Ok EmptyString
                        end) (seq 0 (length (nodes g))))
    with (a := EmptyString) as (roots & Hroots).
  { intros r Hr. apply elem_of_seq in Hr as [_ Hr]. simpl in Hr.
    destruct (nodes g !! r) as [e|]; [|eauto].
    destruct (node_parent e); [eauto|].
    apply trace_ok; auto. lia. }
  destruct (fold_left_bind_ok (fun r => dotLinks g r) (seq 0 (length (nodes g))))
    with (a := EmptyString) as (edges & Hedges).
  { intros r _. apply dotLinks_loop_ok; auto. }
  rewrite (fold_left_ext _
             (fun acc r =>
                out <- acc ;;
                t <- match nodes g !! r with
                     | Some e =>
                         match node_parent e with
                         | None => trace (S (length (nodes g))) g r 1
                         | Some _ => Ok EmptyString
                         end
                     | None => Ok EmptyString
                     end ;;
                Ok (out +:+ t))).
  - rewrite Hroots. cbn [bind]. rewrite Hedges. cbn [bind]. eauto.
  - intros acc r. destruct acc as [out|]; [|reflexivity]. cbn [bind].
    destruct (nodes g !! r) as [e|]; [destruct (node_parent e)|];
      cbn [bind]; try reflexivity.
    all: now rewrite string_app_empty_r.
Qed.

Lemma styled_graph_forest : forest styled_graph.
Proof.
  intros i n p Hi Hp.
  repeat (destruct i as [|i]; [injection Hi as <-; discriminate|]).
  discriminate.
Qed.

Lemma styled_graph_styles_ok : styles_ok styled_graph.
Proof.
  split.
  - intros r n Hr.
    repeat (destruct r as [|r]; [injection Hr as <-; reflexivity|]).
    discriminate.
  - intros r l _ Hr.
    repeat (destruct r as [|r]; [injection Hr as <-; reflexivity|]).
    discriminate.
Qed.

Lemma dot_returns_witness : exists text, dot styled_graph = Ok text.
Proof.
  apply (dot_returns styled_graph).
  - exact styled_graph_wf.
  - exact styled_graph_forest.
  - exact styled_graph_styles_ok.
Defined.

(** ** Styles that are missing, unnamed or hidden *)




(** X12: a leaf node whose explicit properties are empty is printed
    without any attribute, whatever the default style and the node's own
    style hold: the bracketed list is written only when the explicit
    properties are not empty. *)
Theorem bare_leaf_prints_no_attribute g r n fuel level :
  nodes g !! r = Some n -> has_children g r = [] ->
  node_properties n = [] ->
  is_ok (style_pairs g (node_style n)) = true ->
  trace (S fuel) g r level =
  Ok (str_repeat level (padding_str g) +:+ "node" +:+ fmt_d (node_id n)
      +:+ " " +:+ ";" +:+ nl).
Proof.
  intros Hn Hc Hp Hs. cbn [trace]. unfold get_node. rewrite Hn. cbn [bind].
  rewrite Hc. unfold propertiesAsStringGet, get_node. rewrite Hn. cbn [bind].
  destruct (node_allProps_ok g n (node_properties n) Hs) as (all & ->).
  cbn [bind]. rewrite Hc, Hp. reflexivity.
Qed.

Lemma bare_leaf_prints_no_attribute_witness :
  trace 1 bare_graph 0%nat 1 = Ok ("   node1 ;" +:+ nl).
Proof.
  apply (bare_leaf_prints_no_attribute bare_graph 0%nat
           {| node_id := 1; node_parent := None; node_style := None;
              node_properties := [] |} 0%nat 1%nat).
  - reflexivity.
  - reflexivity.
  - reflexivity.
  - reflexivity.
Defined.

(** ** More on smart mode *)

Lemma thicker_other g props x y k :
  k <> "penwidth" -> k <> "arrowsize" ->
  Dict.get (thicker g props x y) k = Dict.get props k.
Proof.
  intros H1 H2. unfold thicker.
  destruct (PyFloat.ltb y (max_arrow_width g));
    destruct (PyFloat.ltb _ _);
    rewrite ?dict_get_set_ne by congruence; reflexivity.
Qed.

(** X13: in smart mode, a request for a link that is already stored, whose
    pen width reads [x] and whose arrow size reads [y], returns and
    changes the stored link as follows: the pen width becomes [x] plus the
    line step only if that sum is below [max_line_width]; the arrow size
    becomes [y] plus the arrow step whenever [y] itself is below
    [max_arrow_width]; no other property and no end point of the stored
    link changes. *)
Theorem repeat_request_widths g a b label cf ct r lr s s' x y :
  wf g -> smart_mode g = true ->
  link_exists g a b = Some r -> link_objs g !! r = Some lr ->
  Dict.get (link_properties lr) "penwidth" = Some s -> s <> EmptyString ->
  float s = Ok x ->
  Dict.get (link_properties lr) "arrowsize" = Some s' -> s' <> EmptyString ->
  float s' = Ok y ->
  exists h g' l',
    newLink g a b label cf ct = Ok (h, g') /\
    link_objs g' !! r = Some l' /\ ends l' = ends lr /\
    Dict.get (link_properties l') "penwidth" =
      Some (if PyFloat.ltb (PyFloat.add x (line_factor g)) (max_line_width g)
            then str (PyFloat.add x (line_factor g)) else s) /\
    Dict.get (link_properties l') "arrowsize" =
      Some (if PyFloat.ltb y (max_arrow_width g)
            then str (PyFloat.add y (arrow_factor g)) else s') /\
    (forall k, k <> "penwidth" -> k <> "arrowsize" ->
               Dict.get (link_properties l') k = Dict.get (link_properties lr) k).
Proof.
  intros W Hs Hsome Hr Hpw Hpwne Hx Haw Hawne Hy.
  destruct (link_new_again g a b label cf ct r lr s s' x y)
    as (g' & E & Hobj); try assumption.
  exists (length (link_objs g)), g'. eexists.
  split; [exact E|]. split; [exact Hobj|]. split; [reflexivity|].
  cbn [link_properties set_link_properties]. split; [|split].
  - rewrite thicker_penwidth. destruct (PyFloat.ltb _ _); [reflexivity|exact Hpw].
  - rewrite thicker_arrowsize. destruct (PyFloat.ltb _ _); [reflexivity|exact Haw].
  - intros k H1 H2. now apply thicker_other.
Qed.

Lemma repeat_request_widths_witness :
  exists h g' l',
    newLink four_requests 0%nat 1%nat None None None = Ok (h, g') /\
    link_objs g' !! 0%nat = Some l' /\
    Dict.get (link_properties l') "penwidth" = Some "5.2" /\
    Dict.get (link_properties l') "arrowsize" = Some "2.3".
Proof.
  destruct (repeat_request_widths four_requests 0%nat 1%nat None None None
              0%nat
              {| from_node := 0%nat; to_node := 1%nat; link_style := None;
                 link_properties := [("penwidth", "4.2"); ("arrowsize", "2.3")];
                 cl_from_node := None; cl_to_node := None |}
              "4.2" "2.3" (f_lit 42 (-1)) (f_lit 23 (-1)))
    as (h & g' & l' & E & Hl & _ & Hp & Ha & _).
  - apply (wf_run [NewLink 0%nat 1%nat None None None;
                   NewLink 0%nat 1%nat None None None;
                   NewLink 0%nat 1%nat None None None;
                   NewLink 0%nat 1%nat None None None] smart_graph).
    + exact smart_graph_wf.
    + vm_compute. reflexivity.
  - reflexivity.
  - vm_compute. reflexivity.
  - vm_compute. reflexivity.
  - reflexivity.
  - discriminate.
  - vm_compute. reflexivity.
  - reflexivity.
  - discriminate.
  - vm_compute. reflexivity.
  - exists h, g', l'. split; [exact E|]. split; [exact Hl|]. split.
    + rewrite Hp. vm_compute. reflexivity.
    + rewrite Ha. vm_compute. reflexivity.
Defined.

Lemma find_link_app objs rs1 rs2 a b :
  find_link objs (rs1 ++ rs2) a b =
  match find_link objs rs1 a b with
  | Some r => Some r
  | None => find_link objs rs2 a b
  end.
Proof.
  induction rs1 as [|r rs1 IH]; simpl; [reflexivity|].
  destruct (objs !! r) as [l|]; [|exact IH].
  destruct (decide (from_node l = a /\ to_node l = b)); [reflexivity|exact IH].
Qed.

(** a request for a link from [a] to [b] leaves the lookup of every other
    pair of end points, except the reverse pair, as it was *)
Lemma link_exists_other_after g a b label cf ct h g' c d :
  wf g -> link_new g a b label cf ct = Ok (h, g') ->
  ~ (c = a /\ d = b) -> ~ (c = b /\ d = a) ->
  link_exists g' c d = link_exists g c d.
Proof.
  intros W E Hab Hba.
  destruct (link_new_links _ _ _ _ _ _ _ _ W E) as (Hh & F & N & L).
  unfold link_exists at 1. rewrite L.
  rewrite (find_link_ends (link_objs g ++ [new_link a b None cf ct]))
    by (rewrite N, map_app; reflexivity).
  rewrite find_link_app.
  assert (Htail : find_link (link_objs g ++ [new_link a b None cf ct])
                    match link_exists g a b with
                    | Some _ => []
                    | None => [h]
                    end c d = None).
  { destruct (link_exists g a b); [reflexivity|].
    simpl. rewrite Hh, lookup_app_r by lia. rewrite Nat.sub_diag. simpl.
    destruct (decide (a = c /\ b = d)) as [[-> ->]|]; [|reflexivity].
    exfalso. now apply Hab. }
  rewrite Htail.
  assert (Hhead : find_link (link_objs g ++ [new_link a b None cf ct])
                    (if smart_mode g
                     then match link_exists g b a with
                          | Some lt => list_remove lt (links g)
                          | None => links g
                          end
                     else links g) c d
                  = link_exists g c d).
  { unfold link_exists at 2.
    rewrite <- (find_link_alloc (link_objs g) (new_link a b None cf ct)
                  (links g) c d (wf_links _ W)).
    destruct (smart_mode g); [|reflexivity].
    destruct (link_exists g b a) as [lt|] eqn:Eto; [|reflexivity].
    apply find_link_remove.
    apply find_link_Some in Eto as (Hin & l & Hl & Hf & Ht).
    unfold joins. rewrite lookup_app_l by (now apply (wf_links _ W)).
    rewrite Hl. apply bool_decide_eq_false_2. intros [A B].
    apply Hba. split; congruence. }
  rewrite Hhead. now destruct (link_exists g c d).
Qed.

(** X14: smart mode keeps links one way: if no two different nodes are
    joined by stored links in both directions, this is still so after any
    [createLink] in smart mode. *)
Theorem smart_mode_keeps_one_direction g a b label cf ct h g' :
  wf g -> smart_mode g = true ->
  (forall c d, c <> d -> link_exists g c d <> None -> link_exists g d c = None) ->
  newLink g a b label cf ct = Ok (h, g') ->
  forall c d, c <> d -> link_exists g' c d <> None -> link_exists g' d c = None.
Proof.
  intros W Hs Hone E c d Hcd Hsome. unfold newLink in E.
  destruct (decide (c = a /\ d = b)) as [[-> ->]|Hab].
  - exact (reverse_absent_after_link_new g b a label cf ct h g' W Hs
             (fun H => Hcd (eq_sym H)) E).
  - destruct (decide (c = b /\ d = a)) as [[-> ->]|Hba].
    + exfalso. apply Hsome.
      apply (reverse_absent_after_link_new g b a label cf ct h g' W Hs); auto.
    + rewrite (link_exists_other_after g a b label cf ct h g' c d W E Hab Hba)
        in Hsome.
      rewrite (link_exists_other_after g a b label cf ct h g' d c W E).
      * now apply Hone.
      * intros [-> ->]. now apply Hba.
      * intros [-> ->]. now apply Hab.
Qed.

Lemma smart_mode_keeps_one_direction_witness :
  exists h g',
    newLink smart_graph 1%nat 0%nat None None None = Ok (h, g') /\
    link_exists g' 0%nat 1%nat = None.
Proof.
  destruct (newLink smart_graph 1%nat 0%nat None None None) as [[h g']|e] eqn:E;
    [|vm_compute in E; discriminate E].
  exists h, g'. split; [reflexivity|].
  apply (smart_mode_keeps_one_direction smart_graph 1%nat 0%nat None None None
           h g' smart_graph_wf eq_refl).
  - intros c d _ H. exfalso. apply H. reflexivity.
  - exact E.
  - discriminate.
  - vm_compute in E. injection E as <- <-. vm_compute. discriminate.
Defined.

(** X15: in smart mode with the constructor's widths, a loop on a node is
    undone by asking for it again: the first [createLink(A, A)] stores
    the loop, the second one removes it and does not store its own link,
    so that no loop on [A] is stored and [__links] is what it was before
    the two calls. *)
Theorem smart_mode_loop_twice g a :
  wf g -> smart_mode g = true -> line_defaults g -> arrow_defaults g ->
  node_ok g a = true -> link_exists g a a = None ->
  exists h1 g1 h2 g2,
    newLink g a a None None None = Ok (h1, g1) /\
    newLink g1 a a None None None = Ok (h2, g2) /\
    link_exists g1 a a = Some h1 /\
    link_exists g2 a a = None /\
    links g2 = links g.
Proof.
  intros W Hs (HL1 & HL2 & HL3) (HA1 & HA2 & HA3) Ha Hnone.
  assert (Hok : call_ok g (NewLink a a None None None) = true).
  { simpl. now rewrite Ha. }
  unfold newLink.
  destruct (link_new_first g a a None None None W Hs Hnone) as (g1 & E1 & O1).
  pose proof (wf_link_new _ _ _ _ _ _ _ _ W Hok E1) as W1.
  destruct (link_new_links _ _ _ _ _ _ _ _ W E1) as (_ & F1 & N1 & L1).
  rewrite Hs, Hnone in L1.
  set (h1 := length (link_objs g)) in *.
  assert (Hfresh : h1 ∉ links g).
  { intros Hin. apply (wf_links _ W) in Hin. unfold h1 in Hin. lia. }
  assert (Hl1 : link_objs g1 !! h1 =
                Some (set_link_properties (new_link a a None None None)
                        (first_props g (link_properties (new_link a a None None None))
                           (bool_decide (is_Some (@None nat)))))).
  { rewrite O1, Hnone, lookup_app_r by (unfold h1; lia).
    unfold h1. now rewrite Nat.sub_diag. }
  assert (X1 : link_exists g1 a a = Some h1).
  { unfold link_exists. rewrite L1, find_link_app.
    assert (find_link (link_objs g1) (links g) a a = None) as ->.
    { rewrite O1. rewrite find_link_alloc by apply (wf_links _ W). exact Hnone. }
    simpl. rewrite Hl1. simpl.
    destruct (decide (a = a /\ a = a)) as [_|H]; [reflexivity|].
    exfalso. now apply H. }
  destruct (frame_widths _ _ F1) as (A1 & A2 & A3 & A4 & A5 & A6).
  assert (Hs1 : smart_mode g1 = true) by (now rewrite (frame_smart_mode _ _ F1)).
  destruct penwidth_second as (P1 & _). destruct arrowsize_second as (Q1 & _).
  assert (N12 : "1.2" <> EmptyString) by discriminate.
  assert (N08 : "0.8" <> EmptyString) by discriminate.
  destruct (link_new_again g1 a a None None None h1 _ "1.2" "0.8"
              (f_lit 12 (-1)) (f_lit 8 (-1)) W1 Hs1 X1 Hl1)
    as (g2 & E2 & _); try assumption.
  { cbn [link_properties set_link_properties].
    now rewrite first_props_penwidth, HL2, str_initial_line_width. }
  { cbn [link_properties set_link_properties].
    now rewrite first_props_arrowsize, HA2, str_initial_arrow_width. }
  destruct (link_new_links _ _ _ _ _ _ _ _ W1 E2) as (_ & F2 & N2 & L2).
  rewrite Hs1, X1, app_nil_r, L1, (list_remove_snoc _ _ Hfresh) in L2.
  exists h1, g1, (length (link_objs g1)), g2.
  split; [exact E1|]. split; [exact E2|]. split; [exact X1|].
  split; [|exact L2].
  unfold link_exists. rewrite L2.
  rewrite (find_link_ends
             ((link_objs g ++ [new_link a a None None None])
              ++ [new_link a a None None None])).
  - rewrite !find_link_alloc; [exact Hnone|apply (wf_links _ W)|].
    intros r Hr. rewrite length_app. simpl.
    apply (wf_links _ W) in Hr. lia.
  - rewrite N2, N1, !map_app. reflexivity.
Qed.

Lemma smart_mode_loop_twice_witness :
  exists h1 g1 h2 g2,
    newLink smart_graph 0%nat 0%nat None None None = Ok (h1, g1) /\
    newLink g1 0%nat 0%nat None None None = Ok (h2, g2) /\
    link_exists g1 0%nat 0%nat = Some h1 /\
    link_exists g2 0%nat 0%nat = None /\
    links g2 = links smart_graph.
Proof.
  apply (smart_mode_loop_twice smart_graph 0%nat).
  - exact smart_graph_wf.
  - reflexivity.
  - repeat split.
  - repeat split.
  - reflexivity.
  - reflexivity.
Defined.

(** ** The options of the constructor *)

Lemma list_ascii_of_string_app (s1 s2 : string) :
  list_ascii_of_string (s1 +:+ s2)
  = list_ascii_of_string s1 ++ list_ascii_of_string s2.
Proof.
  induction s1 as [|c s1 IH]; [reflexivity|].
  change (c :: list_ascii_of_string (s1 +:+ s2)
          = c :: (list_ascii_of_string s1 ++ list_ascii_of_string s2)).
  now rewrite IH.
Qed.

Lemma split_on_part sep p : forall cur rest,
  ~ In sep p ->
  split_on sep cur (p ++ sep :: rest) =
  string_of_list_ascii (rev cur ++ p) :: split_on sep [] rest.
Proof.
  induction p as [|c p IH]; intros cur rest Hp; simpl.
  - rewrite Ascii.eqb_refl, app_nil_r. reflexivity.
  - destruct (Ascii.eqb c sep) eqn:E.
    + apply Ascii.eqb_eq in E. subst. exfalso. apply Hp. now left.
    + rewrite IH by (intros H; apply Hp; now right).
      simpl. now rewrite <- app_assoc.
Qed.

Lemma split_once_key sep k : forall cur v,
  ~ In sep k ->
  split_once sep cur (k ++ sep :: v) =
  Some (string_of_list_ascii (rev cur ++ k), string_of_list_ascii v).
Proof.
  induction k as [|c k IH]; intros cur v Hk; simpl.
  - rewrite Ascii.eqb_refl, app_nil_r. reflexivity.
  - destruct (Ascii.eqb c sep) eqn:E.
    + apply Ascii.eqb_eq in E. subst. exfalso. apply Hk. now left.
    + rewrite IH by (intros H; apply Hk; now right).
      simpl. now rewrite <- app_assoc.
Qed.

Lemma split_once_some sep l : forall cur,
  In sep l -> exists kv, split_once sep cur l = Some kv.
Proof.
  induction l as [|c l IH]; intros cur Hl; simpl; [destruct Hl|].
  destruct (Ascii.eqb c sep) eqn:E; [eauto|].
  apply IH. destruct Hl as [->|Hl]; [|exact Hl].
  now rewrite Ascii.eqb_refl in E.
Qed.

Lemma split_on_options kvs :
  Forall clean_option kvs ->
  split_on ";"%char [] (list_ascii_of_string (options_string kvs))
  = map (fun kv => string_of_list_ascii (option_text kv)) kvs ++ [EmptyString].
Proof.
  induction 1 as [|[k v] kvs (Hsemi & _ & _) _ IH]; [reflexivity|].
  cbn [options_string].
  rewrite !list_ascii_of_string_app.
  change (list_ascii_of_string "=") with ["="%char].
  change (list_ascii_of_string ";") with [";"%char].
  replace (list_ascii_of_string k ++ ["="%char] ++ list_ascii_of_string v ++
           [";"%char] ++ list_ascii_of_string (options_string kvs))
    with (option_text (k, v) ++ ";"%char :: list_ascii_of_string (options_string kvs)).
  - rewrite split_on_part by exact Hsemi. rewrite IH. reflexivity.
  - unfold option_text. simpl. now rewrite <- app_assoc.
Qed.

Lemma parse_options_pairs kvs : forall opts,
  Forall clean_option kvs ->
  parse_options opts
    (map (fun kv => string_of_list_ascii (option_text kv)) kvs ++ [EmptyString])
  = Ok (Dict.update opts kvs).
Proof.
  induction kvs as [|[k v] kvs IH]; intros opts Hall; [reflexivity|].
  inversion Hall as [|? ? (Hsemi & Heq & Hself & Hstrip) Hrest]; subst.
  cbn [map app parse_options].
  rewrite list_ascii_of_string_of_list_ascii, Hstrip.
  unfold option_text at 1 2. cbn [fst snd] in *.
  destruct (list_ascii_of_string k ++ "="%char :: list_ascii_of_string v)
    as [|c o] eqn:Eo.
  { destruct (list_ascii_of_string k); discriminate. }
  rewrite <- Eo. rewrite split_once_key by exact Heq.
  cbn [rev app]. rewrite !string_of_list_ascii_of_string.
  unfold call_setOptions.
  destruct (String.eqb k "self") eqn:Ek;
    [apply String.eqb_eq in Ek; contradiction|].
  rewrite IH by exact Hrest. reflexivity.
Qed.

(** X16: the constructor reads back what [options_string] writes: for
    clean pairs (no semicolon, no [=] in the key, a key other than
    [self], no white space at either end),
    [GvGen(options="k1=v1;k2=v2;...")] returns a graph whose options are
    the pairs assigned in order (a later pair with the same key
    overwrites the value and keeps the place of the first). *)
Theorem init_options_roundtrip kvs :
  Forall clean_option kvs ->
  exists g, init None (options_string kvs) = Ok g /\
            options g = Dict.update [] kvs /\ nodes g = [] /\ links g = [].
Proof.
  intros Hall. unfold init.
  rewrite (split_on_options kvs Hall), (parse_options_pairs kvs [] Hall).
  cbn [bind truthy]. eexists. split; [reflexivity|]. repeat split.
Qed.

Lemma init_options_roundtrip_witness :
  exists g, init None (options_string [("rankdir", "LR"); ("nodesep", "0.5")]) = Ok g /\
            options g = Dict.update [] [("rankdir", "LR"); ("nodesep", "0.5")].
Proof.
  destruct (init_options_roundtrip [("rankdir", "LR"); ("nodesep", "0.5")])
    as (g & E & Ho & _).
  - repeat constructor; simpl; try (intuition discriminate); vm_compute; reflexivity.
  - exists g. split; assumption.
Defined.

Lemma split_once_inv sep l : forall cur a b,
  split_once sep cur l = Some (a, b) ->
  exists k v, l = k ++ sep :: v /\ ~ In sep k /\
              a = string_of_list_ascii (rev cur ++ k) /\
              b = string_of_list_ascii v.
Proof.
  induction l as [|c l IH]; intros cur a b; simpl; [discriminate|].
  destruct (Ascii.eqb c sep) eqn:E.
  - apply Ascii.eqb_eq in E. subst. intros [= <- <-].
    exists [], l. rewrite app_nil_r. repeat split. intros [].
  - intros H. destruct (IH _ _ _ H) as (k & v & -> & Hk & -> & ->).
    exists (c :: k), v. split; [reflexivity|]. split.
    + intros [->|Hin]; [now rewrite Ascii.eqb_refl in E|contradiction].
    + simpl. now rewrite <- app_assoc.
Qed.

(** the parts before the first one that the constructor cannot read are
    good, and the exception tells which kind that one is *)
Lemma parse_options_error parts : forall opts,
  match parse_options opts parts with
  | Ok _ => Forall good_part parts
  | Raise e =>
      exists pre part post,
        parts = pre ++ part :: post /\ Forall good_part pre /\
        ((e = ValueError /\ bad_part part) \/ (e = TypeError /\ self_part part))
  end.
Proof.
  induction parts as [|part parts IH]; intros opts; cbn [parse_options].
  - constructor.
  - destruct (PyStr.strip (list_ascii_of_string part)) as [|c o] eqn:Es.
    + assert (Hgood : good_part part).
      { split.
        - intros [Hne _]. now rewrite Es in Hne.
        - intros [v Hv]. rewrite Es in Hv. discriminate. }
      specialize (IH opts). destruct (parse_options opts parts).
      * now constructor.
      * destruct IH as (pre & p & post & -> & Hpre & He).
        exists (part :: pre), p, post. split; [reflexivity|].
        split; [now constructor|exact He].
    + destruct (split_once "="%char [] (c :: o)) as [[key value]|] eqn:E1.
      * destruct (split_once_inv _ _ _ _ _ E1) as (k & v & Hkv & Hk & -> & ->).
        cbn [rev app] in *. unfold call_setOptions.
        destruct (String.eqb (string_of_list_ascii k) "self") eqn:Ek.
        -- exists [], part, parts. split; [reflexivity|]. split; [constructor|].
           right. split; [reflexivity|]. exists v. rewrite Es, Hkv.
           apply String.eqb_eq in Ek. rewrite <- Ek.
           now rewrite list_ascii_of_string_of_list_ascii.
        -- assert (Hgood : good_part part).
           { split.
             - intros [_ Hno]. apply Hno. rewrite Es, Hkv.
               apply in_or_app. right. now left.
             - intros [v' Hv']. rewrite Es in Hv'. rewrite Hv' in E1.
               rewrite split_once_key in E1 by (simpl; intuition discriminate).
               injection E1 as E1 _. cbn [rev app] in E1.
               rewrite <- E1 in Ek. vm_compute in Ek. discriminate Ek. }
           specialize (IH (setOptions opts (string_of_list_ascii k)
                             (string_of_list_ascii v))).
           destruct (parse_options _ parts).
           ++ now constructor.
           ++ destruct IH as (pre & p & post & -> & Hpre & He).
              exists (part :: pre), p, post. split; [reflexivity|].
              split; [now constructor|exact He].
      * exists [], part, parts. split; [reflexivity|]. split; [constructor|].
        left. split; [reflexivity|]. unfold bad_part. rewrite Es.
        split; [discriminate|]. intros Hin.
        destruct (split_once_some "="%char (c :: o) [] Hin) as (kv & Hkv).
        rewrite Hkv in E1. discriminate.
Qed.

(** X17: the constructor returns exactly when every part of the options
    string, between semicolons, is blank or holds a [=] after a key other
    than [self].  Otherwise it raises at the first part that is not so:
    [ValueError] when that part is not blank and holds no [=],
    [TypeError] when its key is [self]. *)
Theorem init_options_error legend_name opts :
  match init legend_name opts with
  | Ok _ =>
      Forall good_part (split_on ";"%char [] (list_ascii_of_string opts))
  | Raise e =>
      exists pre part post,
        split_on ";"%char [] (list_ascii_of_string opts) = pre ++ part :: post /\
        Forall good_part pre /\
        ((e = ValueError /\ bad_part part) \/ (e = TypeError /\ self_part part))
  end.
Proof.
  unfold init.
  pose proof (parse_options_error
                (split_on ";"%char [] (list_ascii_of_string opts)) []) as H.
  destruct (parse_options [] _) as [o|e]; cbn [bind]; [|exact H].
  destruct (truthy legend_name); exact H.
Qed.

(** ** The legend *)

Lemma frame_legend g g' : frame g' = frame g -> legend g' = legend g.
Proof. intros H. exact (f_equal legend H). Qed.

Lemma legend_store_properties g e d :
  legend (store_properties g e d) = legend g.
Proof.
  unfold store_properties. destruct e as [r|r].
  - now destruct (nodes g !! r).
  - now destruct (link_objs g !! r).
Qed.

Lemma legend_exec g c g' : exec g c = Ok g' -> legend g' = legend g.
Proof.
  intros H. destruct c; simpl in H.
  - unfold newItem in H.
    destruct (node_new g name parent distinct) as [[it g1]|] eqn:E;
      simpl in H; [|discriminate].
    injection H as <-.
    now apply node_new_inv in E as [[_ ->]|[_ ->]].
  - unfold newLink in H.
    destruct (link_new g src dst label cl_src cl_dst) as [[h g1]|] eqn:E;
      simpl in H; [|discriminate].
    injection H as <-.
    apply link_new_inv in E as (l & -> & _ & _ & _ & E).
    assert (Hl : link_objs (set_link_objs g (link_objs g ++ [l]))
                 !! length (link_objs g) = Some l).
    { simpl. rewrite lookup_app_r by lia. now rewrite Nat.sub_diag. }
    destruct (link_smart_inv _ _ _ _ Hl E) as (Fr & _ & _).
    exact (frame_legend _ _ Fr).
  - now injection H as <-.
  - unfold styleApply, get_node, get_link in H. destruct node_or_link as [r|r].
    + destruct (nodes g !! r) as [n|] eqn:E; simpl in H; [|discriminate].
      now injection H as <-.
    + destruct (link_objs g !! r) as [l|] eqn:E; simpl in H; [|discriminate].
      now injection H as <-.
  - now injection H as <-.
  - unfold propertyAppend in H.
    destruct (properties_of g node_or_link); simpl in H; [|discriminate].
    injection H as <-. apply legend_store_properties.
  - unfold propertyRemove in H.
    destruct (properties_of g node_or_link) as [p|]; simpl in H; [|discriminate].
    destruct (Dict.delitem p key); simpl in H; [|discriminate].
    injection H as <-. apply legend_store_properties.
  - unfold propertyForeachLinksAppend in H.
    destruct (foreach_links_append _ _ _ _ _); simpl in H; [|discriminate].
    now injection H as <-.
  - now injection H as <-.
Qed.

Lemma legend_run cs : forall g g', run g cs = Ok g' -> legend g' = legend g.
Proof.
  induction cs as [|c cs IH]; intros g g'; simpl.
  - now intros [= <-].
  - destruct (call_ok g c); [|discriminate].
    destruct (exec g c) as [g1|] eqn:E; simpl; [|discriminate].
    intros H. rewrite (IH _ _ H). exact (legend_exec _ _ _ E).
Qed.

(** X18: a graph constructed without a legend name ([None] or the empty
    string) has no legend, whatever is called on it afterwards:
    [legendAppend] raises [AttributeError]. *)
Theorem legendAppend_needs_legend_name
    legend_name opts cs g0 g legendstyle legenddescr labelin :
  truthy legend_name = None ->
  init legend_name opts = Ok g0 -> run g0 cs = Ok g ->
  legendAppend g legendstyle legenddescr labelin = RaisesAttributeError.
Proof.
  intros Hname Hinit Hrun. unfold legendAppend.
  rewrite (legend_run _ _ _ Hrun).
  unfold init in Hinit.
  destruct (parse_options _ _) as [o|]; simpl in Hinit; [|discriminate].
  rewrite Hname in Hinit. injection Hinit as <-. reflexivity.
Qed.

Lemma legendAppend_needs_legend_name_witness :
  legendAppend styled_graph "s" "entry" false = RaisesAttributeError.
Proof.
  apply (legendAppend_needs_legend_name None "compound=true;"
           [StyleDefaultAppend "color" "blue";
            StyleAppend "s" "color" "red";
            StyleAppend "s" "shape" "box";
            NewItem "n" None false;
            NewItem "m" None false;
            StyleApply "s" (ENode 0%nat);
            PropertyAppend (ENode 0%nat) "color" "green";
            NewLink 0%nat 1%nat None None None]
           (graph_of (init None "compound=true;")));
    vm_compute; reflexivity.
Defined.

Lemma link_exists_beyond g a b :
  wf g -> (length (nodes g) <= a)%nat \/ (length (nodes g) <= b)%nat ->
  link_exists g a b = None.
Proof.
  intros W Hab. unfold link_exists. rewrite find_link_None.
  intros r _. unfold joins. destruct (link_objs g !! r) as [l|] eqn:E; [|reflexivity].
  destruct (wf_ends _ W _ _ E) as (Hf & Ht & _).
  apply bool_decide_eq_false_2. lia.
Qed.

Lemma insert_snoc {A} (l : list A) (x y : A) :
  <[length l := y]> (l ++ [x]) = l ++ [y].
Proof. induction l as [|a l IH]; simpl; [reflexivity|]. now rewrite IH. Qed.

Lemma find_link_alloc_app objs more rs a b :
  (forall r, r ∈ rs -> (r < length objs)%nat) ->
  find_link (objs ++ more) rs a b = find_link objs rs a b.
Proof.
  induction rs as [|r rs IH]; intros Hv; simpl; [reflexivity|].
  rewrite lookup_app_l by (apply Hv; left).
  rewrite IH by (intros; apply Hv; now right). reflexivity.
Qed.

(** a stored link stays the answer of [__link_exists] when link
    dictionaries are allocated and links are stored after it *)
Lemma link_exists_grow g g' more new a b :
  wf g -> link_objs g' = link_objs g ++ more -> links g' = links g ++ new ->
  is_Some (link_exists g a b) -> is_Some (link_exists g' a b).
Proof.
  intros W Ho Hl [r Hr]. exists r. unfold link_exists in *.
  rewrite Ho, Hl, find_link_app, find_link_alloc_app by apply (wf_links _ W).
  now rewrite Hr.
Qed.

(** [__link_new] without smart mode: the dictionary is allocated as it
    was built, and stored unless a link already joins the two nodes *)
Lemma link_new_plain g a b label cf ct :
  wf g -> smart_mode g = false ->
  exists g',
    link_new g a b label cf ct = Ok (length (link_objs g), g') /\
    frame g' = frame g /\
    link_objs g' = link_objs g ++ [new_link a b label cf ct] /\
    links g' = links g ++ match link_exists g a b with
                          | None => [length (link_objs g)]
                          | Some _ => []
                          end.
Proof.
  intros W Hs. unfold link_new. fold (new_link a b label cf ct).
  unfold link_smart, get_link. cbn [link_objs set_link_objs].
  rewrite lookup_app_r by lia. rewrite Nat.sub_diag.
  cbn [lookup list_lookup bind from_node to_node new_link smart_mode set_link_objs].
  rewrite Hs. cbn [bind]. rewrite link_exists_alloc by exact W.
  destruct (link_exists g a b) as [r|]; eexists; (split; [reflexivity|]).
  - cbn [links set_link_objs link_objs]. rewrite app_nil_r. repeat split.
  - repeat split.
Qed.

Lemma lookup_snoc {A} (l : list A) (x : A) : (l ++ [x]) !! length l = Some x.
Proof. rewrite lookup_app_r by lia. now rewrite Nat.sub_diag. Qed.

(** the two [propertyAppend] of [invisible_link], on the dictionary that
    [__link_new] has just allocated *)
Lemma invisible_props g objs l :
  link_objs g = objs ++ [l] ->
  exists g',
    (g1 <- propertyAppend g (ELink (length objs)) "dir" "none" ;;
     g2 <- propertyAppend g1 (ELink (length objs)) "style" "invis" ;;
     Ok (length objs, g2)) = Ok (length objs, g') /\
    frame g' = frame g /\ links g' = links g /\
    link_objs g' =
      objs ++ [set_link_properties l
                 (Dict.set (Dict.set (link_properties l) "dir" "none")
                    "style" "invis")].
Proof.
  intros Ho.
  rewrite (propertyAppend_link g (length objs) l)
    by (rewrite Ho; apply lookup_snoc).
  cbn [bind]. rewrite Ho, insert_snoc.
  erewrite propertyAppend_link
    by (cbn [link_objs set_link_objs]; apply lookup_snoc).
  cbn [bind link_objs set_link_objs]. rewrite insert_snoc.
  eexists. split; [reflexivity|]. repeat split.
Qed.

Lemma wf_relinked g g' l l' objs :
  wf g -> frame g' = frame g -> links g' = links g ->
  link_objs g = objs ++ [l] -> link_objs g' = objs ++ [l'] ->
  ends l' = ends l -> wf g'.
Proof.
  intros W F Hl Ho Ho' He. apply (wf_shape g); [|exact W].
  unfold shape. rewrite (frame_id_counter _ _ F), (frame_nodes _ _ F), Hl, Ho, Ho'.
  rewrite !map_app. simpl. now rewrite He.
Qed.

Lemma invisible_link_plain g a b :
  wf g -> smart_mode g = false ->
  call_ok g (NewLink a b None None None) = true ->
  exists g' l,
    invisible_link g a b = Ok (length (link_objs g), g') /\
    wf g' /\ frame g' = frame g /\
    link_objs g' = link_objs g ++ [l] /\
    invisible l a b /\
    links g' = links g ++ match link_exists g a b with
                          | None => [length (link_objs g)]
                          | Some _ => []
                          end /\
    is_Some (link_exists g' a b).
Proof.
  intros W Hs Hok.
  destruct (link_new_plain g a b None None None W Hs) as (g1 & E & F & Ho & Hl).
  destruct (invisible_props g1 _ _ Ho) as (g' & E' & F' & Hl' & Ho').
  exists g'. eexists. unfold invisible_link, newLink. rewrite E.
  cbn [bind fst snd]. split; [exact E'|].
  assert (W1 : wf g1) by (eapply wf_link_new; eauto).
  split; [exact (wf_relinked _ _ _ _ _ W1 F' Hl' Ho Ho' eq_refl)|].
  split; [now rewrite F'|]. split; [exact Ho'|].
  split; [repeat split|]. split; [now rewrite Hl'|].
  unfold link_exists. rewrite Hl', Hl, Ho', find_link_app.
  rewrite find_link_alloc by apply (wf_links _ W).
  fold (link_exists g a b). destruct (link_exists g a b) as [r|]; [eauto|].
  simpl. rewrite lookup_snoc. simpl.
  destruct (decide (a = a /\ b = b)) as [_|Hn]; [eauto|]. now destruct Hn.
Qed.

(** the first link between two nodes that no stored link joins, in either
    mode *)
Lemma invisible_link_first g a b :
  wf g -> call_ok g (NewLink a b None None None) = true ->
  link_exists g a b = None -> link_exists g b a = None ->
  exists g' l,
    invisible_link g a b = Ok (length (link_objs g), g') /\
    wf g' /\ frame g' = frame g /\
    link_objs g' = link_objs g ++ [l] /\
    links g' = links g ++ [length (link_objs g)] /\
    ends l = (a, b, None, None) /\ link_style l = None /\
    link_properties l =
      (if smart_mode g
       then [("penwidth", str (initial_line_width g));
             ("arrowsize", str (initial_arrow_width g))]
       else []) ++ [("dir", "none"); ("style", "invis")].
Proof.
  intros W Hok Hab Hba. destruct (smart_mode g) eqn:Hs.
  - destruct (link_new_first g a b None None None W Hs Hab) as (g1 & E & Ho).
    destruct (link_new_links _ _ _ _ _ _ _ _ W E) as (_ & F & _ & Hl).
    rewrite Hs, Hab, Hba in Hl. rewrite Hba in Ho.
    assert (W1 : wf g1) by (eapply wf_link_new; eauto).
    destruct (invisible_props g1 _ _ Ho) as (g' & E' & F' & Hl' & Ho').
    exists g'. eexists. unfold invisible_link, newLink. rewrite E.
    cbn [bind fst snd]. split; [exact E'|].
    split; [exact (wf_relinked _ _ _ _ _ W1 F' Hl' Ho Ho' eq_refl)|].
    split; [now rewrite F'|]. split; [exact Ho'|].
    split; [now rewrite Hl'|]. split; [reflexivity|]. split; [reflexivity|].
    unfold first_props. cbn. reflexivity.
  - destruct (link_new_plain g a b None None None W Hs) as (g1 & E & F & Ho & Hl).
    rewrite Hab in Hl.
    assert (W1 : wf g1) by (eapply wf_link_new; eauto).
    destruct (invisible_props g1 _ _ Ho) as (g' & E' & F' & Hl' & Ho').
    exists g'. eexists. unfold invisible_link, newLink. rewrite E.
    cbn [bind fst snd]. split; [exact E'|].
    split; [exact (wf_relinked _ _ _ _ _ W1 F' Hl' Ho Ho' eq_refl)|].
    split; [now rewrite F'|]. split; [exact Ho'|].
    split; [now rewrite Hl'|]. repeat split.
Qed.

Lemma lookup_snoc2 {A} (l : list A) (x y : A) :
  ((l ++ [x]) ++ [y]) !! length l = Some x.
Proof.
  rewrite lookup_app_l by (rewrite length_app; simpl; lia). apply lookup_snoc.
Qed.

Lemma insert_snoc2 {A} (l : list A) (x y z : A) :
  <[length l := z]> ((l ++ [x]) ++ [y]) = (l ++ [z]) ++ [y].
Proof.
  rewrite insert_app_l by (rewrite length_app; simpl; lia).
  now rewrite insert_snoc.
Qed.

Lemma lookup_snoc2' {A} (l : list A) (x y : A) :
  ((l ++ [x]) ++ [y]) !! S (length l) = Some y.
Proof.
  replace (S (length l)) with (length (l ++ [x]))
    by (rewrite length_app; simpl; lia).
  apply lookup_snoc.
Qed.

Lemma insert_snoc2' {A} (l : list A) (x y z : A) :
  <[S (length l) := z]> ((l ++ [x]) ++ [y]) = (l ++ [x]) ++ [z].
Proof.
  replace (S (length l)) with (length (l ++ [x]))
    by (rewrite length_app; simpl; lia).
  apply insert_snoc.
Qed.

(** [legendAppend] with the label outside the shape, up to the test of
    [needLinks]: two nodes and a link between them *)
Lemma legendAppend_pair g lg legendstyle legenddescr :
  wf g -> legend g = Some lg ->
  exists g5 l,
    wf g5 /\ smart_mode g5 = smart_mode g /\
    nodes g5 =
      nodes g ++
      [{| node_id := id_counter g + 1; node_parent := Some lg;
          node_style := Some legendstyle;
          node_properties := [("label", EmptyString)] |};
       {| node_id := id_counter g + 2; node_parent := Some lg;
          node_style := None;
          node_properties := [("label", legenddescr);
                              ("shape", "plaintext")] |}] /\
    link_objs g5 = link_objs g ++ [l] /\
    links g5 = links g ++ [length (link_objs g)] /\
    ends l = (length (nodes g), S (length (nodes g)), None, None) /\
    link_style l = None /\
    link_properties l =
      (if smart_mode g
       then [("penwidth", str (initial_line_width g));
             ("arrowsize", str (initial_arrow_width g))]
       else []) ++ [("dir", "none"); ("style", "invis")] /\
    legendAppend g legendstyle legenddescr false =
    of_result
      (if needLinks (options g) then
         g <- propertyAppend g5 (ELink (length (link_objs g)))
                "constraint" "false" ;;
         match has_children g lg with
         | [] => Ok g
         | (_ :: _) as children => legend_chains g children None None
         end
       else Ok g5).
Proof.
  intros W Hlg. unfold legendAppend. rewrite Hlg.
  unfold legendAppend_in, newItem.
  destruct (node_new g EmptyString (Some lg) false) as [[it1 g1]|] eqn:E1;
    [|discriminate E1].
  pose proof (wf_node_new _ _ _ _ _ _ W E1) as W1.
  unfold node_new in E1. cbn [bind] in E1. injection E1 as <- <-.
  cbn [bind fst snd].
  match goal with |- context [node_new ?x legenddescr (Some lg) false] =>
    set (g1 := x) in * end.
  destruct (node_new g1 legenddescr (Some lg) false) as [[it2 g2]|] eqn:E2;
    [|discriminate E2].
  pose proof (wf_node_new _ _ _ _ _ _ W1 E2) as W2.
  unfold node_new in E2. cbn [bind] in E2. injection E2 as <- <-.
  cbn [bind fst snd].
  rewrite !length_app. cbn [length]. rewrite !Nat.add_1_r.
  match goal with |- context [styleApply ?x legendstyle _] => set (g2 := x) in * end.
  destruct (styleApply g2 legendstyle (ENode (length (nodes g)))) as [g3|] eqn:E3.
  2:{ unfold styleApply, get_node in E3. subst g2 g1.
      cbn [nodes set_nodes] in E3. rewrite lookup_snoc2 in E3. discriminate E3. }
  pose proof (wf_shape _ _ (shape_styleApply _ _ _ _ E3) W2) as W3.
  unfold styleApply, get_node in E3. subst g2 g1.
  cbn [nodes set_nodes id_counter] in E3. rewrite lookup_snoc2 in E3.
  cbn [bind] in E3. rewrite insert_snoc2 in E3. injection E3 as <-.
  cbn [bind nodes set_nodes].
  match goal with |- context [invisible_link ?x _ _] => set (g3 := x) in * end.
  assert (F3 : link_objs g3 = link_objs g /\ links g3 = links g /\
               smart_mode g3 = smart_mode g /\
               initial_line_width g3 = initial_line_width g /\
               initial_arrow_width g3 = initial_arrow_width g /\
               options g3 = options g) by (repeat split).
  destruct F3 as (Ho3 & Hl3 & Hs3 & Hi3 & Ha3 & Hp3).
  assert (Hfresh : forall a b,
             (length (nodes g) <= a)%nat \/ (length (nodes g) <= b)%nat ->
             link_exists g3 a b = None).
  { intros a b Hab. unfold link_exists. rewrite Ho3, Hl3.
    now apply link_exists_beyond. }
  assert (Hok : call_ok g3 (NewLink (length (nodes g)) (S (length (nodes g)))
                              None None None) = true).
  { simpl. unfold node_ok. subst g3. cbn [nodes set_nodes].
    rewrite !bool_decide_eq_true_2; [reflexivity| |];
      rewrite !length_app; simpl; lia. }
  destruct (invisible_link_first g3 (length (nodes g)) (S (length (nodes g)))
              W3 Hok)
    as (g4 & l & E4 & W4 & F4 & Ho4 & Hl4 & He & Hst & Hpr);
    [apply Hfresh; lia|apply Hfresh; lia|].
  rewrite E4. cbn [bind fst snd].
  destruct (propertyAppend g4 (ENode (S (length (nodes g)))) "shape" "plaintext")
    as [g5|] eqn:E5.
  2:{ unfold propertyAppend, properties_of, get_node in E5.
      rewrite (frame_nodes _ _ F4) in E5. subst g3. cbn [nodes set_nodes] in E5.
      rewrite lookup_snoc2' in E5. discriminate E5. }
  pose proof (wf_shape _ _ (shape_propertyAppend _ _ _ _ _ E5) W4) as W5.
  unfold propertyAppend, properties_of, get_node, store_properties in E5.
  rewrite (frame_nodes _ _ F4) in E5. subst g3. cbn [nodes set_nodes] in E5.
  rewrite lookup_snoc2' in E5. cbn [bind node_properties] in E5.
  rewrite insert_snoc2' in E5. injection E5 as <-.
  eexists. exists l. split; [exact W5|].
  cbn [nodes set_nodes link_objs links set_node_properties node_id node_parent
       node_style smart_mode].
  rewrite (frame_smart_mode _ _ F4), Ho4, Hl4, He, Hst, Hpr.
  cbn [link_objs links set_nodes smart_mode initial_line_width
       initial_arrow_width bind].
  rewrite <- app_assoc.
  replace (id_counter g + 1 + 1) with (id_counter g + 2) by lia.
  repeat split.
Qed.

(** X19: on a graph with a legend whose layout needs no chain ([rankdir]
    unset, [LR] or [RL]), [legendAppend(style, descr)] with the label
    outside the shape returns, and adds exactly: a node with an empty
    label carrying the style and a node labelled [descr] with
    [shape=plaintext], both children of the legend, and one stored link
    from the first to the second with [dir=none] and [style=invis] (after
    the initial widths in smart mode). *)
Theorem legendAppend_shape_and_label g lg legendstyle legenddescr :
  wf g -> legend g = Some lg -> needLinks (options g) = false ->
  exists g' l,
    legendAppend g legendstyle legenddescr false = Returns g' /\
    nodes g' =
      nodes g ++
      [{| node_id := id_counter g + 1; node_parent := Some lg;
          node_style := Some legendstyle;
          node_properties := [("label", EmptyString)] |};
       {| node_id := id_counter g + 2; node_parent := Some lg;
          node_style := None;
          node_properties := [("label", legenddescr);
                              ("shape", "plaintext")] |}] /\
    link_objs g' = link_objs g ++ [l] /\
    links g' = links g ++ [length (link_objs g)] /\
    ends l = (length (nodes g), S (length (nodes g)), None, None) /\
    link_style l = None /\
    link_properties l =
      (if smart_mode g
       then [("penwidth", str (initial_line_width g));
             ("arrowsize", str (initial_arrow_width g))]
       else []) ++ [("dir", "none"); ("style", "invis")].
Proof.
  intros W Hlg Hneed.
  destruct (legendAppend_pair g lg legendstyle legenddescr W Hlg)
    as (g5 & l & _ & _ & Hn & Ho & Hl & He & Hst & Hpr & E).
  rewrite Hneed in E. exists g5, l. repeat split; assumption.
Qed.

Lemma legendAppend_shape_and_label_witness :
  exists g' l,
    legendAppend sideways_legend_graph "s" "entry" false = Returns g' /\
    links g' = [0%nat] /\
    link_properties l = [("dir", "none"); ("style", "invis")].
Proof.
  destruct (legendAppend_shape_and_label sideways_legend_graph 0%nat "s" "entry")
    as (g' & l & E & _ & _ & Hl & _ & _ & Hp).
  - apply (wf_init (Some "Legend") "rankdir=LR;"). vm_compute. reflexivity.
  - reflexivity.
  - vm_compute. reflexivity.
  - exists g', l. split; [exact E|]. split; [exact Hl|exact Hp].
Defined.

Lemma adjacent_cons {A} (x : A) (l : list A) a b :
  adjacent l a b -> adjacent (x :: l) a b.
Proof. intros (i & Ha & Hb). now exists (S i). Qed.

Lemma adjacent_inv {A} (x y : A) (l : list A) a b :
  adjacent (x :: y :: l) a b -> (a = x /\ b = y) \/ adjacent (y :: l) a b.
Proof.
  intros ([|i] & Ha & Hb).
  - left. simpl in Ha, Hb. split; congruence.
  - right. now exists i.
Qed.

(** the chain of [legendAppend] without smart mode: link dictionaries are
    allocated and links stored after those of the graph; every two
    consecutive nodes end up joined by a stored link, and every link that
    is stored is an undrawn link between two consecutive nodes *)
Lemma legend_chain_plain children : forall g prev,
  wf g -> smart_mode g = false ->
  (forall r, r ∈ option_list prev ++ children -> (r < length (nodes g))%nat) ->
  exists g' more new,
    legend_chain g children prev = Ok g' /\ wf g' /\ frame g' = frame g /\
    link_objs g' = link_objs g ++ more /\ links g' = links g ++ new /\
    (forall a b, adjacent (option_list prev ++ children) a b ->
                 is_Some (link_exists g' a b)) /\
    (forall h, h ∈ new ->
       exists l a b, link_objs g' !! h = Some l /\ invisible l a b /\
                     adjacent (option_list prev ++ children) a b).
Proof.
  induction children as [|node0 rest IH]; intros g prev W Hs Hv.
  - exists g, [], []. split; [reflexivity|]. split; [exact W|].
    split; [reflexivity|]. rewrite !app_nil_r. split; [reflexivity|].
    split; [reflexivity|]. split.
    + intros a b (i & _ & Hb). destruct prev; simpl in Hb; discriminate.
    + intros h Hh. inversion Hh.
  - destruct prev as [p|]; cbn [legend_chain].
    + assert (Hok : call_ok g (NewLink p node0 None None None) = true).
      { simpl. unfold node_ok. rewrite !bool_decide_eq_true_2; [reflexivity| |].
        - apply Hv. simpl. right. left.
        - apply Hv. simpl. left. }
      destruct (invisible_link_plain g p node0 W Hs Hok)
        as (g1 & l1 & E1 & W1 & F1 & Ho1 & Hi1 & Hl1 & Hex1).
      rewrite E1. cbn [bind snd].
      destruct (IH g1 (Some node0) W1)
        as (g' & more & new & E & W' & F' & Ho & Hl & Hadj & Hnew).
      { now rewrite (frame_smart_mode _ _ F1). }
      { intros r Hr. rewrite (frame_nodes _ _ F1). apply Hv. simpl. now right. }
      exists g', (l1 :: more),
        (match link_exists g p node0 with
         | None => [length (link_objs g)]
         | Some _ => []
         end ++ new).
      split; [exact E|]. split; [exact W'|]. split; [now rewrite F'|].
      split; [rewrite Ho, Ho1, <- app_assoc; reflexivity|].
      split; [rewrite Hl, Hl1, <- app_assoc; reflexivity|]. split.
      * intros a b Hab. apply adjacent_inv in Hab as [[-> ->]|Hab].
        -- exact (link_exists_grow g1 g' more new p node0 W1 Ho Hl Hex1).
        -- apply Hadj. exact Hab.
      * intros h Hh. apply elem_of_app in Hh as [Hh|Hh].
        -- destruct (link_exists g p node0); [inversion Hh|].
           apply list_elem_of_singleton in Hh as ->.
           exists l1, p, node0. split; [|split; [exact Hi1|]].
           ++ rewrite Ho, Ho1, lookup_app_l
                by (rewrite length_app; simpl; lia).
              apply lookup_snoc.
           ++ now exists 0%nat.
        -- destruct (Hnew h Hh) as (l & a & b & H1 & H2 & H3).
           exists l, a, b. split; [exact H1|]. split; [exact H2|].
           now apply adjacent_cons.
    + cbn [bind]. apply (IH g (Some node0) W Hs). exact Hv.
Qed.

(** X20: without smart mode, on a graph with a legend laid out top to
    bottom (or with any [rankdir] other than [LR] and [RL]),
    [legendAppend(style, descr, labelin)] with the label in the shape
    returns; it adds one styled node as the last child of the legend,
    keeps the link dictionaries and the stored links that were there,
    leaves every two consecutive children of the legend joined by a
    stored link, and stores only undrawn links ([dir=none],
    [style=invis]) between consecutive children. *)
Theorem legendAppend_chains_entries g lg legendstyle legenddescr :
  wf g -> smart_mode g = false -> legend g = Some lg ->
  needLinks (options g) = true ->
  exists g' more new,
    legendAppend g legendstyle legenddescr true = Returns g' /\ wf g' /\
    nodes g' =
      nodes g ++
      [{| node_id := id_counter g + 1; node_parent := Some lg;
          node_style := Some legendstyle;
          node_properties := [("label", legenddescr)] |}] /\
    has_children g' lg = has_children g lg ++ [length (nodes g)] /\
    link_objs g' = link_objs g ++ more /\ links g' = links g ++ new /\
    (forall a b, adjacent (has_children g' lg) a b ->
                 is_Some (link_exists g' a b)) /\
    (forall h, h ∈ new ->
       exists l a b, link_objs g' !! h = Some l /\ invisible l a b /\
                     adjacent (has_children g' lg) a b).
Proof.
  intros W Hs Hlg Hneed. unfold legendAppend. rewrite Hlg.
  unfold legendAppend_in, newItem.
  destruct (node_new g legenddescr (Some lg) false) as [[it1 g1]|] eqn:E1;
    [|discriminate E1].
  pose proof (wf_node_new _ _ _ _ _ _ W E1) as W1.
  unfold node_new in E1. cbn [bind] in E1. injection E1 as <- <-.
  cbn [bind fst snd].
  match goal with |- context [styleApply ?x legendstyle _] => set (g1 := x) in * end.
  destruct (styleApply g1 legendstyle (ENode (length (nodes g)))) as [g2|] eqn:E2.
  2:{ unfold styleApply, get_node in E2. subst g1.
      cbn [nodes set_nodes] in E2. rewrite lookup_snoc in E2. discriminate E2. }
  pose proof (wf_shape _ _ (shape_styleApply _ _ _ _ E2) W1) as W2.
  unfold styleApply, get_node in E2. subst g1.
  cbn [nodes set_nodes id_counter] in E2. rewrite lookup_snoc in E2.
  cbn [bind] in E2. rewrite insert_snoc in E2. injection E2 as <-.
  cbn [bind]. rewrite Hneed.
  match goal with |- context [has_children ?x lg] => set (g2 := x) in * end.
  assert (Hloop : match has_children g2 lg with
                  | [] => Ok g2
                  | (_ :: _) as children => legend_chain g2 children None
                  end = legend_chain g2 (has_children g2 lg) None)
    by (now destruct (has_children g2 lg)).
  rewrite Hloop. clear Hloop.
  destruct (legend_chain_plain (has_children g2 lg) g2 None W2 Hs)
    as (g' & more & new & E & W' & F' & Ho & Hl & Hadj & Hnew).
  { intros r Hr. simpl in Hr. unfold has_children in Hr.
    apply children_from_elem in Hr as (_ & n & Hn & _).
    rewrite Nat.sub_0_r in Hn. exact (lookup_lt_Some _ _ _ Hn). }
  assert (Hc : has_children g' lg = has_children g2 lg)
    by (unfold has_children; now rewrite (frame_nodes _ _ F')).
  exists g', more, new. rewrite E. split; [reflexivity|]. split; [exact W'|].
  split; [now rewrite (frame_nodes _ _ F')|]. split.
  { rewrite Hc. unfold has_children. subst g2. cbn [nodes set_nodes].
    rewrite children_from_snoc. simpl.
    destruct (decide (Some lg = Some lg)) as [_|Hn]; [reflexivity|].
    now destruct Hn. }
  split; [exact Ho|]. split; [exact Hl|]. rewrite Hc. split; assumption.
Qed.

Lemma legend_graph_wf : wf legend_graph.
Proof.
  apply (wf_run [NewItem "first" (Some 0%nat) false]
           (graph_of (init (Some "Legend") "rankdir=TB;"))).
  - apply (wf_init (Some "Legend") "rankdir=TB;"). vm_compute. reflexivity.
  - vm_compute. reflexivity.
Qed.

Lemma legendAppend_chains_entries_witness :
  exists g', legendAppend legend_graph "s" "entry" true = Returns g' /\
             is_Some (link_exists g' 1%nat 2%nat).
Proof.
  destruct (legendAppend_chains_entries legend_graph 0%nat "s" "entry"
              legend_graph_wf)
    as (g' & more & new & E & _ & _ & Hc & _ & _ & Hadj & _).
  - reflexivity.
  - reflexivity.
  - vm_compute. reflexivity.
  - exists g'. split; [exact E|]. apply Hadj. rewrite Hc.
    exists 0%nat. split; reflexivity.
Defined.

(** one link of a chain followed by the rest of the loop *)
Lemma chain_step g p node0 g1 l1 g' more new :
  wf g1 ->
  link_objs g1 = link_objs g ++ [l1] -> invisible l1 p node0 ->
  links g1 = links g ++ match link_exists g p node0 with
                        | None => [length (link_objs g)]
                        | Some _ => []
                        end ->
  is_Some (link_exists g1 p node0) ->
  link_objs g' = link_objs g1 ++ more -> links g' = links g1 ++ new ->
  exists more' new',
    link_objs g' = link_objs g ++ more' /\ links g' = links g ++ new' /\
    is_Some (link_exists g' p node0) /\
    (forall h, h ∈ new' ->
       h ∈ new \/ (link_objs g' !! h = Some l1 /\ invisible l1 p node0)).
Proof.
  intros W1 Ho1 Hi1 Hl1 Hex1 Ho Hl.
  exists (l1 :: more),
    (match link_exists g p node0 with
     | None => [length (link_objs g)]
     | Some _ => []
     end ++ new).
  split; [rewrite Ho, Ho1, <- app_assoc; reflexivity|].
  split; [rewrite Hl, Hl1, <- app_assoc; reflexivity|].
  split; [exact (link_exists_grow g1 g' more new p node0 W1 Ho Hl Hex1)|].
  intros h Hh. apply elem_of_app in Hh as [Hh|Hh]; [|now left].
  destruct (link_exists g p node0); [inversion Hh|].
  apply list_elem_of_singleton in Hh as ->. right. split; [|exact Hi1].
  rewrite Ho, Ho1, lookup_app_l by (rewrite length_app; simpl; lia).
  apply lookup_snoc.
Qed.

Lemma call_ok_NewLink g a b :
  (a < length (nodes g))%nat -> (b < length (nodes g))%nat ->
  call_ok g (NewLink a b None None None) = true.
Proof.
  intros Ha Hb. simpl. unfold node_ok.
  now rewrite !bool_decide_eq_true_2.
Qed.

(** the two chains of [legendAppend] without smart mode, one through the
    children with an empty label and one through the others *)
Lemma legend_chains_plain children : forall g pn pl,
  wf g -> smart_mode g = false ->
  (forall r, r ∈ children ->
     exists n lbl, nodes g !! r = Some n /\
                   Dict.get (node_properties n) "label" = Some lbl) ->
  (forall r, r ∈ option_list pn ++ option_list pl ->
     (r < length (nodes g))%nat) ->
  exists g' more new,
    legend_chains g children pn pl = Ok g' /\ wf g' /\ frame g' = frame g /\
    link_objs g' = link_objs g ++ more /\ links g' = links g ++ new /\
    (forall a b,
       adjacent (option_list pn ++
                 List.filter (empty_label (nodes g)) children) a b \/
       adjacent (option_list pl ++
                 List.filter (fun r => negb (empty_label (nodes g) r)) children)
         a b ->
       is_Some (link_exists g' a b)) /\
    (forall h, h ∈ new ->
       exists l a b, link_objs g' !! h = Some l /\ invisible l a b).
Proof.
  induction children as [|node0 rest IH]; intros g pn pl W Hs Hlab Hv.
  - exists g, [], []. split; [reflexivity|]. split; [exact W|].
    split; [reflexivity|]. rewrite !app_nil_r. split; [reflexivity|].
    split; [reflexivity|]. split.
    + intros a b [(i & _ & Hb)|(i & _ & Hb)].
      * destruct pn; simpl in Hb; discriminate.
      * destruct pl; simpl in Hb; discriminate.
    + intros h Hh. inversion Hh.
  - destruct (Hlab node0 (list_elem_of_here _ _)) as (n & lbl & Hn & Hlbl).
    assert (Hnode : (node0 < length (nodes g))%nat)
      by exact (lookup_lt_Some _ _ _ Hn).
    assert (Hrest : forall g1, frame g1 = frame g ->
              forall r, r ∈ rest ->
                exists n lbl, nodes g1 !! r = Some n /\
                              Dict.get (node_properties n) "label" = Some lbl).
    { intros g1 F1 r Hr. rewrite (frame_nodes _ _ F1). apply Hlab. now right. }
    cbn [legend_chains]. unfold get_node, Dict.getitem. rewrite Hn.
    cbn [bind]. rewrite Hlbl. cbn [bind].
    assert (Hshape : empty_label (nodes g) node0 = String.eqb lbl EmptyString)
      by (unfold empty_label; now rewrite Hn, Hlbl).
    cbn [List.filter]. rewrite Hshape.
    destruct (String.eqb lbl EmptyString); cbn [negb].
    + destruct pn as [p|].
      * assert (Hp : (p < length (nodes g))%nat) by (apply Hv; simpl; left).
        destruct (invisible_link_plain g p node0 W Hs (call_ok_NewLink g p node0 Hp Hnode))
          as (g1 & l1 & E1 & W1 & F1 & Ho1 & Hi1 & Hl1 & Hex1).
        rewrite E1. cbn [bind snd].
        destruct (IH g1 (Some node0) pl W1)
          as (g' & more & new & E & W' & F' & Ho & Hl & Hadj & Hnew).
        { now rewrite (frame_smart_mode _ _ F1). }
        { now apply Hrest. }
        { intros r Hr. rewrite (frame_nodes _ _ F1).
          apply elem_of_cons in Hr as [->|Hr]; [exact Hnode|].
          apply Hv. apply elem_of_app. now right. }
        rewrite (frame_nodes _ _ F1) in Hadj.
        destruct (chain_step g p node0 g1 l1 g' more new W1 Ho1 Hi1 Hl1 Hex1 Ho Hl)
          as (more' & new' & Ho' & Hl' & Hex' & Hnew').
        exists g', more', new'. split; [exact E|]. split; [exact W'|].
        split; [now rewrite F'|]. split; [exact Ho'|]. split; [exact Hl'|].
        split.
        -- intros a b [Hab|Hab].
           ++ apply adjacent_inv in Hab as [[-> ->]|Hab]; [exact Hex'|].
              apply Hadj. now left.
           ++ apply Hadj. now right.
        -- intros h Hh. destruct (Hnew' h Hh) as [Hin|[Hlook Hinv]]; [eauto|].
           exists l1, p, node0. split; assumption.
      * cbn [bind].
        destruct (IH g (Some node0) pl W Hs)
          as (g' & more & new & E & W' & F' & Ho & Hl & Hadj & Hnew).
        { now apply Hrest. }
        { intros r Hr. apply elem_of_cons in Hr as [->|Hr]; [exact Hnode|].
          apply Hv. exact Hr. }
        exists g', more, new. repeat (split; [assumption|]). exact Hnew.
    + destruct pl as [p|].
      * assert (Hp : (p < length (nodes g))%nat)
          by (apply Hv; apply elem_of_app; right; simpl; left).
        destruct (invisible_link_plain g p node0 W Hs (call_ok_NewLink g p node0 Hp Hnode))
          as (g1 & l1 & E1 & W1 & F1 & Ho1 & Hi1 & Hl1 & Hex1).
        rewrite E1. cbn [bind snd].
        destruct (IH g1 pn (Some node0) W1)
          as (g' & more & new & E & W' & F' & Ho & Hl & Hadj & Hnew).
        { now rewrite (frame_smart_mode _ _ F1). }
        { now apply Hrest. }
        { intros r Hr. rewrite (frame_nodes _ _ F1).
          apply elem_of_app in Hr as [Hr|Hr].
          - apply Hv. apply elem_of_app. now left.
          - apply list_elem_of_singleton in Hr as ->. exact Hnode. }
        rewrite (frame_nodes _ _ F1) in Hadj.
        destruct (chain_step g p node0 g1 l1 g' more new W1 Ho1 Hi1 Hl1 Hex1 Ho Hl)
          as (more' & new' & Ho' & Hl' & Hex' & Hnew').
        exists g', more', new'. split; [exact E|]. split; [exact W'|].
        split; [now rewrite F'|]. split; [exact Ho'|]. split; [exact Hl'|].
        split.
        -- intros a b [Hab|Hab].
           ++ apply Hadj. now left.
           ++ apply adjacent_inv in Hab as [[-> ->]|Hab]; [exact Hex'|].
              apply Hadj. now right.
        -- intros h Hh. destruct (Hnew' h Hh) as [Hin|[Hlook Hinv]]; [eauto|].
           exists l1, p, node0. split; assumption.
      * cbn [bind].
        destruct (IH g pn (Some node0) W Hs)
          as (g' & more & new & E & W' & F' & Ho & Hl & Hadj & Hnew).
        { now apply Hrest. }
        { intros r Hr. apply elem_of_app in Hr as [Hr|Hr].
          - apply Hv. rewrite app_nil_r. exact Hr.
          - apply list_elem_of_singleton in Hr as ->. exact Hnode. }
        exists g', more, new. repeat (split; [assumption|]). exact Hnew.
Qed.

(** X21: without smart mode, on a graph with a legend laid out top to
    bottom (or with any [rankdir] other than [LR] and [RL]) whose entries
    all have a label, [legendAppend(style, descr)] with the label outside
    the shape returns; it adds the shape node and the label node, keeps
    the link dictionaries and the stored links that were there, stores an
    undrawn link with [constraint=false] from the shape to the label,
    leaves every two consecutive shapes (children with an empty label)
    and every two consecutive labels joined by a stored link, and stores
    only undrawn links. *)
Theorem legendAppend_chains_shapes_and_labels g lg legendstyle legenddescr :
  wf g -> smart_mode g = false -> legend g = Some lg ->
  needLinks (options g) = true -> children_labelled g lg ->
  exists g' more new l,
    legendAppend g legendstyle legenddescr false = Returns g' /\ wf g' /\
    nodes g' =
      nodes g ++
      [{| node_id := id_counter g + 1; node_parent := Some lg;
          node_style := Some legendstyle;
          node_properties := [("label", EmptyString)] |};
       {| node_id := id_counter g + 2; node_parent := Some lg;
          node_style := None;
          node_properties := [("label", legenddescr);
                              ("shape", "plaintext")] |}] /\
    link_objs g' = link_objs g ++ more /\ links g' = links g ++ new /\
    length (link_objs g) ∈ new /\
    link_objs g' !! length (link_objs g) = Some l /\
    invisible l (length (nodes g)) (S (length (nodes g))) /\
    Dict.get (link_properties l) "constraint" = Some "false" /\
    (forall a b,
       adjacent (legend_shapes g' lg) a b \/ adjacent (legend_labels g' lg) a b ->
       is_Some (link_exists g' a b)) /\
    (forall h, h ∈ new ->
       exists l a b, link_objs g' !! h = Some l /\ invisible l a b).
Proof.
  intros W Hs Hlg Hneed Hlab.
  destruct (legendAppend_pair g lg legendstyle legenddescr W Hlg)
    as (g5 & l & W5 & Hs5 & Hn5 & Ho5 & Hl5 & He & Hst & Hpr & E).
  rewrite Hneed, Hs in *. cbn [app] in Hpr.
  rewrite (propertyAppend_link g5 (length (link_objs g)) l) in E
    by (rewrite Ho5; apply lookup_snoc).
  cbn [bind] in E. rewrite Ho5, insert_snoc in E.
  match type of E with context [has_children ?x lg] => set (g6 := x) in * end.
  set (l' := set_link_properties l
               (Dict.set (link_properties l) "constraint" "false")) in *.
  assert (Ho6 : link_objs g6 = link_objs g ++ [l']) by reflexivity.
  assert (W6 : wf g6)
    by exact (wf_relinked g5 g6 l l' (link_objs g) W5 eq_refl eq_refl Ho5 Ho6 eq_refl).
  assert (Hinv : invisible l' (length (nodes g)) (S (length (nodes g))) /\
                 Dict.get (link_properties l') "constraint" = Some "false").
  { unfold invisible. subst l'. unfold ends in *.
    cbn [from_node to_node cl_from_node cl_to_node link_style link_properties
         set_link_properties].
    rewrite Hpr. repeat split; assumption. }
  destruct Hinv as [Hinv Hcon].
  assert (Hloop : match has_children g6 lg with
                  | [] => Ok g6
                  | (_ :: _) as children => legend_chains g6 children None None
                  end = legend_chains g6 (has_children g6 lg) None None)
    by (now destruct (has_children g6 lg)).
  rewrite Hloop in E. clear Hloop.
  assert (Hc6 : has_children g6 lg
                = has_children g lg ++ [length (nodes g); S (length (nodes g))]).
  { unfold has_children. change (nodes g6) with (nodes g5). rewrite Hn5.
    change (nodes g ++ [?x; ?y]) with (nodes g ++ [x] ++ [y]).
    rewrite app_assoc, !children_from_snoc, length_app. simpl.
    destruct (decide (Some lg = Some lg)) as [_|Hn]; [|now destruct Hn].
    rewrite <- app_assoc, Nat.add_1_r. reflexivity. }
  destruct (legend_chains_plain (has_children g6 lg) g6 None None W6)
    as (g' & more & new & E' & W' & F' & Ho & Hl & Hadj & Hnew).
  { change (smart_mode g6) with (smart_mode g5). now rewrite Hs5. }
  { intros r Hr. rewrite Hc6 in Hr. change (nodes g6) with (nodes g5).
    rewrite Hn5. apply elem_of_app in Hr as [Hr|Hr].
    - destruct (Hlab r Hr) as (n & lbl & Hn & Hlbl). exists n, lbl.
      split; [|exact Hlbl]. now apply lookup_app_l_Some.
    - apply elem_of_cons in Hr as [->|Hr].
      + eexists. eexists. split.
        * rewrite lookup_app_r by lia. rewrite Nat.sub_diag. reflexivity.
        * reflexivity.
      + apply list_elem_of_singleton in Hr as ->.
        eexists. eexists. split.
        * rewrite lookup_app_r by lia.
          replace (S (length (nodes g)) - length (nodes g))%nat with 1%nat by lia.
          reflexivity.
        * reflexivity. }
  { intros r Hr. inversion Hr. }
  rewrite E' in E.
  assert (Hnodes : nodes g' = nodes g6) by exact (frame_nodes _ _ F').
  exists g', (l' :: more), (length (link_objs g) :: new), l'.
  split; [exact E|]. split; [exact W'|].
  split; [rewrite Hnodes; exact Hn5|].
  split; [rewrite Ho, Ho6, <- app_assoc; reflexivity|].
  split; [rewrite Hl; change (links g6) with (links g5);
          rewrite Hl5, <- app_assoc; reflexivity|].
  split; [left|].
  assert (Hlook : link_objs g' !! length (link_objs g) = Some l').
  { rewrite Ho, Ho6, lookup_app_l by (rewrite length_app; simpl; lia).
    apply lookup_snoc. }
  split; [exact Hlook|]. split; [exact Hinv|]. split; [exact Hcon|]. split.
  - intros a b Hab. apply Hadj. unfold legend_shapes, legend_labels in Hab.
    unfold has_children in Hab. rewrite Hnodes in Hab. exact Hab.
  - intros h Hh. apply elem_of_cons in Hh as [->|Hh]; [|exact (Hnew h Hh)].
    exists l', (length (nodes g)), (S (length (nodes g))).
    split; [exact Hlook|exact Hinv].
Qed.

Lemma legend_graph_labelled : children_labelled legend_graph 0%nat.
Proof.
  intros r Hr. apply elem_of_cons in Hr as [->|Hr]; [|inversion Hr].
  eexists. eexists. split; reflexivity.
Qed.

Lemma legendAppend_chains_shapes_and_labels_witness :
  exists g', legendAppend legend_graph "s" "entry" false = Returns g' /\
             links g' = [0%nat; 1%nat].
Proof.
  destruct (legendAppend_chains_shapes_and_labels legend_graph 0%nat "s" "entry"
              legend_graph_wf)
    as (g' & more & new & l & E & _).
  - reflexivity.
  - reflexivity.
  - vm_compute. reflexivity.
  - exact legend_graph_labelled.
  - exists g'. split; [exact E|].
    vm_compute in E. injection E as <-. reflexivity.
Defined.

(** ** Widths that are not numbers *)

(** X22: in smart mode, a request for a link that is already stored raises
    [ValueError] when the [penwidth] of the stored link is a non-empty
    string that [float()] does not read. *)
Theorem repeat_request_non_numeric_penwidth g a b label cf ct r lr s :
  wf g -> smart_mode g = true ->
  link_exists g a b = Some r -> link_objs g !! r = Some lr ->
  Dict.get (link_properties lr) "penwidth" = Some s -> s <> EmptyString ->
  float s = Raise ValueError ->
  link_new g a b label cf ct = Raise ValueError.
Proof.
  intros W Hs Hsome Hr Hpw Hpwne Hx.
  unfold link_new. fold (new_link a b label cf ct).
  set (l := new_link a b label cf ct).
  set (h := length (link_objs g)).
  set (g0 := set_link_objs g (link_objs g ++ [l])).
  assert (Hlt : (r < h)%nat).
  { apply find_link_Some in Hsome as [Hin _]. now apply (wf_links _ W). }
  assert (Hl : link_objs g0 !! h = Some l).
  { simpl. rewrite lookup_app_r by (unfold h; lia).
    unfold h. now rewrite Nat.sub_diag. }
  assert (Ea : link_exists g0 a b = Some r).
  { unfold g0. now rewrite link_exists_alloc. }
  assert (Eb : link_exists g0 b a = link_exists g b a).
  { unfold g0. now rewrite link_exists_alloc. }
  unfold link_smart, get_link. rewrite Hl. simpl. rewrite Ea, Eb, Hs.
  assert (Hdir : exists g1,
             match link_exists g b a with
             | Some lt =>
                 propertyAppend (set_links g0 (list_remove lt (links g)))
                   (ELink h) "dir" "both"
             | None => Ok g0
             end = Ok g1 /\
             link_objs g1 !! r = Some lr).
  { destruct (link_exists g b a) as [lt|].
    - rewrite (propertyAppend_link _ h l) by exact Hl.
      eexists. split; [reflexivity|]. simpl.
      rewrite list_lookup_insert_ne by lia.
      rewrite lookup_app_l by (fold h; lia). auto.
    - exists g0. split; [reflexivity|]. simpl.
      rewrite lookup_app_l by (fold h; lia). auto. }
  destruct Hdir as (g1 & -> & Hr1). simpl.
  unfold smart_penwidth. simpl.
  rewrite (propertyGet_link _ _ _ _ Hr1), Hpw, (truthy_nonempty _ Hpwne), Hx.
  reflexivity.
Qed.

Lemma thick_graph_wf : wf thick_graph.
Proof.
  apply (wf_run [NewLink 0%nat 1%nat None None None;
                 PropertyAppend (ELink 0%nat) "penwidth" "thick"] smart_graph).
  - exact smart_graph_wf.
  - vm_compute. reflexivity.
Qed.

Lemma repeat_request_non_numeric_penwidth_witness :
  link_new thick_graph 0%nat 1%nat None None None = Raise ValueError.
Proof.
  apply (repeat_request_non_numeric_penwidth thick_graph 0%nat 1%nat None None
           None 0%nat
           {| from_node := 0%nat; to_node := 1%nat; link_style := None;
              link_properties := [("penwidth", "thick"); ("arrowsize", "0.8")];
              cl_from_node := None; cl_to_node := None |} "thick").
  - exact thick_graph_wf.
  - reflexivity.
  - reflexivity.
  - vm_compute. reflexivity.
  - reflexivity.
  - discriminate.
  - vm_compute. reflexivity.
Defined.

(** ** The links in the output *)













(** ** The edge statements of [dotLinks] and [dot] *)




